(** * Buffer pool: LRU-K replacer, buffer pool manager and page guards

    A shallow embedding of [lru_k_replacer.cpp], [buffer_pool_manager.cpp]
    and [page_guard.cpp], with the properties of the buffer-pool
    specification stated and settled over it.

    Conventions.
    - [size_t] values are integers in [0, 2^64); every arithmetic operation
      of the source on them is followed by [size_t_wrap].
    - [frame_id_t], [page_id_t] and [Page::pin_count_] are declared in
      headers that are not part of the sources at hand; they are signed
      integers there and are embedded as [Z]. The one arithmetic
      operation of the sources on a page id, [next_page_id_++], is
      followed by [page_id_wrap].
    - A C++ call either returns, throws [bustub::Exception], has undefined
      behaviour (indexing outside an array, [front()] of an empty list,
      unlocking a latch that is not held) or blocks for ever on a latch:
      the [outcome] type. *)

From stdpp Require Import gmap list strings.
From Stdlib Require Import ZArith Lia.

Local Open Scope Z_scope.

(** ** Outcomes of calls *)

Inductive outcome (A : Type) : Type :=
| Ok (a : A)
| Throw (msg : string)
| Undefined
| Blocked.

Arguments Ok {A} a.
Arguments Throw {A} msg.
Arguments Undefined {A}.
Arguments Blocked {A}.

Definition obind {A B : Type} (c : outcome A) (f : A -> outcome B) : outcome B :=
  match c with
  | Ok a => f a
  | Throw msg => Throw msg
  | Undefined => Undefined
  | Blocked => Blocked
  end.

Definition is_throw {A : Type} (c : outcome A) (msg : string) : Prop :=
  c = Throw msg.

Definition returns {A : Type} (c : outcome A) : Prop :=
  exists a, c = Ok a.

(** ** Machine integers *)

Definition SIZE_MAX : Z := 2 ^ 64 - 1.

Definition size_t_wrap (z : Z) : Z := z mod 2 ^ 64.

Definition in_size_t (z : Z) : Prop := 0 <= z <= SIZE_MAX.


Definition page_id_wrap (z : Z) : Z := (z + 2 ^ 31) mod 2 ^ 32 - 2 ^ 31.

(** ** lru_k_replacer.cpp *)

Module LRUKNode.

(** The fields of [LRUKNode] that lru_k_replacer.cpp reads and writes
    (the class is declared in lru_k_replacer.h, which is not among the
    sources). [history_] is the list of [size_t] timestamps, oldest
    first. *)
Record t : Type := mk {
  history_ : list Z;
  fid_ : Z;
  is_evictable_ : bool
}.

(** [LRUKNode{}]: value-initialisation, which leaves an empty history and
    [is_evictable_] false (so does the member initialiser of the BusTub
    header). *)
Definition init : t :=
  {| history_ := []; fid_ := 0; is_evictable_ := false |}.

(** [node.is_evictable_ = b] *)
Definition set_is_evictable (b : bool) (n : t) : t :=
  {| history_ := history_ n; fid_ := fid_ n; is_evictable_ := b |}.

End LRUKNode.

Module LRUKReplacer.

Import LRUKNode.

Record t : Type := mk {
  node_store_ : gmap Z LRUKNode.t;
  current_timestamp_ : Z;
  curr_size_ : Z;
  replacer_size_ : Z;
  k_ : Z
}.

(** [LRUKReplacer::LRUKReplacer(num_frames, k)] *)
Definition create (num_frames k : Z) : t :=
  {| node_store_ := ∅; current_timestamp_ := 0; curr_size_ := 0;
     replacer_size_ := num_frames; k_ := k |}.

Definition INVALID_FRAME : string := "Invalid frame id".
Definition REMOVE_NON_EVICTABLE : string :=
  "Attempt to remove a non-evictable frame".

(** [static_cast<size_t>(frame_id) > replacer_size_] *)
Definition frame_check (r : t) (frame_id : Z) : bool :=
  replacer_size_ r <? size_t_wrap frame_id.

(** The three locals of the loop of [Evict]. *)
Record scan : Type := mk_scan {
  victim : option Z;
  oldest_timestamp : Z;
  max_k_distance : Z
}.

Definition scan_init : scan :=
  {| victim := None; oldest_timestamp := SIZE_MAX; max_k_distance := 0 |}.

(** [k_distance] as the loop body computes it, [front] being
    [node.history_.front()]. *)
Definition k_distance (r : t) (node : LRUKNode.t) (front : Z) : Z :=
  if k_ r <=? Z.of_nat (length (history_ node))
  then size_t_wrap (current_timestamp_ r - front)
  else SIZE_MAX.

(** One iteration of the loop over [node_store_]. An evictable node
    always has its [history_.front()] read, which is undefined on an
    empty history. *)
Definition scan_step (r : t) (acc : scan) (entry : Z * LRUKNode.t) : outcome scan :=
  let '(frame_id, node) := entry in
  if negb (is_evictable_ node) then Ok acc
  else
    match history_ node with
    | [] => Undefined
    | front :: _ =>
        let kd := k_distance r node front in
        if (max_k_distance acc <? kd)
           || ((kd =? max_k_distance acc) && (front <? oldest_timestamp acc))
        then Ok {| victim := Some frame_id; oldest_timestamp := front;
                   max_k_distance := kd |}
        else Ok acc
    end.

Fixpoint scan_loop (r : t) (acc : scan) (entries : list (Z * LRUKNode.t)) : outcome scan :=
  match entries with
  | [] => Ok acc
  | e :: rest => obind (scan_step r acc e) (fun acc' => scan_loop r acc' rest)
  end.

(** [Evict] with the iteration order of the [unordered_map] made
    explicit: [entries] enumerates [node_store_]. *)
Definition Evict_in_order (entries : list (Z * LRUKNode.t)) (r : t) : outcome (option Z * t) :=
  obind (scan_loop r scan_init entries) (fun acc =>
    match victim acc with
    | Some v =>
        Ok (Some v,
            {| node_store_ := delete v (node_store_ r);
               current_timestamp_ := current_timestamp_ r;
               curr_size_ := size_t_wrap (curr_size_ r - 1);
               replacer_size_ := replacer_size_ r;
               k_ := k_ r |})
    | None => Ok (None, r)
    end).

(** [LRUKReplacer::Evict]: [Some frame_id] for [true] with [*frame_id]
    written, [None] for [false]. *)
Definition Evict (r : t) : outcome (option Z * t) :=
  Evict_in_order (map_to_list (node_store_ r)) r.

(** The node of [frame_id] once [RecordAccess] has run: the node found
    or a fresh [LRUKNode{}], the incremented timestamp pushed at the
    back of its history, the front popped when the history is longer
    than [k_], and [fid_] set. *)
Definition accessed (frame_id : Z) (r : t) : LRUKNode.t :=
  let ts := size_t_wrap (current_timestamp_ r + 1) in
  let node := default LRUKNode.init (node_store_ r !! frame_id) in
  let pushed := history_ node ++ [ts] in
  {| history_ := if k_ r <? Z.of_nat (length pushed) then tail pushed else pushed;
     fid_ := frame_id;
     is_evictable_ := is_evictable_ node |}.

(** [LRUKReplacer::RecordAccess] *)
Definition RecordAccess (frame_id : Z) (r : t) : outcome t :=
  if frame_check r frame_id then Throw INVALID_FRAME
  else
    Ok {| node_store_ := <[frame_id := accessed frame_id r]> (node_store_ r);
          current_timestamp_ := size_t_wrap (current_timestamp_ r + 1);
          curr_size_ := curr_size_ r;
          replacer_size_ := replacer_size_ r;
          k_ := k_ r |}.

(** [LRUKReplacer::SetEvictable] *)
Definition SetEvictable (frame_id : Z) (set_evictable : bool) (r : t) : outcome t :=
  if frame_check r frame_id then Throw INVALID_FRAME
  else
    match node_store_ r !! frame_id with
    | None => Ok r
    | Some node =>
        if bool_decide (is_evictable_ node = set_evictable) then Ok r
        else
          Ok {| node_store_ :=
                  <[frame_id := set_is_evictable set_evictable node]>
                    (node_store_ r);
                current_timestamp_ := current_timestamp_ r;
                curr_size_ :=
                  size_t_wrap (curr_size_ r + (if set_evictable then 1 else -1));
                replacer_size_ := replacer_size_ r;
                k_ := k_ r |}
    end.

(** [LRUKReplacer::Remove] *)
Definition Remove (frame_id : Z) (r : t) : outcome t :=
  if frame_check r frame_id then Throw INVALID_FRAME
  else
    match node_store_ r !! frame_id with
    | None => Ok r
    | Some node =>
        if negb (is_evictable_ node) then Throw REMOVE_NON_EVICTABLE
        else
          Ok {| node_store_ := delete frame_id (node_store_ r);
                current_timestamp_ := current_timestamp_ r;
                curr_size_ := size_t_wrap (curr_size_ r - 1);
                replacer_size_ := replacer_size_ r;
                k_ := k_ r |}
    end.

(** [LRUKReplacer::Size] *)
Definition Size (r : t) : Z := curr_size_ r.

End LRUKReplacer.

(** Scenario S1 of the specification, run on the replacer. *)
Module ScenarioS1.

Import LRUKReplacer.

Definition run (ops : list (t -> outcome t)) (r : t) : outcome t :=
  foldl (fun acc op => obind acc op) (Ok r) ops.

Definition accesses : list Z := [1; 2; 3; 4; 5; 6; 1; 2; 3; 4; 5; 6; 1].

Definition after_accesses : outcome t :=
  obind (run (map RecordAccess accesses) (create 7 2))
    (run (map (fun f => SetEvictable f true) [1; 2; 3; 4; 5; 6])).

(** The replacer of the scenario before the first [Evict]. *)
Definition replacer : t :=
  match after_accesses with
  | Ok r => r
  | _ => create 7 2
  end.



End ScenarioS1.


(** ** Pages, latches and the disk *)

Module Page.

(** Modelled from the spec: [ReaderWriterLatch] (rwlatch.h, not among the
    sources) is "a single-writer / multi-reader latch guarding payload
    access". Acquiring a latch that cannot be granted blocks; releasing
    one that is not held is undefined. *)
Record latch : Type := mk_latch {
  readers_ : nat;
  writer_ : bool
}.

Definition latch_free : latch := {| readers_ := 0; writer_ := false |}.

Definition latch_RLock (l : latch) : outcome latch :=
  if writer_ l then Blocked
  else Ok {| readers_ := S (readers_ l); writer_ := false |}.

Definition latch_WLock (l : latch) : outcome latch :=
  if writer_ l then Blocked
  else match readers_ l with
       | O => Ok {| readers_ := 0; writer_ := true |}
       | S _ => Blocked
       end.

Definition latch_RUnlock (l : latch) : outcome latch :=
  match readers_ l with
  | O => Undefined
  | S n => Ok {| readers_ := n; writer_ := writer_ l |}
  end.

Definition latch_WUnlock (l : latch) : outcome latch :=
  if writer_ l then Ok {| readers_ := readers_ l; writer_ := false |}
  else Undefined.

(** Modelled from the spec: the page size is "fixed at compile/link time"
    (BUSTUB_PAGE_SIZE of config.h, not among the sources). *)
Definition BUSTUB_PAGE_SIZE : Z := 4096.

(** Modelled from the spec: [page_id] has a "negative sentinel for empty"
    (INVALID_PAGE_ID of config.h, not among the sources). *)
Definition INVALID_PAGE_ID : Z := -1.

(** What [ResetMemory] leaves in [data_]. *)
Definition zero_data : list Byte.byte :=
  repeat Byte.x00 (Z.to_nat BUSTUB_PAGE_SIZE).

(** Modelled from the spec: the frame of page.h (not among the sources),
    "a fixed-size byte buffer plus metadata": [page_id], [pin_count],
    [is_dirty], [rw_latch]. *)
Record t : Type := mk {
  data_ : list Byte.byte;
  page_id_ : Z;
  pin_count_ : Z;
  is_dirty_ : bool;
  rwlatch_ : latch
}.

(** A frame as the constructor of the pool leaves it. *)
Definition init : t :=
  {| data_ := zero_data; page_id_ := INVALID_PAGE_ID; pin_count_ := 0;
     is_dirty_ := false; rwlatch_ := latch_free |}.

Definition set_data (d : list Byte.byte) (p : t) : t :=
  {| data_ := d; page_id_ := page_id_ p; pin_count_ := pin_count_ p;
     is_dirty_ := is_dirty_ p; rwlatch_ := rwlatch_ p |}.

Definition set_page_id (i : Z) (p : t) : t :=
  {| data_ := data_ p; page_id_ := i; pin_count_ := pin_count_ p;
     is_dirty_ := is_dirty_ p; rwlatch_ := rwlatch_ p |}.

Definition set_pin_count (n : Z) (p : t) : t :=
  {| data_ := data_ p; page_id_ := page_id_ p; pin_count_ := n;
     is_dirty_ := is_dirty_ p; rwlatch_ := rwlatch_ p |}.

Definition set_is_dirty (b : bool) (p : t) : t :=
  {| data_ := data_ p; page_id_ := page_id_ p; pin_count_ := pin_count_ p;
     is_dirty_ := b; rwlatch_ := rwlatch_ p |}.

Definition set_rwlatch (l : latch) (p : t) : t :=
  {| data_ := data_ p; page_id_ := page_id_ p; pin_count_ := pin_count_ p;
     is_dirty_ := is_dirty_ p; rwlatch_ := l |}.

(** [Page::ResetMemory] *)
Definition ResetMemory (p : t) : t := set_data zero_data p.

End Page.

Module Disk.

(** The fields of a [DiskRequest] apart from the promise; [data_] is the
    payload the request points at when it is scheduled. *)
Record request : Type := mk_request {
  is_write_ : bool;
  data_ : list Byte.byte;
  page_id_ : Z
}.

(** Modelled from the spec: the disk scheduler and the disk manager are
    external collaborators; a scheduled request is carried out before
    [future.get()] returns. [blocks] is what the disk holds per page id,
    [log] the requests in the order they were scheduled. A page never
    written reads as zeroes. *)
Record t : Type := mk {
  blocks : gmap Z (list Byte.byte);
  log : list request
}.

Definition empty : t := {| blocks := ∅; log := [] |}.

Definition read_block (d : t) (page_id : Z) : list Byte.byte :=
  default Page.zero_data (blocks d !! page_id).

Definition Schedule (req : request) (d : t) : t :=
  {| blocks := if is_write_ req
               then <[page_id_ req := data_ req]> (blocks d)
               else blocks d;
     log := log d ++ [req] |}.

End Disk.

(** ** buffer_pool_manager.cpp *)

Module BufferPoolManager.

Record t : Type := mk {
  pool_size_ : Z;
  pages_ : list Page.t;
  page_table_ : gmap Z Z;
  free_list_ : list Z;
  replacer_ : LRUKReplacer.t;
  next_page_id_ : Z;
  disk_ : Disk.t
}.

Definition set_pages (v : list Page.t) (s : t) : t :=
  {| pool_size_ := pool_size_ s; pages_ := v; page_table_ := page_table_ s;
     free_list_ := free_list_ s; replacer_ := replacer_ s;
     next_page_id_ := next_page_id_ s; disk_ := disk_ s |}.

Definition set_page_table (v : gmap Z Z) (s : t) : t :=
  {| pool_size_ := pool_size_ s; pages_ := pages_ s; page_table_ := v;
     free_list_ := free_list_ s; replacer_ := replacer_ s;
     next_page_id_ := next_page_id_ s; disk_ := disk_ s |}.

Definition set_free_list (v : list Z) (s : t) : t :=
  {| pool_size_ := pool_size_ s; pages_ := pages_ s; page_table_ := page_table_ s;
     free_list_ := v; replacer_ := replacer_ s;
     next_page_id_ := next_page_id_ s; disk_ := disk_ s |}.

Definition set_replacer (v : LRUKReplacer.t) (s : t) : t :=
  {| pool_size_ := pool_size_ s; pages_ := pages_ s; page_table_ := page_table_ s;
     free_list_ := free_list_ s; replacer_ := v;
     next_page_id_ := next_page_id_ s; disk_ := disk_ s |}.

Definition set_next_page_id (v : Z) (s : t) : t :=
  {| pool_size_ := pool_size_ s; pages_ := pages_ s; page_table_ := page_table_ s;
     free_list_ := free_list_ s; replacer_ := replacer_ s;
     next_page_id_ := v; disk_ := disk_ s |}.

Definition set_disk (v : Disk.t) (s : t) : t :=
  {| pool_size_ := pool_size_ s; pages_ := pages_ s; page_table_ := page_table_ s;
     free_list_ := free_list_ s; replacer_ := replacer_ s;
     next_page_id_ := next_page_id_ s; disk_ := v |}.

(** The constructor: [pool_size] frames, all on the free list in
    increasing order, an empty page table, a replacer for [pool_size]
    frames. [next_page_id_] starts at 0 (member initialiser of the
    header; the spec: "typically zero"). *)
Definition create (pool_size replacer_k : Z) (disk : Disk.t) : t :=
  {| pool_size_ := pool_size;
     pages_ := replicate (Z.to_nat pool_size) Page.init;
     page_table_ := ∅;
     free_list_ := seqZ 0 pool_size;
     replacer_ := LRUKReplacer.create pool_size replacer_k;
     next_page_id_ := 0;
     disk_ := disk |}.

(** Methods thread the manager and may fail. *)
Definition M (A : Type) : Type := t -> outcome (A * t).

Definition ret {A : Type} (a : A) : M A := fun s => Ok (a, s).

Definition bind {A B : Type} (c : M A) (f : A -> M B) : M B :=
  fun s => obind (c s) (fun '(a, s') => f a s').

Notation "'let*' x ':=' c 'in' k" := (bind c (fun x => k))
  (at level 10, x name, c at level 100, k at level 200).
Notation "c ';;' k" := (bind c (fun _ => k))
  (at level 100, k at level 200, right associativity).

Definition modify (f : t -> t) : M unit := fun s => Ok (tt, f s).

(** [pages_[frame_id]], read. *)
Definition get_page (frame_id : Z) : M Page.t := fun s =>
  if frame_id <? 0 then Undefined
  else match pages_ s !! Z.to_nat frame_id with
       | Some p => Ok (p, s)
       | None => Undefined
       end.

Definition store_page (frame_id : Z) (p : Page.t) (s : t) : t :=
  set_pages (<[Z.to_nat frame_id := p]> (pages_ s)) s.

(** An update through [Page *page = &pages_[frame_id]]. *)
Definition update_page (frame_id : Z) (f : Page.t -> Page.t) : M unit :=
  let* p := get_page frame_id in
  modify (store_page frame_id (f p)).

(** A call [replacer_->op(...)]. *)
Definition on_replacer (op : LRUKReplacer.t -> outcome LRUKReplacer.t) : M unit :=
  fun s => obind (op (replacer_ s)) (fun r => Ok (tt, set_replacer r s)).

(** [BufferPoolManager::ReadFrame] *)
Definition ReadFrame (frame_id page_id : Z) : M unit :=
  let* p := get_page frame_id in
  let* d := (fun s => Ok (Disk.read_block (disk_ s) page_id, s)) in
  modify (fun s => set_disk (Disk.Schedule
            {| Disk.is_write_ := false; Disk.data_ := Page.data_ p;
               Disk.page_id_ := page_id |} (disk_ s)) s) ;;
  update_page frame_id (Page.set_data d).

(** [BufferPoolManager::WriteFrame] *)
Definition WriteFrame (frame_id page_id : Z) : M unit :=
  let* p := get_page frame_id in
  modify (fun s => set_disk (Disk.Schedule
            {| Disk.is_write_ := true; Disk.data_ := Page.data_ p;
               Disk.page_id_ := page_id |} (disk_ s)) s).

(** [BufferPoolManager::AllocatePage] *)
Definition AllocatePage : M Z := fun s =>
  Ok (next_page_id_ s, set_next_page_id (page_id_wrap (next_page_id_ s + 1)) s).

(** The [if / else if / else] that opens [NewPage] and the miss path of
    [FetchPage] (the same text in both): a frame of the free list, else
    a victim of the replacer, whose page-table entry is erased and whose
    payload is written back when dirty. [None] stands for the
    [return nullptr] of the enclosing method. *)
Definition obtain_frame : M (option Z) := fun s =>
  match free_list_ s with
  | frame_id :: rest => Ok (Some frame_id, set_free_list rest s)
  | [] =>
      obind (LRUKReplacer.Evict (replacer_ s)) (fun '(v, r) =>
        match v with
        | None => Ok (None, set_replacer r s)
        | Some frame_id =>
            (let* p := get_page frame_id in
             modify (fun s' => set_page_table
                       (delete (Page.page_id_ p) (page_table_ s')) s') ;;
             (if Page.is_dirty_ p
              then WriteFrame frame_id (Page.page_id_ p)
              else ret tt) ;;
             ret (Some frame_id)) (set_replacer r s)
        end)
  end.

(** [BufferPoolManager::NewPage]: [Some (page_id, frame_id)] stands for
    [*page_id] written and [&pages_[frame_id]] returned, [None] for
    [nullptr]. *)
Definition NewPage : M (option (Z * Z)) :=
  let* f := obtain_frame in
  match f with
  | None => ret None
  | Some frame_id =>
      let* page_id := AllocatePage in
      update_page frame_id (fun p =>
        Page.set_is_dirty false (Page.set_pin_count 1
          (Page.set_page_id page_id (Page.ResetMemory p)))) ;;
      modify (fun s => set_page_table (<[page_id := frame_id]> (page_table_ s)) s) ;;
      on_replacer (LRUKReplacer.SetEvictable frame_id false) ;;
      on_replacer (LRUKReplacer.RecordAccess frame_id) ;;
      ret (Some (page_id, frame_id))
  end.

(** [BufferPoolManager::FetchPage]: [Some frame_id] stands for
    [&pages_[frame_id]]. *)
Definition FetchPage (page_id : Z) : M (option Z) := fun s =>
  match page_table_ s !! page_id with
  | Some frame_id =>
      (let* p := get_page frame_id in
       (if Page.pin_count_ p =? 0
        then on_replacer (LRUKReplacer.SetEvictable frame_id false)
        else ret tt) ;;
       update_page frame_id (fun p => Page.set_pin_count (Page.pin_count_ p + 1) p) ;;
       on_replacer (LRUKReplacer.RecordAccess frame_id) ;;
       ret (Some frame_id)) s
  | None =>
      (let* f := obtain_frame in
       match f with
       | None => ret None
       | Some frame_id =>
           update_page frame_id Page.ResetMemory ;;
           ReadFrame frame_id page_id ;;
           modify (fun s => set_page_table (<[page_id := frame_id]> (page_table_ s)) s) ;;
           update_page frame_id (fun p =>
             Page.set_is_dirty false (Page.set_pin_count 1
               (Page.set_page_id page_id p))) ;;
           on_replacer (LRUKReplacer.RecordAccess frame_id) ;;
           on_replacer (LRUKReplacer.SetEvictable frame_id false) ;;
           ret (Some frame_id)
       end) s
  end.

(** [BufferPoolManager::UnpinPage] *)
Definition UnpinPage (page_id : Z) (is_dirty : bool) : M bool := fun s =>
  match page_table_ s !! page_id with
  | None => Ok (false, s)
  | Some frame_id =>
      (let* p := get_page frame_id in
       if Page.pin_count_ p <=? 0 then ret false
       else
         update_page frame_id (fun p =>
           Page.set_pin_count (Page.pin_count_ p - 1)
             (Page.set_is_dirty (is_dirty || Page.is_dirty_ p) p)) ;;
         (if Page.pin_count_ p - 1 =? 0
          then on_replacer (LRUKReplacer.SetEvictable frame_id true)
          else ret tt) ;;
         ret true) s
  end.

(** [BufferPoolManager::FlushPage] *)
Definition FlushPage (page_id : Z) : M bool := fun s =>
  match page_table_ s !! page_id with
  | None => Ok (false, s)
  | Some frame_id =>
      (WriteFrame frame_id page_id ;;
       update_page frame_id (Page.set_is_dirty false) ;;
       ret true) s
  end.

(** [BufferPoolManager::FlushAllPages] takes [latch_] and then calls
    [FlushPage], which takes [latch_] again, for each entry of the page
    table: with a resident page the mutex is locked twice by its owner,
    which is undefined. *)
Definition FlushAllPages : M unit := fun s =>
  if bool_decide (page_table_ s = ∅) then Ok (tt, s) else Undefined.

(** [BufferPoolManager::DeletePage] *)
Definition DeletePage (page_id : Z) : M bool := fun s =>
  match page_table_ s !! page_id with
  | None => Ok (true, s)
  | Some frame_id =>
      (let* p := get_page frame_id in
       if 0 <? Page.pin_count_ p then ret false
       else
         on_replacer (LRUKReplacer.Remove frame_id) ;;
         modify (fun s => set_page_table (delete page_id (page_table_ s)) s) ;;
         update_page frame_id (fun p =>
           Page.set_is_dirty false
             (Page.set_page_id Page.INVALID_PAGE_ID (Page.ResetMemory p))) ;;
         modify (fun s => set_free_list (free_list_ s ++ [frame_id]) s) ;;
         ret true) s
  end.

(** [page->RLatch()], [page->WLatch()], [page->RUnlatch()],
    [page->WUnlatch()] on [&pages_[frame_id]]. *)
Definition on_latch (frame_id : Z) (op : Page.latch -> outcome Page.latch) : M unit :=
  let* p := get_page frame_id in
  let* l := (fun s => obind (op (Page.rwlatch_ p)) (fun l => Ok (l, s))) in
  update_page frame_id (Page.set_rwlatch l).

End BufferPoolManager.

(** ** page_guard.cpp *)

Module BasicPageGuard.

Import BufferPoolManager.

(** There is one manager; a non-null [BufferPoolManager *] denotes it. *)
Inductive bpm_ref : Type := this_bpm.

(** Modelled from the spec: the guard of page_guard.h (not among the
    sources), "an owned pair (manager reference, frame reference) with a
    dirty flag". A [Page *] into [pages_] is the index of its frame,
    [None] is [nullptr]. *)
Record t : Type := mk {
  bpm_ : option bpm_ref;
  page_ : option Z;
  is_dirty_ : bool
}.

(** Modelled from the spec: the default-constructed guard, written [{}]
    in the sources, is the empty guard ("owns nothing"); its dirty flag
    is clear. *)
Definition empty : t := {| bpm_ := None; page_ := None; is_dirty_ := false |}.

(** Modelled from the spec: the constructor [BasicPageGuard(bpm, page)]
    of page_guard.h makes the live guard of that manager and frame. *)
Definition make (bpm : bpm_ref) (page : Z) : t :=
  {| bpm_ := Some bpm; page_ := Some page; is_dirty_ := false |}.

Definition is_empty (g : t) : bool :=
  match bpm_ g, page_ g with
  | Some _, Some _ => false
  | _, _ => true
  end.

Definition clear (g : t) : t :=
  {| bpm_ := None; page_ := None; is_dirty_ := is_dirty_ g |}.

(** [BasicPageGuard::BasicPageGuard(BasicPageGuard &&that)]: the new
    guard (first component) has no member initialised from [that]; the
    body clears the two pointers of [that] (second component). *)
Definition move_construct (that : t) : t * t := (empty, clear that).

(** [BasicPageGuard::Drop] *)
Definition Drop (g : t) : M t :=
  match bpm_ g, page_ g with
  | Some _, Some frame_id =>
      let* p := get_page frame_id in
      UnpinPage (Page.page_id_ p) (is_dirty_ g) ;;
      ret (clear g)
  | _, _ => ret g
  end.

(** [BasicPageGuard::operator=(BasicPageGuard &&that)] for two distinct
    objects; the results are [*this] and [that] afterwards. *)
Definition move_assign (this that : t) : M (t * t) :=
  Drop this ;;
  ret ({| bpm_ := bpm_ that; page_ := page_ that; is_dirty_ := is_dirty_ that |},
       clear that).

End BasicPageGuard.

Module ReadPageGuard.

Import BufferPoolManager.

Record t : Type := mk { guard_ : BasicPageGuard.t }.

(** [ReadPageGuard{}] *)
Definition empty : t := {| guard_ := BasicPageGuard.empty |}.

(** [ReadPageGuard::ReadPageGuard(BufferPoolManager *bpm, Page *page) {}]:
    no member initialiser and an empty body, so [guard_] is
    default-constructed. *)
Definition make (bpm : BasicPageGuard.bpm_ref) (page : Z) : t :=
  {| guard_ := BasicPageGuard.empty |}.

(** The defaulted move constructor moves [guard_]. *)
Definition move_construct (that : t) : t * t :=
  let '(g, that') := BasicPageGuard.move_construct (guard_ that) in
  ({| guard_ := g |}, {| guard_ := that' |}).

(** [ReadPageGuard::Drop] *)
Definition Drop (g : t) : M t :=
  match BasicPageGuard.bpm_ (guard_ g), BasicPageGuard.page_ (guard_ g) with
  | Some _, Some frame_id =>
      on_latch frame_id Page.latch_RUnlock ;;
      let* b := BasicPageGuard.Drop (guard_ g) in
      ret {| guard_ := b |}
  | _, _ => ret g
  end.

(** [ReadPageGuard::operator=(ReadPageGuard &&that)] for two distinct
    objects. *)
Definition move_assign (this that : t) : M (t * t) :=
  let* this' := Drop this in
  let* gs := BasicPageGuard.move_assign (guard_ this') (guard_ that) in
  ret ({| guard_ := fst gs |}, {| guard_ := snd gs |}).

End ReadPageGuard.

Module WritePageGuard.

Import BufferPoolManager.

Record t : Type := mk { guard_ : BasicPageGuard.t }.

(** [WritePageGuard{}] *)
Definition empty : t := {| guard_ := BasicPageGuard.empty |}.

(** [WritePageGuard::WritePageGuard(BufferPoolManager *bpm, Page *page) {}] *)
Definition make (bpm : BasicPageGuard.bpm_ref) (page : Z) : t :=
  {| guard_ := BasicPageGuard.empty |}.

Definition move_construct (that : t) : t * t :=
  let '(g, that') := BasicPageGuard.move_construct (guard_ that) in
  ({| guard_ := g |}, {| guard_ := that' |}).

(** [WritePageGuard::Drop] *)
Definition Drop (g : t) : M t :=
  match BasicPageGuard.bpm_ (guard_ g), BasicPageGuard.page_ (guard_ g) with
  | Some _, Some frame_id =>
      on_latch frame_id Page.latch_WUnlock ;;
      let* b := BasicPageGuard.Drop (guard_ g) in
      ret {| guard_ := b |}
  | _, _ => ret g
  end.

(** [WritePageGuard::operator=(WritePageGuard &&that)] for two distinct
    objects. *)
Definition move_assign (this that : t) : M (t * t) :=
  let* this' := Drop this in
  let* gs := BasicPageGuard.move_assign (guard_ this') (guard_ that) in
  ret ({| guard_ := fst gs |}, {| guard_ := snd gs |}).

End WritePageGuard.

(** The upgrades of [BasicPageGuard] and the guarded methods of
    [BufferPoolManager], which need the three guard types. *)
Module Guarded.

Import BufferPoolManager.
Import BasicPageGuard.

(** [BasicPageGuard::UpgradeRead]: the read guard returned and the basic
    guard afterwards. *)
Definition UpgradeRead (g : BasicPageGuard.t) : M (ReadPageGuard.t * BasicPageGuard.t) :=
  match bpm_ g, page_ g with
  | Some b, Some frame_id =>
      on_latch frame_id Page.latch_RLock ;;
      ret (ReadPageGuard.make b frame_id, clear g)
  | _, _ => ret (ReadPageGuard.empty, g)
  end.

(** [BasicPageGuard::UpgradeWrite] *)
Definition UpgradeWrite (g : BasicPageGuard.t) : M (WritePageGuard.t * BasicPageGuard.t) :=
  match bpm_ g, page_ g with
  | Some b, Some frame_id =>
      on_latch frame_id Page.latch_WLock ;;
      ret (WritePageGuard.make b frame_id, clear g)
  | _, _ => ret (WritePageGuard.empty, g)
  end.

(** [BufferPoolManager::FetchPageBasic] *)
Definition FetchPageBasic (page_id : Z) : M BasicPageGuard.t :=
  let* page := FetchPage page_id in
  match page with
  | None => ret BasicPageGuard.empty
  | Some frame_id => ret (BasicPageGuard.make this_bpm frame_id)
  end.

(** [BufferPoolManager::FetchPageRead] *)
Definition FetchPageRead (page_id : Z) : M ReadPageGuard.t :=
  let* page := FetchPage page_id in
  match page with
  | None => ret ReadPageGuard.empty
  | Some frame_id =>
      on_latch frame_id Page.latch_RLock ;;
      ret (ReadPageGuard.make this_bpm frame_id)
  end.

(** [BufferPoolManager::FetchPageWrite] *)
Definition FetchPageWrite (page_id : Z) : M WritePageGuard.t :=
  let* page := FetchPage page_id in
  match page with
  | None => ret WritePageGuard.empty
  | Some frame_id =>
      on_latch frame_id Page.latch_WLock ;;
      ret (WritePageGuard.make this_bpm frame_id)
  end.

(** [BufferPoolManager::NewPageGuarded]: the page id written through
    [page_id], if any, and the guard. *)
Definition NewPageGuarded : M (option Z * BasicPageGuard.t) :=
  let* page := NewPage in
  match page with
  | None => ret (None, BasicPageGuard.empty)
  | Some (page_id, frame_id) =>
      ret (Some page_id, BasicPageGuard.make this_bpm frame_id)
  end.

End Guarded.

(** ** Specification-level notions *)

Module Spec.

Import LRUKNode.

(** Backward k-distance as the specification words it: finite, or +∞
    for a node with fewer than K recorded accesses. *)
Inductive distance : Type :=
| Finite (d : Z)
| Infinite.

Definition distance_le (a b : distance) : Prop :=
  match a, b with
  | _, Infinite => True
  | Finite x, Finite y => x <= y
  | Infinite, Finite _ => False
  end.

(** [history.front()] of a node with a recorded access. *)
Definition front (n : LRUKNode.t) : Z := hd 0 (history_ n).

(** "k_distance = current_timestamp − history.front() if
    history.size() ≥ K, else k_distance = +∞". *)
Definition k_distance (r : LRUKReplacer.t) (n : LRUKNode.t) : distance :=
  if bool_decide (LRUKReplacer.k_ r <= Z.of_nat (length (history_ n)))
  then Finite (LRUKReplacer.current_timestamp_ r - front n)
  else Infinite.

Definition evictable_in (r : LRUKReplacer.t) (f : Z) (n : LRUKNode.t) : Prop :=
  LRUKReplacer.node_store_ r !! f = Some n /\ is_evictable_ n = true.

(** The selection rule: [v] is evictable, no evictable node has a larger
    k-distance, and none with the same k-distance has an earlier first
    timestamp. *)
Definition lruk_victim (r : LRUKReplacer.t) (v : Z) : Prop :=
  exists nv, evictable_in r v nv /\
    forall f n, evictable_in r f n ->
      distance_le (k_distance r n) (k_distance r nv) /\
      (k_distance r n = k_distance r nv -> front nv <= front n).

Definition no_evictable (r : LRUKReplacer.t) : Prop :=
  forall f n, LRUKReplacer.node_store_ r !! f = Some n -> is_evictable_ n = false.

(** The test [evictable_count] filters the entries of [node_store_]
    with. *)
Definition evictable_entry (kv : Z * LRUKNode.t) : Prop :=
  is_evictable_ kv.2 = true.

(** The number of nodes with [is_evictable_] set. *)
Definition evictable_count (r : LRUKReplacer.t) : Z :=
  Z.of_nat (size (filter (fun kv => is_evictable_ kv.2 = true)
                    (LRUKReplacer.node_store_ r))).

(** The state of a replacer whose clock has not reached the top of
    [size_t]: every node has a history, no timestamp is ahead of the
    clock, and [curr_size_] counts the evictable nodes. *)
Record replacer_ok (r : LRUKReplacer.t) : Prop := {
  rok_clock : 0 <= LRUKReplacer.current_timestamp_ r < SIZE_MAX;
  rok_hist : forall f n, LRUKReplacer.node_store_ r !! f = Some n ->
      history_ n <> [] /\
      Forall (fun ts => 0 <= ts <= LRUKReplacer.current_timestamp_ r) (history_ n);
  rok_size : LRUKReplacer.curr_size_ r = evictable_count r;
  rok_size_range : in_size_t (LRUKReplacer.curr_size_ r)
}.

(** [replacer_ok], as a test that can be run on a given replacer. *)
Definition node_ok_b (now : Z) (n : LRUKNode.t) : bool :=
  match history_ n with
  | [] => false
  | _ => forallb (fun ts => (0 <=? ts) && (ts <=? now)) (history_ n)
  end.

Definition replacer_ok_b (r : LRUKReplacer.t) : bool :=
  (0 <=? LRUKReplacer.current_timestamp_ r)
  && (LRUKReplacer.current_timestamp_ r <? SIZE_MAX)
  && forallb (fun kv => node_ok_b (LRUKReplacer.current_timestamp_ r) kv.2)
       (map_to_list (LRUKReplacer.node_store_ r))
  && (LRUKReplacer.curr_size_ r =? evictable_count r)
  && (0 <=? LRUKReplacer.curr_size_ r)
  && (LRUKReplacer.curr_size_ r <=? SIZE_MAX).

(** No two evictable nodes have the same first timestamp (timestamps
    are handed out once each). *)
Definition distinct_fronts (r : LRUKReplacer.t) : Prop :=
  forall f g n m, evictable_in r f n -> evictable_in r g m ->
    front n = front m -> f = g.





(** The state [Evict] leaves when it returns [v]. *)
Definition evicted (v : Z) (r : LRUKReplacer.t) : LRUKReplacer.t :=
  {| LRUKReplacer.node_store_ := delete v (LRUKReplacer.node_store_ r);
     LRUKReplacer.current_timestamp_ := LRUKReplacer.current_timestamp_ r;
     LRUKReplacer.curr_size_ := LRUKReplacer.curr_size_ r - 1;
     LRUKReplacer.replacer_size_ := LRUKReplacer.replacer_size_ r;
     LRUKReplacer.k_ := LRUKReplacer.k_ r |}.

End Spec.

(** ** The invariant of the manager and its reachable states *)

Module Inv.

Import BufferPoolManager.

(** [pages_[f]] when [f] is an index of the array. *)
Definition page_at (s : t) (f : Z) : option Page.t :=
  if f <? 0 then None else pages_ s !! Z.to_nat f.

Definition node_at (s : t) (f : Z) : option LRUKNode.t :=
  LRUKReplacer.node_store_ (replacer_ s) !! f.

Record bpm_inv (s : t) : Prop := {
  inv_pool : 0 < pool_size_ s < 2 ^ 31;
  inv_pages : Z.of_nat (length (pages_ s)) = pool_size_ s;
  inv_rsize : LRUKReplacer.replacer_size_ (replacer_ s) = pool_size_ s;
  inv_k : 0 < LRUKReplacer.k_ (replacer_ s);
  inv_clock : in_size_t (LRUKReplacer.current_timestamp_ (replacer_ s));
  inv_free_nodup : NoDup (free_list_ s);
  inv_free : forall f, f ∈ free_list_ s ->
      0 <= f < pool_size_ s /\ node_at s f = None /\
      forall p, page_table_ s !! p <> Some f;
  inv_table : forall p f, page_table_ s !! p = Some f ->
      exists pg, page_at s f = Some pg /\ Page.page_id_ pg = p;
  inv_node : forall f n, node_at s f = Some n ->
      LRUKNode.history_ n <> [] /\
      Forall in_size_t (LRUKNode.history_ n) /\
      exists pg, page_at s f = Some pg /\
        (LRUKNode.is_evictable_ n = true <-> Page.pin_count_ pg = 0);
  inv_pin : forall f pg, page_at s f = Some pg ->
      0 <= Page.pin_count_ pg /\
      (0 < Page.pin_count_ pg -> exists n, node_at s f = Some n)
}.

(** The operations a client can apply to the manager; latch operations
    stand for what guards and clients do to a frame's latch directly. *)
Inductive op : Type :=
| OpNewPage
| OpFetchPage (page_id : Z)
| OpUnpinPage (page_id : Z) (is_dirty : bool)
| OpFlushPage (page_id : Z)
| OpFlushAllPages
| OpDeletePage (page_id : Z)
| OpFetchPageBasic (page_id : Z)
| OpFetchPageRead (page_id : Z)
| OpFetchPageWrite (page_id : Z)
| OpNewPageGuarded
| OpRLatch (frame_id : Z)
| OpWLatch (frame_id : Z)
| OpRUnlatch (frame_id : Z)
| OpWUnlatch (frame_id : Z).

Definition forget {A : Type} (c : M A) : M unit := bind c (fun _ => ret tt).

Definition exec (o : op) : M unit :=
  match o with
  | OpNewPage => forget NewPage
  | OpFetchPage p => forget (FetchPage p)
  | OpUnpinPage p d => forget (UnpinPage p d)
  | OpFlushPage p => forget (FlushPage p)
  | OpFlushAllPages => FlushAllPages
  | OpDeletePage p => forget (DeletePage p)
  | OpFetchPageBasic p => forget (Guarded.FetchPageBasic p)
  | OpFetchPageRead p => forget (Guarded.FetchPageRead p)
  | OpFetchPageWrite p => forget (Guarded.FetchPageWrite p)
  | OpNewPageGuarded => forget Guarded.NewPageGuarded
  | OpRLatch f => on_latch f Page.latch_RLock
  | OpWLatch f => on_latch f Page.latch_WLock
  | OpRUnlatch f => on_latch f Page.latch_RUnlock
  | OpWUnlatch f => on_latch f Page.latch_WUnlock
  end.

(** The states of a pool of [pool_size] frames with an LRU-[k] replacer
    after any sequence of operations that returned. *)
Inductive reachable (pool_size k : Z) : t -> Prop :=
| reach_create disk : reachable pool_size k (create pool_size k disk)
| reach_step s o s' :
    reachable pool_size k s -> exec o s = Ok (tt, s') ->
    reachable pool_size k s'.

(** "Every frame with pin_count > 0 is marked non-evictable in the
    replacer". *)
Definition pinned_non_evictable (s : t) : Prop :=
  forall f pg, page_at s f = Some pg -> 0 < Page.pin_count_ pg ->
    exists n, node_at s f = Some n /\ LRUKNode.is_evictable_ n = false.

(** "Evict never returns such a frame". *)
Definition evict_spares_pinned (s : t) : Prop :=
  forall v r', LRUKReplacer.Evict (replacer_ s) = Ok (Some v, r') ->
    exists pg, page_at s v = Some pg /\ Page.pin_count_ pg = 0.


(** A sequence of operations, each of which returns. *)
Fixpoint run_ops (ops : list op) (s : t) : outcome t :=
  match ops with
  | [] => Ok s
  | o :: rest => obind (exec o s) (fun '(_, s') => run_ops rest s')
  end.

End Inv.

(** ** Sample pools *)

Module Demo.

Import BufferPoolManager.

(** A pool of three frames with an LRU-2 replacer over an empty disk. *)
Definition fresh : t := create 3 2 Disk.empty.

(** The pool after [ops], all of which return. *)
Definition after (ops : list Inv.op) : t :=
  match Inv.run_ops ops fresh with
  | Ok s => s
  | _ => fresh
  end.

(** Two pages created; page 0 (frame 0) unpinned dirty, page 1 (frame 1)
    still pinned. *)
Definition two_pages : t :=
  after [Inv.OpNewPage; Inv.OpNewPage; Inv.OpUnpinPage 0 true].

(** The pool after [FetchPageRead(0)] on the fresh pool. *)
Definition read_fetched : t :=
  match Guarded.FetchPageRead 0 fresh with
  | Ok (_, s) => s
  | _ => fresh
  end.

(** Three pages created and unpinned: the free list is empty. *)
Definition full : t :=
  after [Inv.OpNewPage; Inv.OpNewPage; Inv.OpNewPage;
         Inv.OpUnpinPage 0 true; Inv.OpUnpinPage 1 false;
         Inv.OpUnpinPage 2 false].

End Demo.

(** ** The loop invariant of [Evict] *)

Module Scan.

Import LRUKNode LRUKReplacer.

(** The test of the loop body: candidate [(kd1, t1)] replaces the
    incumbent [(kd2, t2)]. *)
Definition beats (kd1 t1 kd2 t2 : Z) : Prop :=
  kd2 < kd1 \/ (kd1 = kd2 /\ t1 < t2).

(** The k-distance the loop computes for a node. *)
Definition code_kd (r : t) (n : LRUKNode.t) : Z :=
  k_distance r n (Spec.front n).

Definition scan_inv (r : t) (seen : list (Z * LRUKNode.t)) (acc : scan) : Prop :=
  (forall f n, (f, n) ∈ seen -> is_evictable_ n = true ->
     ~ beats (code_kd r n) (Spec.front n) (max_k_distance acc) (oldest_timestamp acc)) /\
  match victim acc with
  | None => max_k_distance acc = 0 /\ oldest_timestamp acc = SIZE_MAX
  | Some v => exists nv, (v, nv) ∈ seen /\ is_evictable_ nv = true /\
                max_k_distance acc = code_kd r nv /\
                oldest_timestamp acc = Spec.front nv
  end.

(** Evictable nodes of [entries] have a first timestamp to read. *)
Definition fronts_defined (entries : list (Z * LRUKNode.t)) : Prop :=
  forall f n, (f, n) ∈ entries -> is_evictable_ n = true -> history_ n <> [].

End Scan.

(** ** The states the methods leave *)

Module Post.

Import BufferPoolManager.

(** The manager once [WriteFrame(f, p)] has run on a frame holding
    [pg]. *)
Definition written (p : Z) (pg : Page.t) (s : t) : t :=
  set_disk (Disk.Schedule
    {| Disk.is_write_ := true; Disk.data_ := Page.data_ pg;
       Disk.page_id_ := p |} (disk_ s)) s.

(** The manager once [FlushPage(p)] has run, [p] being resident in
    frame [f], which holds [pg]. *)
Definition flushed (p f : Z) (pg : Page.t) (s : t) : t :=
  store_page f (Page.set_is_dirty false pg) (written p pg s).

(** The frame [UnpinPage(p, is_dirty)] leaves when it returns [true]. *)
Definition unpinned_page (is_dirty : bool) (pg : Page.t) : Page.t :=
  Page.set_pin_count (Page.pin_count_ pg - 1)
    (Page.set_is_dirty (is_dirty || Page.is_dirty_ pg) pg).

(** The frame [DeletePage] leaves. *)
Definition deleted_page (pg : Page.t) : Page.t :=
  Page.set_is_dirty false
    (Page.set_page_id Page.INVALID_PAGE_ID (Page.ResetMemory pg)).

(** The manager once [DeletePage(p)] has deleted [p] from frame [f],
    which held [pg], [r'] being the replacer [Remove] left. *)
Definition deleted (p f : Z) (pg : Page.t) (r' : LRUKReplacer.t) (s : t) : t :=
  set_free_list (free_list_ s ++ [f])
    (store_page f (deleted_page pg)
       (set_page_table (delete p (page_table_ s)) (set_replacer r' s))).

(** The manager once the replacer has given [v] as victim, [pg] being
    what frame [v] held and [r'] the replacer [Evict] left: the entry of
    [pg]'s page id is erased, and [pg] is written back when dirty. *)
Definition victim_taken (v : Z) (pg : Page.t) (r' : LRUKReplacer.t) (s : t) : t :=
  let s1 := set_page_table (delete (Page.page_id_ pg) (page_table_ s))
              (set_replacer r' s) in
  if Page.is_dirty_ pg then written (Page.page_id_ pg) pg s1 else s1.

(** The frame [NewPage] returns. *)
Definition new_page (page_id : Z) (pg : Page.t) : Page.t :=
  Page.set_is_dirty false (Page.set_pin_count 1
    (Page.set_page_id page_id (Page.ResetMemory pg))).

(** The manager once [NewPage] has installed a new page in frame [f],
    obtained in state [s1] where it held [pg]; [r2] is the replacer
    after [SetEvictable(f, false)] and [RecordAccess(f)]. *)
Definition page_installed (f : Z) (pg : Page.t) (r2 : LRUKReplacer.t) (s1 : t) : t :=
  set_replacer r2
    (set_page_table (<[next_page_id_ s1 := f]> (page_table_ s1))
       (store_page f (new_page (next_page_id_ s1) pg)
          (set_next_page_id (page_id_wrap (next_page_id_ s1 + 1)) s1))).

(** Frame [f] is neither on the free list, nor tracked by the replacer,
    nor the target of a page-table entry: it can take a new page. *)
Definition available (s : t) (f : Z) : Prop :=
  0 <= f < pool_size_ s /\ (f ∉ free_list_ s) /\
  LRUKReplacer.node_store_ (replacer_ s) !! f = None /\
  forall p, page_table_ s !! p <> Some f.

(** The manager once [FetchPage] has found its page in frame [f], which
    held [pg]; [r1] is the replacer after the conditional
    [SetEvictable(f, false)], [r2] after [RecordAccess(f)]. *)
Definition fetched_hit (f : Z) (pg : Page.t) (r1 r2 : LRUKReplacer.t) (s : t) : t :=
  set_replacer r2
    (store_page f (Page.set_pin_count (Page.pin_count_ pg + 1) pg)
       (set_replacer r1 s)).

(** The manager once [FetchPage(p)] has read [p] from disk into frame
    [f], obtained in state [s1] where it held [pg]; [r2] is the replacer
    after [RecordAccess(f)] and [SetEvictable(f, false)]. *)
Definition fetched_miss (p f : Z) (pg : Page.t) (r2 : LRUKReplacer.t) (s1 : t) : t :=
  let pg2 := Page.ResetMemory pg in
  let s2 := store_page f pg2 s1 in
  let s3 := set_disk (Disk.Schedule
              {| Disk.is_write_ := false; Disk.data_ := Page.data_ pg2;
                 Disk.page_id_ := p |} (disk_ s2)) s2 in
  let pg4 := Page.set_data (Disk.read_block (disk_ s2) p) pg2 in
  let s4 := store_page f pg4 s3 in
  let s5 := set_page_table (<[p := f]> (page_table_ s4)) s4 in
  let s6 := store_page f
              (Page.set_is_dirty false (Page.set_pin_count 1
                 (Page.set_page_id p pg4))) s5 in
  set_replacer r2 s6.

(** The replacer [UnpinPage] leaves for a resident page held by frame
    [f] with [pin_count_ > 0], [n] being the node of [f], which is not
    evictable: [SetEvictable(f, true)] has run when the pin count
    reached zero. *)
Definition unpinned_replacer (f : Z) (pg : Page.t) (n : LRUKNode.t)
    (r : LRUKReplacer.t) : LRUKReplacer.t :=
  if Page.pin_count_ pg - 1 =? 0
  then {| LRUKReplacer.node_store_ :=
            <[f := LRUKNode.set_is_evictable true n]> (LRUKReplacer.node_store_ r);
          LRUKReplacer.current_timestamp_ := LRUKReplacer.current_timestamp_ r;
          LRUKReplacer.curr_size_ := size_t_wrap (LRUKReplacer.curr_size_ r + 1);
          LRUKReplacer.replacer_size_ := LRUKReplacer.replacer_size_ r;
          LRUKReplacer.k_ := LRUKReplacer.k_ r |}
  else r.

(** The manager once [UnpinPage(p, is_dirty)] has returned [true]. *)
Definition unpinned (is_dirty : bool) (f : Z) (pg : Page.t) (n : LRUKNode.t) (s : t) : t :=
  set_replacer (unpinned_replacer f pg n (replacer_ s))
    (store_page f (unpinned_page is_dirty pg) s).

End Post.

(** ** Sequences of calls on the replacer *)

Module ReplacerRun.

Import LRUKNode LRUKReplacer.

(** The 64-bit signed range, which contains every [frame_id_t]. *)
Definition frame_id_range (f : Z) : Prop := - 2 ^ 63 <= f < 2 ^ 63.

(** The replacers a client can bring about: from the constructor, by
    calls of the four methods that returned; [Evict] may enumerate the
    nodes in any order. *)
Inductive reachable (num_frames k : Z) : t -> Prop :=
| reach_new : reachable num_frames k (create num_frames k)
| reach_RecordAccess r f r' :
    reachable num_frames k r -> frame_id_range f ->
    RecordAccess f r = Ok r' -> reachable num_frames k r'
| reach_SetEvictable r f b r' :
    reachable num_frames k r -> frame_id_range f ->
    SetEvictable f b r = Ok r' -> reachable num_frames k r'
| reach_Remove r f r' :
    reachable num_frames k r -> frame_id_range f ->
    Remove f r = Ok r' -> reachable num_frames k r'
| reach_Evict r entries v r' :
    reachable num_frames k r ->
    entries ≡ₚ map_to_list (node_store_ r) ->
    Evict_in_order entries r = Ok (v, r') -> reachable num_frames k r'.

(** What holds of every reachable replacer, whatever the clock. *)
Record inv (r : t) : Prop := {
  inv_rsize : 0 <= replacer_size_ r < 2 ^ 63;
  inv_k : 0 < k_ r;
  inv_keys : forall f n, node_store_ r !! f = Some n -> 0 <= f <= replacer_size_ r;
  inv_hist : forall f n, node_store_ r !! f = Some n ->
      history_ n <> [] /\ Z.of_nat (length (history_ n)) <= k_ r;
  inv_size : curr_size_ r = Spec.evictable_count r
}.

(** Successive entries of a history are strictly increasing. *)
Fixpoint increasing (l : list Z) : Prop :=
  match l with
  | [] => True
  | a :: rest =>
      match rest with
      | [] => True
      | b :: _ => a < b /\ increasing rest
      end
  end.

(** The timestamps of a replacer whose clock has not wrapped: every
    history is strictly increasing and none of its entries is ahead of
    the clock. *)
Definition timestamps_ok (r : t) : Prop :=
  0 <= current_timestamp_ r <= SIZE_MAX /\
  forall f n, node_store_ r !! f = Some n ->
    increasing (history_ n) /\
    Forall (fun ts => 0 < ts <= current_timestamp_ r) (history_ n).

(** Frames 1 and 2 accessed once, frame 1 marked evictable. *)
Definition sample : t :=
  match obind (RecordAccess 1 (create 7 2)) (fun r1 =>
        obind (RecordAccess 2 r1) (SetEvictable 1 true)) with
  | Ok r => r
  | _ => create 7 2
  end.

(** A replacer with [K = 1]: frames 1, 2, 3 accessed, then frame 1
    again; all three evictable. *)
Definition sample_lru : t :=
  match ScenarioS1.run
          [RecordAccess 1; RecordAccess 2; RecordAccess 3; RecordAccess 1;
           SetEvictable 1 true; SetEvictable 2 true; SetEvictable 3 true]
          (create 7 1) with
  | Ok r => r
  | _ => create 7 1
  end.

(** A replacer with [K = 2]: frame 1 accessed twice, frames 2 and 3
    once; all three evictable. *)
Definition sample_under_k : t :=
  match ScenarioS1.run
          [RecordAccess 1; RecordAccess 2; RecordAccess 1; RecordAccess 3;
           SetEvictable 1 true; SetEvictable 2 true; SetEvictable 3 true]
          (create 7 2) with
  | Ok r => r
  | _ => create 7 2
  end.

End ReplacerRun.

(** ** What no method changes *)

Module Shape.

Import BufferPoolManager.

(** The size of the pool, the number of frames of [pages_] and the two
    parameters of the replacer. *)
Definition shape (s : t) : Z * nat * Z * Z :=
  (pool_size_ s, length (pages_ s),
   LRUKReplacer.replacer_size_ (replacer_ s), LRUKReplacer.k_ (replacer_ s)).

(** [c] leaves the shape of the pool as it is whenever it returns. *)
Definition keeps {A : Type} (c : M A) : Prop :=
  forall s a s', c s = Ok (a, s') -> shape s' = shape s.

(** The same for a method of the replacer. *)
Definition keeps_params (op : LRUKReplacer.t -> outcome LRUKReplacer.t) : Prop :=
  forall r r', op r = Ok r' ->
    LRUKReplacer.replacer_size_ r' = LRUKReplacer.replacer_size_ r /\
    LRUKReplacer.k_ r' = LRUKReplacer.k_ r.

End Shape.

(** ** More sample pools *)

Module Demo2.

Import BufferPoolManager.

(** Three pages created and none unpinned: every frame of the pool is
    pinned. *)
Definition all_pinned : t :=
  Demo.after [Inv.OpNewPage; Inv.OpNewPage; Inv.OpNewPage].

(** [Demo.two_pages] once [FlushPage(0)] has run. *)
Definition flushed_once : t :=
  Demo.after [Inv.OpNewPage; Inv.OpNewPage; Inv.OpUnpinPage 0 true;
              Inv.OpFlushPage 0].

(** The fresh pool after [FetchPage(0)]: page 0, which [NewPage] has not
    handed out yet, is resident in frame 0. *)
Definition fetched_unallocated : t := Demo.after [Inv.OpFetchPage 0].

(** The fresh pool after [FetchPageRead(0)]: frame 0 is pinned and its
    latch is held by one reader. *)
Definition read_latched : t := Demo.after [Inv.OpFetchPageRead 0].



End Demo2.

(** ** [BufferPoolManager::AllocateFrame] *)

Module FrameAllocation.

Import BufferPoolManager.

(** [BufferPoolManager::AllocateFrame]: the front of the free list, else
    the victim of the replacer, written back when dirty before its
    page-table entry is erased; [INVALID_PAGE_ID] when there is
    neither. No method of the file calls it. *)
Definition AllocateFrame : M Z := fun s =>
  match free_list_ s with
  | frame_id :: rest => Ok (frame_id, set_free_list rest s)
  | [] =>
      obind (LRUKReplacer.Evict (replacer_ s)) (fun '(v, r) =>
        match v with
        | None => Ok (Page.INVALID_PAGE_ID, set_replacer r s)
        | Some frame_id =>
            (let* p := get_page frame_id in
             (if Page.is_dirty_ p
              then WriteFrame frame_id (Page.page_id_ p)
              else ret tt) ;;
             let* p' := get_page frame_id in
             modify (fun s' => set_page_table
                       (delete (Page.page_id_ p') (page_table_ s')) s') ;;
             ret frame_id) (set_replacer r s)
        end)
  end.

(** The frame id that stands for "no frame" in the result of
    [AllocateFrame]. *)
Definition frame_or_invalid (res : option Z) : Z :=
  default Page.INVALID_PAGE_ID res.

End FrameAllocation.

(** ** What reaches the disk, and timestamps handed out once *)

Module Writes.

Import BufferPoolManager.

(** Every block of the disk of [s'] is the block the disk of [s] had, or
    the bytes of a frame of [s] that held the page of that block. *)
Definition from_frames (s s' : t) : Prop :=
  forall q,
    Disk.blocks (disk_ s') !! q = Disk.blocks (disk_ s) !! q \/
    exists f pg, Inv.page_at s f = Some pg /\ Page.page_id_ pg = q /\
      Disk.blocks (disk_ s') !! q = Some (Page.data_ pg).

End Writes.

Module Stamps.

Import LRUKNode LRUKReplacer.

(** No timestamp is in the histories of two frames. *)
Definition stamps_unique (r : t) : Prop :=
  forall f g n m ts,
    node_store_ r !! f = Some n -> node_store_ r !! g = Some m ->
    ts ∈ history_ n -> ts ∈ history_ m -> f = g.

(** A replacer whose clock has not wrapped and is below [SIZE_MAX]. *)
Definition stamped (r : t) : Prop :=
  ReplacerRun.inv r /\ ReplacerRun.timestamps_ok r /\ stamps_unique r /\
  current_timestamp_ r < SIZE_MAX.

End Stamps.

(** ** Calls of the replacer, with the time of each frame's latest access *)

Module Traced.

Import LRUKNode LRUKReplacer.

(** A replacer reached from [LRUKReplacer(num_frames, k)] by calls that
    returned, together with two values the code does not keep: [now],
    the number of calls of [RecordAccess] so far, and [last], which
    gives for a frame the value [now] took at the latest
    [RecordAccess] of that frame. Runs stop short of wrapping the
    clock. *)
Inductive traced (num_frames k : Z) : t -> Z -> gmap Z Z -> Prop :=
| traced_new : traced num_frames k (create num_frames k) 0 ∅
| traced_RecordAccess r now last f r' :
    traced num_frames k r now last -> ReplacerRun.frame_id_range f ->
    now + 1 < SIZE_MAX ->
    RecordAccess f r = Ok r' ->
    traced num_frames k r' (now + 1) (<[f := now + 1]> last)
| traced_SetEvictable r now last f b r' :
    traced num_frames k r now last ->
    SetEvictable f b r = Ok r' -> traced num_frames k r' now last
| traced_Remove r now last f r' :
    traced num_frames k r now last ->
    Remove f r = Ok r' -> traced num_frames k r' now last
| traced_Evict r now last entries v r' :
    traced num_frames k r now last ->
    entries ≡ₚ map_to_list (node_store_ r) ->
    Evict_in_order entries r = Ok (v, r') -> traced num_frames k r' now last.

(** A call of [RecordAccess] or [SetEvictable]. *)
Inductive call : Type :=
| Access (f : Z)
| Mark (f : Z) (b : bool).

Definition call_ok (c : call) : Prop :=
  match c with
  | Access f | Mark f _ => ReplacerRun.frame_id_range f
  end.

(** The calls [cs] run in turn, keeping [now] and [last]. *)
Fixpoint replay (cs : list call) (r : t) (now : Z) (last : gmap Z Z)
    : outcome (t * Z * gmap Z Z) :=
  match cs with
  | [] => Ok (r, now, last)
  | Access f :: rest =>
      obind (RecordAccess f r) (fun r' =>
        replay rest r' (now + 1) (<[f := now + 1]> last))
  | Mark f b :: rest =>
      obind (SetEvictable f b r) (fun r' => replay rest r' now last)
  end.

(** The calls that make [ReplacerRun.sample_lru], and what [last] is
    after them. *)
Definition sample_lru_calls : list call :=
  [Access 1; Access 2; Access 3; Access 1;
   Mark 1 true; Mark 2 true; Mark 3 true].

Definition sample_lru_last : gmap Z Z := <[1 := 4]> (<[3 := 3]> (<[2 := 2]> ∅)).

End Traced.

(** * Properties *)

(** ** Outcomes *)

Lemma obind_Ok {A B : Type} (c : outcome A) (f : A -> outcome B) (b : B) :
  obind c f = Ok b -> exists a, c = Ok a /\ f a = Ok b.
Proof. destruct c; simpl; intros H; try discriminate. eauto. Qed.

Lemma size_t_wrap_small (z : Z) : 0 <= z <= SIZE_MAX -> size_t_wrap z = z.
Proof. unfold size_t_wrap, SIZE_MAX. intros H. apply Z.mod_small. lia. Qed.

Lemma size_t_wrap_range (z : Z) : 0 <= size_t_wrap z <= SIZE_MAX.
Proof.
  unfold size_t_wrap, SIZE_MAX.
  pose proof (Z.mod_pos_bound z (2 ^ 64)). lia.
Qed.

(** ** The loop of [Evict] *)

Module ScanFacts.

Import LRUKNode LRUKReplacer Scan.

Lemma beats_test (kd t mx old : Z) :
  (mx <? kd) || ((kd =? mx) && (t <? old)) = true <-> beats kd t mx old.
Proof. unfold beats. rewrite orb_true_iff, andb_true_iff. lia. Qed.

Lemma scan_step_skip r acc f n :
  is_evictable_ n = false -> scan_step r acc (f, n) = Ok acc.
Proof. intros H. unfold scan_step. now rewrite H. Qed.

Lemma scan_step_evictable r acc f n :
  is_evictable_ n = true -> history_ n <> [] ->
  scan_step r acc (f, n) =
    Ok (if (max_k_distance acc <? code_kd r n)
           || ((code_kd r n =? max_k_distance acc)
               && (Spec.front n <? oldest_timestamp acc))
        then {| victim := Some f; oldest_timestamp := Spec.front n;
                max_k_distance := code_kd r n |}
        else acc).
Proof.
  intros He Hh. unfold scan_step, code_kd, Spec.front. rewrite He. simpl.
  destruct (history_ n) as [|t0 h] eqn:E; [congruence|]. simpl.
  now destruct (_ || _).
Qed.

Lemma scan_inv_init r : scan_inv r [] scan_init.
Proof.
  split; simpl; [|easy]. intros f n H. now apply elem_of_nil in H.
Qed.

Lemma scan_inv_step r seen acc f n :
  scan_inv r seen acc -> (is_evictable_ n = true -> history_ n <> []) ->
  exists acc', scan_step r acc (f, n) = Ok acc' /\ scan_inv r (seen ++ [(f, n)]) acc'.
Proof.
  intros [Hmax Hv] Hh.
  destruct (is_evictable_ n) eqn:He.
  - rewrite scan_step_evictable by auto.
    destruct (_ || _) eqn:Hb; eexists; split; try reflexivity.
    + apply beats_test in Hb. split; simpl.
      * intros g m Hin Hm. apply elem_of_app in Hin as [Hin|Hin].
        -- specialize (Hmax g m Hin Hm). unfold beats in *. lia.
        -- apply list_elem_of_singleton in Hin. inversion Hin; subst.
           unfold beats. lia.
      * exists n. rewrite elem_of_app, list_elem_of_singleton. auto.
    + assert (Hnb : ~ beats (code_kd r n) (Spec.front n)
                      (max_k_distance acc) (oldest_timestamp acc)).
      { intros Hbt. apply beats_test in Hbt. congruence. }
      split.
      * intros g m Hin Hm. apply elem_of_app in Hin as [Hin|Hin]; [now eauto|].
        apply list_elem_of_singleton in Hin. now inversion Hin; subst.
      * destruct (victim acc); [|exact Hv].
        destruct Hv as (nv & Hin & Hrest). exists nv.
        rewrite elem_of_app. auto.
  - rewrite scan_step_skip by auto. eexists; split; [reflexivity|].
    split.
    + intros g m Hin Hm. apply elem_of_app in Hin as [Hin|Hin]; [now eauto|].
      apply list_elem_of_singleton in Hin. inversion Hin; subst. congruence.
    + destruct (victim acc); [|exact Hv].
      destruct Hv as (nv & Hin & Hrest). exists nv.
      rewrite elem_of_app. auto.
Qed.

Lemma scan_loop_inv r rest : forall seen acc,
  scan_inv r seen acc -> fronts_defined rest ->
  exists acc', scan_loop r acc rest = Ok acc' /\ scan_inv r (seen ++ rest) acc'.
Proof.
  induction rest as [|[f n] rest IH]; intros seen acc Hinv Hdef; cbn [scan_loop].
  - exists acc. now rewrite app_nil_r.
  - destruct (scan_inv_step r seen acc f n Hinv) as (acc1 & Hstep & Hinv1).
    { intros He. apply (Hdef f n); [apply list_elem_of_here|exact He]. }
    rewrite Hstep. simpl.
    destruct (IH (seen ++ [(f, n)]) acc1 Hinv1) as (acc' & Hloop & Hinv').
    { intros g m Hin. apply (Hdef g m). now apply list_elem_of_further. }
    exists acc'. split; [exact Hloop|]. now rewrite <- app_assoc in Hinv'.
Qed.

(** The loop over any enumeration of the nodes returns, and what it
    leaves in its locals satisfies the invariant. *)
Lemma scan_loop_result r entries :
  fronts_defined entries ->
  exists acc, scan_loop r scan_init entries = Ok acc /\ scan_inv r entries acc.
Proof.
  intros Hdef.
  destruct (scan_loop_inv r entries [] scan_init (scan_inv_init r) Hdef)
    as (acc & H1 & H2).
  eauto.
Qed.

End ScanFacts.

(** ** The replacer *)

Module ReplacerFacts.

Import LRUKNode LRUKReplacer Scan ScanFacts.

Lemma frame_check_in_range r f :
  0 <= f <= replacer_size_ r -> replacer_size_ r <= SIZE_MAX ->
  frame_check r f = false.
Proof.
  intros Hf Hr. unfold frame_check.
  rewrite size_t_wrap_small by lia. lia.
Qed.

(** The test that guards the three methods, over the 64-bit signed
    range that contains every [frame_id_t]. *)
Lemma frame_check_true_iff r f :
  - 2 ^ 63 <= f < 2 ^ 63 -> 0 <= replacer_size_ r < 2 ^ 63 ->
  frame_check r f = true <-> (f < 0 \/ replacer_size_ r < f).
Proof.
  intros Hf Hr. unfold frame_check, size_t_wrap.
  rewrite Z.ltb_lt.
  destruct (Z_lt_ge_dec f 0) as [Hneg|Hpos].
  - replace (f mod 2 ^ 64) with (f + 2 ^ 64).
    + lia.
    + apply Z.mod_unique with (q := -1); lia.
  - rewrite Z.mod_small by lia. lia.
Qed.

Lemma entries_fronts_defined (m : gmap Z LRUKNode.t) entries :
  entries ≡ₚ map_to_list m ->
  (forall f n, m !! f = Some n -> is_evictable_ n = true -> history_ n <> []) ->
  fronts_defined entries.
Proof.
  intros Hp H f n Hin. apply (H f).
  apply elem_of_map_to_list. now rewrite <- Hp.
Qed.

(** What [Evict] returns is read off the locals the loop leaves. *)
Lemma Evict_in_order_result r entries :
  fronts_defined entries ->
  exists acc, scan_inv r entries acc /\
    Evict_in_order entries r =
      Ok (match victim acc with
          | Some v =>
              (Some v,
               {| node_store_ := delete v (node_store_ r);
                  current_timestamp_ := current_timestamp_ r;
                  curr_size_ := size_t_wrap (curr_size_ r - 1);
                  replacer_size_ := replacer_size_ r;
                  k_ := k_ r |})
          | None => (None, r)
          end).
Proof.
  intros Hdef. destruct (scan_loop_result r entries Hdef) as (acc & Hl & Hi).
  exists acc. split; [exact Hi|].
  unfold Evict_in_order. rewrite Hl. simpl. now destruct (victim acc).
Qed.

(** A frame [Evict] returns has an evictable node, which is erased. *)
Lemma Evict_in_order_Some r entries v r' :
  entries ≡ₚ map_to_list (node_store_ r) ->
  (forall f n, node_store_ r !! f = Some n -> is_evictable_ n = true ->
     history_ n <> []) ->
  Evict_in_order entries r = Ok (Some v, r') ->
  (exists n, node_store_ r !! v = Some n /\ is_evictable_ n = true) /\
  node_store_ r' = delete v (node_store_ r) /\
  current_timestamp_ r' = current_timestamp_ r /\
  replacer_size_ r' = replacer_size_ r /\ k_ r' = k_ r.
Proof.
  intros Hp Hh Hev.
  destruct (Evict_in_order_result r entries) as (acc & [_ Hi] & Heq).
  { eapply entries_fronts_defined; eauto. }
  rewrite Heq in Hev. destruct (victim acc) as [w|]; [|discriminate].
  inversion Hev; subst; clear Hev. simpl.
  destruct Hi as (nv & Hin & He & _).
  split; [|auto]. exists nv. split; [|exact He].
  apply elem_of_map_to_list. now rewrite <- Hp.
Qed.

Lemma Evict_in_order_None r entries r' :
  fronts_defined entries ->
  Evict_in_order entries r = Ok (None, r') -> r' = r.
Proof.
  intros Hdef Hev.
  destruct (Evict_in_order_result r entries Hdef) as (acc & _ & Heq).
  rewrite Heq in Hev. destruct (victim acc); now inversion Hev.
Qed.

(** With the clock below [SIZE_MAX] and timestamps in range, an
    evictable node always replaces the initial locals of the loop. *)
Lemma beats_initial r n :
  0 <= current_timestamp_ r < SIZE_MAX ->
  history_ n <> [] -> Forall in_size_t (history_ n) ->
  beats (code_kd r n) (Spec.front n) 0 SIZE_MAX.
Proof.
  intros Hc Hh Hr. unfold beats, code_kd, k_distance, Spec.front.
  destruct (history_ n) as [|t0 h]; [congruence|]. simpl.
  apply Forall_cons in Hr as [Ht0 _]. unfold in_size_t in Ht0.
  destruct (k_ r <=? _).
  - pose proof (size_t_wrap_range (current_timestamp_ r - t0)) as Hw.
    destruct (Z.eq_dec (size_t_wrap (current_timestamp_ r - t0)) 0) as [E|E]; [|lia].
    right. split; [exact E|].
    destruct (Z.eq_dec t0 SIZE_MAX) as [E'|E']; [|lia]. subst t0.
    unfold size_t_wrap, SIZE_MAX in *.
    replace (current_timestamp_ r - (2 ^ 64 - 1))
      with (current_timestamp_ r + 1 + (-1) * 2 ^ 64) in E by lia.
    rewrite Z.mod_add in E by lia. rewrite Z.mod_small in E by lia. lia.
  - left. unfold SIZE_MAX. lia.
Qed.

(** [Evict] finds no victim exactly when no node is evictable. *)
Lemma Evict_in_order_None_iff r entries :
  entries ≡ₚ map_to_list (node_store_ r) ->
  0 <= current_timestamp_ r < SIZE_MAX ->
  (forall f n, node_store_ r !! f = Some n ->
     history_ n <> [] /\ Forall in_size_t (history_ n)) ->
  (exists r', Evict_in_order entries r = Ok (None, r')) <-> Spec.no_evictable r.
Proof.
  intros Hp Hc Hh.
  assert (Hdef : fronts_defined entries).
  { eapply entries_fronts_defined; eauto. intros f n Hl _. now apply (Hh f). }
  destruct (Evict_in_order_result r entries Hdef) as (acc & [Hmax Hv] & Heq).
  rewrite Heq. split.
  - intros [r' Hr']. destruct (victim acc) as [w|]; [discriminate|].
    destruct Hv as [Hm Ho]. rewrite Hm, Ho in Hmax.
    intros f n Hl. destruct (is_evictable_ n) eqn:He; [|reflexivity].
    exfalso. apply (Hmax f n); auto.
    + rewrite Hp. now apply elem_of_map_to_list.
    + destruct (Hh f n Hl). now apply beats_initial.
  - intros Hno. destruct (victim acc) as [w|]; [|eauto].
    destruct Hv as (nv & Hin & He & _).
    rewrite Hp in Hin. apply elem_of_map_to_list in Hin.
    rewrite (Hno w nv Hin) in He. discriminate.
Qed.

Lemma set_is_evictable_same b n :
  is_evictable_ n = b -> set_is_evictable b n = n.
Proof. destruct n; simpl; intros; subst; reflexivity. Qed.

(** [SetEvictable] within range: the flag of the node, if there is one,
    is set; nothing else of the nodes changes. *)
Lemma SetEvictable_ok f b r :
  frame_check r f = false ->
  exists r', SetEvictable f b r = Ok r' /\
    node_store_ r' = alter (set_is_evictable b) f (node_store_ r) /\
    current_timestamp_ r' = current_timestamp_ r /\
    replacer_size_ r' = replacer_size_ r /\ k_ r' = k_ r.
Proof.
  intros Hc. unfold SetEvictable. rewrite Hc.
  destruct (node_store_ r !! f) as [n|] eqn:E.
  - case_bool_decide as Hb.
    + exists r. repeat split; try reflexivity.
      apply map_eq. intros g. rewrite lookup_alter.
      destruct (decide (f = g)) as [->|]; [|reflexivity].
      rewrite E. simpl. now rewrite set_is_evictable_same.
    + eexists. split; [reflexivity|]. simpl. repeat split.
      apply map_eq. intros g. rewrite lookup_alter, lookup_insert.
      destruct (decide (f = g)) as [->|]; [|reflexivity].
      now rewrite E.
  - exists r. repeat split; try reflexivity.
    apply map_eq. intros g. rewrite lookup_alter.
    destruct (decide (f = g)) as [->|]; [|reflexivity]. now rewrite E.
Qed.

Lemma RecordAccess_ok f r :
  frame_check r f = false ->
  exists r', RecordAccess f r = Ok r' /\
    node_store_ r' = <[f := accessed f r]> (node_store_ r) /\
    current_timestamp_ r' = size_t_wrap (current_timestamp_ r + 1) /\
    curr_size_ r' = curr_size_ r /\
    replacer_size_ r' = replacer_size_ r /\ k_ r' = k_ r.
Proof.
  intros Hc. unfold RecordAccess. rewrite Hc.
  eexists. split; [reflexivity|]. simpl. repeat split.
Qed.

Lemma accessed_history f r :
  0 < k_ r -> history_ (accessed f r) <> [].
Proof.
  intros Hk. unfold accessed. simpl.
  destruct (history_ (default init (node_store_ r !! f))) as [|a [|b l]]; simpl.
  - destruct (k_ r <? Z.of_nat 1) eqn:E; [apply Z.ltb_lt in E; lia|congruence].
  - destruct (k_ r <? _); congruence.
  - destruct (k_ r <? _); congruence.
Qed.

Lemma accessed_history_range f r :
  Forall in_size_t (history_ (default init (node_store_ r !! f))) ->
  Forall in_size_t (history_ (accessed f r)).
Proof.
  intros H. unfold accessed. simpl.
  assert (Hp : Forall in_size_t
            (history_ (default init (node_store_ r !! f))
             ++ [size_t_wrap (current_timestamp_ r + 1)])).
  { apply Forall_app. split; [exact H|].
    apply Forall_singleton. apply size_t_wrap_range. }
  destruct (k_ r <? _); [|exact Hp].
  now apply Forall_tail.
Qed.

Lemma accessed_evictable f r :
  is_evictable_ (accessed f r)
  = is_evictable_ (default init (node_store_ r !! f)).
Proof. reflexivity. Qed.

(** [Remove] within range, on a frame with no node or an evictable
    one. *)
Lemma Remove_ok f r :
  frame_check r f = false ->
  (forall n, node_store_ r !! f = Some n -> is_evictable_ n = true) ->
  exists r', Remove f r = Ok r' /\
    node_store_ r' = delete f (node_store_ r) /\
    current_timestamp_ r' = current_timestamp_ r /\
    replacer_size_ r' = replacer_size_ r /\ k_ r' = k_ r.
Proof.
  intros Hc He. unfold Remove. rewrite Hc.
  destruct (node_store_ r !! f) as [n|] eqn:E.
  - rewrite (He n eq_refl). simpl. eexists. split; [reflexivity|].
    simpl. repeat split.
  - exists r. repeat split. symmetry. now apply delete_id.
Qed.

End ReplacerFacts.

(** ** The manager: primitive steps *)

Module BpmFacts.

Import BufferPoolManager Inv.

Lemma bind_run {A B : Type} (c : M A) (k : A -> M B) s a s1 :
  c s = Ok (a, s1) -> bind c k s = k a s1.
Proof. intros H. unfold bind. now rewrite H. Qed.

Lemma bind_Ok {A B : Type} (c : M A) (k : A -> M B) s b s' :
  bind c k s = Ok (b, s') ->
  exists a s1, c s = Ok (a, s1) /\ k a s1 = Ok (b, s').
Proof.
  unfold bind. intros H. apply obind_Ok in H as ([a s1] & H1 & H2). eauto.
Qed.

Lemma page_at_Some s f pg :
  page_at s f = Some pg ->
  0 <= f /\ (Z.to_nat f < length (pages_ s))%nat /\ pages_ s !! Z.to_nat f = Some pg.
Proof.
  unfold page_at. destruct (f <? 0) eqn:E; [discriminate|].
  intros H. apply Z.ltb_ge in E. split; [exact E|].
  split; [|exact H]. eapply lookup_lt_Some; eauto.
Qed.

Lemma page_at_in_range s f :
  Z.of_nat (length (pages_ s)) = pool_size_ s ->
  0 <= f < pool_size_ s -> exists pg, page_at s f = Some pg.
Proof.
  intros Hl Hf. unfold page_at.
  destruct (f <? 0) eqn:E; [apply Z.ltb_lt in E; lia|].
  apply lookup_lt_is_Some. lia.
Qed.

Lemma page_at_range s f pg :
  Z.of_nat (length (pages_ s)) = pool_size_ s ->
  page_at s f = Some pg -> 0 <= f < pool_size_ s.
Proof. intros Hl H. apply page_at_Some in H. lia. Qed.

Lemma get_page_run s f pg :
  page_at s f = Some pg -> get_page f s = Ok (pg, s).
Proof.
  unfold page_at, get_page. destruct (f <? 0); [discriminate|].
  now intros ->.
Qed.

Lemma get_page_Ok s f pg s' :
  get_page f s = Ok (pg, s') -> s' = s /\ page_at s f = Some pg.
Proof.
  unfold page_at, get_page. destruct (f <? 0); [discriminate|].
  destruct (pages_ s !! Z.to_nat f); [|discriminate].
  intros H. now inversion H.
Qed.

Lemma update_page_run s f g pg :
  page_at s f = Some pg ->
  update_page f g s = Ok (tt, store_page f (g pg) s).
Proof.
  intros H. unfold update_page.
  now rewrite (bind_run _ _ _ _ _ (get_page_run s f pg H)).
Qed.

Lemma page_at_store_page s f x g :
  (exists pg, page_at s f = Some pg) ->
  page_at (store_page f x s) g = if decide (g = f) then Some x else page_at s g.
Proof.
  intros [pg H]. apply page_at_Some in H as (H0 & Hlt & _).
  unfold page_at, store_page. simpl.
  destruct (decide (g = f)) as [->|Hne].
  - destruct (f <? 0) eqn:E; [apply Z.ltb_lt in E; lia|].
    now apply list_lookup_insert_eq.
  - destruct (g <? 0) eqn:E; [reflexivity|]. apply Z.ltb_ge in E.
    apply list_lookup_insert_ne. lia.
Qed.

Lemma length_store_page s f x :
  length (pages_ (store_page f x s)) = length (pages_ s).
Proof. unfold store_page. simpl. apply length_insert. Qed.

Lemma on_replacer_run s op r' :
  op (replacer_ s) = Ok r' -> on_replacer op s = Ok (tt, set_replacer r' s).
Proof. intros H. unfold on_replacer. now rewrite H. Qed.

Lemma on_latch_run s f op pg l :
  page_at s f = Some pg -> op (Page.rwlatch_ pg) = Ok l ->
  on_latch f op s = Ok (tt, store_page f (Page.set_rwlatch l pg) s).
Proof.
  intros Hp Hl. unfold on_latch.
  rewrite (bind_run _ _ _ _ _ (get_page_run s f pg Hp)).
  unfold bind at 1. rewrite Hl. simpl.
  now rewrite (update_page_run _ _ _ _ Hp).
Qed.

Lemma on_latch_Ok s f op s' :
  on_latch f op s = Ok (tt, s') ->
  exists pg l, page_at s f = Some pg /\ s' = store_page f (Page.set_rwlatch l pg) s.
Proof.
  unfold on_latch. intros H.
  apply bind_Ok in H as (pg & s1 & H1 & H2).
  apply get_page_Ok in H1 as [-> Hp].
  apply bind_Ok in H2 as (l & s2 & H2 & H3).
  apply obind_Ok in H2 as (l' & _ & H2). inversion H2; subst.
  rewrite (update_page_run _ _ _ _ Hp) in H3. inversion H3. eauto.
Qed.

Lemma frame_check_inv s f :
  bpm_inv s -> 0 <= f < pool_size_ s ->
  LRUKReplacer.frame_check (replacer_ s) f = false.
Proof.
  intros Hi Hf. destruct Hi.
  apply ReplacerFacts.frame_check_in_range; unfold SIZE_MAX; lia.
Qed.

End BpmFacts.

(** ** The invariant under a change local to one frame *)

Module InvFacts.

Import BufferPoolManager Inv BpmFacts.

(** Every method changes the metadata of at most one frame [f], its
    node, the page-table entries that lead to it and its membership of
    the free list. Such a change keeps the invariant when frame [f] is
    left consistent. *)
Lemma inv_local_change (s s' : t) (f : Z) :
  bpm_inv s ->
  pool_size_ s' = pool_size_ s ->
  length (pages_ s') = length (pages_ s) ->
  LRUKReplacer.replacer_size_ (replacer_ s') = LRUKReplacer.replacer_size_ (replacer_ s) ->
  LRUKReplacer.k_ (replacer_ s') = LRUKReplacer.k_ (replacer_ s) ->
  in_size_t (LRUKReplacer.current_timestamp_ (replacer_ s')) ->
  (forall g, g <> f -> page_at s' g = page_at s g) ->
  (forall g, g <> f -> node_at s' g = node_at s g) ->
  (forall p g, page_table_ s' !! p = Some g ->
     (g = f /\ exists pg, page_at s' f = Some pg /\ Page.page_id_ pg = p) \/
     (g <> f /\ page_table_ s !! p = Some g)) ->
  NoDup (free_list_ s') ->
  (forall g, g ∈ free_list_ s' ->
     (g = f /\ 0 <= f < pool_size_ s /\ node_at s' f = None /\
      forall p, page_table_ s' !! p <> Some f) \/
     (g <> f /\ g ∈ free_list_ s)) ->
  (forall n, node_at s' f = Some n ->
     LRUKNode.history_ n <> [] /\ Forall in_size_t (LRUKNode.history_ n) /\
     exists pg, page_at s' f = Some pg /\
       (LRUKNode.is_evictable_ n = true <-> Page.pin_count_ pg = 0)) ->
  (forall pg, page_at s' f = Some pg ->
     0 <= Page.pin_count_ pg /\
     (0 < Page.pin_count_ pg -> exists n, node_at s' f = Some n)) ->
  bpm_inv s'.
Proof.
  intros Hi Hpool Hlen Hrs Hk Hclk Hpg Hnd Htbl Hnodup Hfl Hnf Hpf.
  destruct Hi as [ipool ipages irsize ik iclock inodup ifree itable inode ipin].
  constructor.
  - now rewrite Hpool.
  - now rewrite Hlen, Hpool.
  - now rewrite Hrs, Hpool.
  - now rewrite Hk.
  - exact Hclk.
  - exact Hnodup.
  - intros g Hg. rewrite Hpool.
    destruct (Hfl g Hg) as [(-> & H1 & H2 & H3)|(Hne & Hin)]; [auto|].
    destruct (ifree g Hin) as (H1 & H2 & H3).
    split; [exact H1|]. split; [now rewrite Hnd|].
    intros p Hp. destruct (Htbl p g Hp) as [[? _]|[_ Hp']]; [contradiction|].
    now apply (H3 p).
  - intros p g Hp.
    destruct (Htbl p g Hp) as [[-> H]|[Hne Hp']]; [exact H|].
    rewrite Hpg by exact Hne. now apply itable.
  - intros g n Hn. destruct (decide (g = f)) as [->|Hne]; [now apply Hnf|].
    rewrite Hnd in Hn by exact Hne. rewrite Hpg by exact Hne. now apply inode.
  - intros g pg Hp. destruct (decide (g = f)) as [->|Hne]; [now apply Hpf|].
    rewrite Hpg in Hp by exact Hne. rewrite Hnd by exact Hne. now apply ipin.
Qed.

Lemma bpm_inv_create pool_size k disk :
  0 < pool_size < 2 ^ 31 -> 0 < k ->
  bpm_inv (create pool_size k disk).
Proof.
  intros Hp Hk. constructor; simpl; try lia.
  - rewrite length_replicate. lia.
  - unfold in_size_t, SIZE_MAX. lia.
  - apply NoDup_seqZ.
  - intros f Hf. apply elem_of_seqZ in Hf. split; [lia|].
    split; [apply lookup_empty|]. intros p. now rewrite lookup_empty.
  - intros p f. now rewrite lookup_empty.
  - intros f n. unfold node_at. simpl. now rewrite lookup_empty.
  - intros f pg. unfold page_at. simpl.
    destruct (f <? 0); [discriminate|]. intros H.
    apply lookup_replicate_1 in H. destruct H as [-> _]. simpl. lia.
Qed.

End InvFacts.

(** ** The manager: [FlushPage], [UnpinPage], [DeletePage] *)

Module OpFacts.

Import BufferPoolManager Inv Post BpmFacts InvFacts.

Ltac run_get Hp := rewrite (bind_run _ _ _ _ _ (get_page_run _ _ _ Hp)).
Ltac run_update Hp := rewrite (bind_run _ _ _ _ _ (update_page_run _ _ _ _ Hp)).

(** *** FlushPage *)

Lemma FlushPage_absent s p :
  page_table_ s !! p = None -> FlushPage p s = Ok (false, s).
Proof. intros H. unfold FlushPage. now rewrite H. Qed.

Lemma WriteFrame_run s f p pg :
  page_at s f = Some pg -> WriteFrame f p s = Ok (tt, written p pg s).
Proof. intros Hp. unfold WriteFrame. run_get Hp. reflexivity. Qed.

Lemma FlushPage_resident s p f pg :
  page_table_ s !! p = Some f -> page_at s f = Some pg ->
  FlushPage p s = Ok (true, flushed p f pg s).
Proof.
  intros Ht Hp. unfold FlushPage. rewrite Ht.
  rewrite (bind_run _ _ _ _ _ (WriteFrame_run s f p pg Hp)).
  assert (Hp' : page_at (written p pg s) f = Some pg) by exact Hp.
  run_update Hp'. reflexivity.
Qed.

Lemma page_at_set_page_table v s g : page_at (set_page_table v s) g = page_at s g.
Proof. reflexivity. Qed.
Lemma page_at_set_free_list v s g : page_at (set_free_list v s) g = page_at s g.
Proof. reflexivity. Qed.
Lemma page_at_set_replacer v s g : page_at (set_replacer v s) g = page_at s g.
Proof. reflexivity. Qed.
Lemma page_at_set_next_page_id v s g : page_at (set_next_page_id v s) g = page_at s g.
Proof. reflexivity. Qed.
Lemma page_at_set_disk v s g : page_at (set_disk v s) g = page_at s g.
Proof. reflexivity. Qed.

Lemma node_at_set_page_table v s g : node_at (set_page_table v s) g = node_at s g.
Proof. reflexivity. Qed.
Lemma node_at_set_free_list v s g : node_at (set_free_list v s) g = node_at s g.
Proof. reflexivity. Qed.
Lemma node_at_set_pages v s g : node_at (set_pages v s) g = node_at s g.
Proof. reflexivity. Qed.
Lemma node_at_store_page f x s g : node_at (store_page f x s) g = node_at s g.
Proof. reflexivity. Qed.
Lemma node_at_set_next_page_id v s g : node_at (set_next_page_id v s) g = node_at s g.
Proof. reflexivity. Qed.
Lemma node_at_set_disk v s g : node_at (set_disk v s) g = node_at s g.
Proof. reflexivity. Qed.
Lemma node_at_set_replacer r s g :
  node_at (set_replacer r s) g = LRUKReplacer.node_store_ r !! g.
Proof. reflexivity. Qed.

Lemma set_disk_inv s d : bpm_inv s -> bpm_inv (set_disk d s).
Proof. intros [? ? ? ? ? ? ? ? ? ?]. constructor; assumption. Qed.

Lemma set_next_page_id_inv s v : bpm_inv s -> bpm_inv (set_next_page_id v s).
Proof. intros [? ? ? ? ? ? ? ? ? ?]. constructor; assumption. Qed.

(** Storing a frame with the pin count and the page id it had. *)
Lemma store_page_inv s f pg pg' :
  bpm_inv s -> page_at s f = Some pg ->
  Page.pin_count_ pg' = Page.pin_count_ pg ->
  Page.page_id_ pg' = Page.page_id_ pg ->
  bpm_inv (store_page f pg' s).
Proof.
  intros Hi Hp Hpin Hid.
  assert (Hpa : forall g, page_at (store_page f pg' s) g
                 = if decide (g = f) then Some pg' else page_at s g).
  { intros g. rewrite page_at_store_page; eauto. }
  apply (inv_local_change s _ f Hi); try reflexivity.
  - now rewrite length_store_page.
  - apply Hi.
  - intros g Hg. rewrite Hpa. now destruct (decide (g = f)).
  - intros q g Hq. change (page_table_ s !! q = Some g) in Hq.
    destruct (decide (g = f)) as [->|Hne]; [left|now right].
    split; [reflexivity|]. rewrite Hpa. destruct (decide (f = f)); [|congruence].
    destruct (inv_table s Hi q f Hq) as (pg0 & Hp0 & Hid0).
    exists pg'. split; [reflexivity|]. congruence.
  - apply Hi.
  - intros g Hg. change (g ∈ free_list_ s) in Hg.
    destruct (decide (g = f)) as [->|Hne]; [left|now right].
    destruct (inv_free s Hi f Hg) as (H1 & H2 & H3). auto.
  - intros n Hn. change (node_at s f = Some n) in Hn.
    destruct (inv_node s Hi f n Hn) as (H1 & H2 & pg0 & Hp0 & Hev).
    split; [exact H1|]. split; [exact H2|].
    rewrite Hpa. destruct (decide (f = f)); [|congruence].
    eexists. split; [reflexivity|]. rewrite Hpin. congruence.
  - intros pg0. rewrite Hpa. destruct (decide (f = f)); [|congruence].
    intros H. inversion H; subst. rewrite Hpin.
    apply (inv_pin s Hi f pg Hp).
Qed.

Lemma flushed_inv s p f pg :
  bpm_inv s -> page_at s f = Some pg -> bpm_inv (flushed p f pg s).
Proof.
  intros Hi Hp. unfold flushed, written.
  apply store_page_inv with (pg := pg); auto using set_disk_inv.
Qed.

Lemma FlushPage_inv s p b s' :
  bpm_inv s -> FlushPage p s = Ok (b, s') -> bpm_inv s'.
Proof.
  intros Hi H. destruct (page_table_ s !! p) as [f|] eqn:Ht.
  - destruct (inv_table s Hi p f Ht) as (pg & Hp & _).
    rewrite (FlushPage_resident s p f pg Ht Hp) in H. inversion H; subst.
    now apply flushed_inv.
  - rewrite (FlushPage_absent s p Ht) in H. now inversion H; subst.
Qed.

(** *** UnpinPage *)

Lemma UnpinPage_absent s p d :
  page_table_ s !! p = None -> UnpinPage p d s = Ok (false, s).
Proof. intros H. unfold UnpinPage. now rewrite H. Qed.

Lemma UnpinPage_unpinned s p d f pg :
  page_table_ s !! p = Some f -> page_at s f = Some pg ->
  Page.pin_count_ pg <= 0 -> UnpinPage p d s = Ok (false, s).
Proof.
  intros Ht Hp Hpin. unfold UnpinPage. rewrite Ht. run_get Hp.
  destruct (Page.pin_count_ pg <=? 0) eqn:E; [reflexivity|].
  apply Z.leb_gt in E. lia.
Qed.

Lemma UnpinPage_pinned s p d f pg r' :
  page_table_ s !! p = Some f -> page_at s f = Some pg ->
  0 < Page.pin_count_ pg ->
  (if Page.pin_count_ pg - 1 =? 0
   then LRUKReplacer.SetEvictable f true (replacer_ s)
   else Ok (replacer_ s)) = Ok r' ->
  UnpinPage p d s = Ok (true, set_replacer r' (store_page f (unpinned_page d pg) s)).
Proof.
  intros Ht Hp Hpin Hr. unfold UnpinPage. rewrite Ht. run_get Hp.
  destruct (Page.pin_count_ pg <=? 0) eqn:E; [apply Z.leb_le in E; lia|].
  run_update Hp. fold (unpinned_page d pg).
  destruct (Page.pin_count_ pg - 1 =? 0).
  - erewrite bind_run; [|apply on_replacer_run; exact Hr]. reflexivity.
  - inversion Hr; subst. reflexivity.
Qed.

Lemma unpinned_inv s p d f pg r' :
  bpm_inv s ->
  page_table_ s !! p = Some f -> page_at s f = Some pg ->
  0 < Page.pin_count_ pg ->
  (if Page.pin_count_ pg - 1 =? 0
   then LRUKReplacer.SetEvictable f true (replacer_ s)
   else Ok (replacer_ s)) = Ok r' ->
  bpm_inv (set_replacer r' (store_page f (unpinned_page d pg) s)).
Proof.
  intros Hi Ht Hp Hpin Hr.
  assert (Hf : 0 <= f < pool_size_ s).
  { eapply page_at_range; eauto. apply Hi. }
  assert (Hr' : LRUKReplacer.node_store_ r'
                = (if Page.pin_count_ pg - 1 =? 0
                   then alter (LRUKNode.set_is_evictable true) f
                          (LRUKReplacer.node_store_ (replacer_ s))
                   else LRUKReplacer.node_store_ (replacer_ s)) /\
                LRUKReplacer.current_timestamp_ r'
                = LRUKReplacer.current_timestamp_ (replacer_ s) /\
                LRUKReplacer.replacer_size_ r'
                = LRUKReplacer.replacer_size_ (replacer_ s) /\
                LRUKReplacer.k_ r' = LRUKReplacer.k_ (replacer_ s)).
  { destruct (Page.pin_count_ pg - 1 =? 0).
    - destruct (ReplacerFacts.SetEvictable_ok f true (replacer_ s)
                  (frame_check_inv s f Hi Hf)) as (r1 & H1 & H2).
      rewrite H1 in Hr. inversion Hr; subst. exact H2.
    - inversion Hr; subst. auto. }
  destruct Hr' as (Hst & Hts & Hrs & Hk).
  assert (Hpa : forall g,
            page_at (set_replacer r' (store_page f (unpinned_page d pg) s)) g
            = if decide (g = f) then Some (unpinned_page d pg) else page_at s g).
  { intros g. rewrite page_at_set_replacer, page_at_store_page; eauto. }
  assert (Hna : forall g,
            node_at (set_replacer r' (store_page f (unpinned_page d pg) s)) g
            = if decide (g = f)
              then (if Page.pin_count_ pg - 1 =? 0
                    then LRUKNode.set_is_evictable true <$> node_at s f
                    else node_at s f)
              else node_at s g).
  { intros g. rewrite node_at_set_replacer, Hst. unfold node_at.
    destruct (decide (g = f)) as [->|Hne].
    - destruct (Page.pin_count_ pg - 1 =? 0); [|reflexivity].
      now rewrite lookup_alter_eq.
    - destruct (Page.pin_count_ pg - 1 =? 0); [|reflexivity].
      now rewrite lookup_alter_ne. }
  destruct (inv_pin s Hi f pg Hp) as [Hpin0 Hnode].
  destruct (Hnode Hpin) as [n0 Hn0].
  destruct (inv_node s Hi f n0 Hn0) as (Hh & Hhr & pg0 & Hp0 & Hev).
  assert (pg0 = pg) by congruence. subst pg0.
  apply (inv_local_change s _ f Hi); simpl; try assumption; try reflexivity.
  - apply length_insert.
  - rewrite Hts. apply Hi.
  - intros g Hg. rewrite Hpa. now destruct (decide (g = f)).
  - intros g Hg. rewrite Hna. now destruct (decide (g = f)).
  - intros q g Hq.
    destruct (decide (g = f)) as [->|Hne]; [left|now right].
    split; [reflexivity|]. rewrite Hpa. destruct (decide (f = f)); [|congruence].
    destruct (inv_table s Hi q f Hq) as (pg1 & Hp1 & Hid1).
    eexists. split; [reflexivity|]. simpl. congruence.
  - apply Hi.
  - intros g Hg.
    destruct (decide (g = f)) as [->|Hne]; [|now right].
    exfalso. destruct (inv_free s Hi f Hg) as (_ & _ & H3). now apply (H3 p).
  - intros n. rewrite Hna, Hpa. destruct (decide (f = f)); [|congruence].
    rewrite Hn0. intros Hn.
    destruct (Page.pin_count_ pg - 1 =? 0) eqn:E.
    + inversion Hn; subst. simpl. split; [exact Hh|]. split; [exact Hhr|].
      eexists. split; [reflexivity|]. simpl. apply Z.eqb_eq in E. tauto.
    + inversion Hn; subst. split; [exact Hh|]. split; [exact Hhr|].
      eexists. split; [reflexivity|]. simpl. apply Z.eqb_neq in E.
      split; [|lia]. intros He. apply Hev in He. lia.
  - intros pg1. rewrite Hpa, Hna. destruct (decide (f = f)); [|congruence].
    intros H. inversion H; subst. simpl. split; [lia|]. intros _.
    rewrite Hn0. destruct (Page.pin_count_ pg - 1 =? 0); simpl; eauto.
Qed.

Lemma UnpinPage_inv s p d b s' :
  bpm_inv s -> UnpinPage p d s = Ok (b, s') -> bpm_inv s'.
Proof.
  intros Hi H. destruct (page_table_ s !! p) as [f|] eqn:Ht.
  - destruct (inv_table s Hi p f Ht) as (pg & Hp & _).
    destruct (Z_le_gt_dec (Page.pin_count_ pg) 0) as [Hle|Hgt].
    + rewrite (UnpinPage_unpinned s p d f pg Ht Hp Hle) in H.
      now inversion H; subst.
    + assert (Hf : 0 <= f < pool_size_ s).
      { eapply page_at_range; eauto. apply Hi. }
      assert (Hr : exists r',
                (if Page.pin_count_ pg - 1 =? 0
                 then LRUKReplacer.SetEvictable f true (replacer_ s)
                 else Ok (replacer_ s)) = Ok r').
      { destruct (Page.pin_count_ pg - 1 =? 0); [|eauto].
        destruct (ReplacerFacts.SetEvictable_ok f true (replacer_ s)
                    (frame_check_inv s f Hi Hf)) as (r1 & H1 & _). eauto. }
      destruct Hr as [r' Hr].
      rewrite (UnpinPage_pinned s p d f pg r' Ht Hp) in H by (auto; lia).
      inversion H; subst. eapply unpinned_inv; eauto. lia.
  - rewrite (UnpinPage_absent s p d Ht) in H. now inversion H; subst.
Qed.

(** *** DeletePage *)

Lemma DeletePage_absent s p :
  page_table_ s !! p = None -> DeletePage p s = Ok (true, s).
Proof. intros H. unfold DeletePage. now rewrite H. Qed.

Lemma DeletePage_pinned s p f pg :
  page_table_ s !! p = Some f -> page_at s f = Some pg ->
  0 < Page.pin_count_ pg -> DeletePage p s = Ok (false, s).
Proof.
  intros Ht Hp Hpin. unfold DeletePage. rewrite Ht. run_get Hp.
  destruct (0 <? Page.pin_count_ pg) eqn:E; [reflexivity|].
  apply Z.ltb_ge in E. lia.
Qed.

Lemma DeletePage_unpinned s p f pg r' :
  page_table_ s !! p = Some f -> page_at s f = Some pg ->
  Page.pin_count_ pg <= 0 ->
  LRUKReplacer.Remove f (replacer_ s) = Ok r' ->
  DeletePage p s = Ok (true, deleted p f pg r' s).
Proof.
  intros Ht Hp Hpin Hr. unfold DeletePage. rewrite Ht. run_get Hp.
  destruct (0 <? Page.pin_count_ pg) eqn:E; [apply Z.ltb_lt in E; lia|].
  erewrite bind_run; [|apply on_replacer_run; exact Hr].
  unfold bind at 1, modify at 1. simpl obind.
  assert (Hp' : page_at (set_page_table (delete p (page_table_ (set_replacer r' s)))
                           (set_replacer r' s)) f = Some pg) by exact Hp.
  run_update Hp'. reflexivity.
Qed.

(** In a state of the invariant [Remove] accepts the frame of an
    unpinned resident page. *)
Lemma Remove_resident s p f pg :
  bpm_inv s -> page_table_ s !! p = Some f -> page_at s f = Some pg ->
  Page.pin_count_ pg <= 0 ->
  exists r', LRUKReplacer.Remove f (replacer_ s) = Ok r' /\
    LRUKReplacer.node_store_ r' = delete f (LRUKReplacer.node_store_ (replacer_ s)) /\
    LRUKReplacer.current_timestamp_ r'
    = LRUKReplacer.current_timestamp_ (replacer_ s) /\
    LRUKReplacer.replacer_size_ r' = LRUKReplacer.replacer_size_ (replacer_ s) /\
    LRUKReplacer.k_ r' = LRUKReplacer.k_ (replacer_ s).
Proof.
  intros Hi Ht Hp Hpin.
  assert (Hf : 0 <= f < pool_size_ s).
  { eapply page_at_range; eauto. apply Hi. }
  apply ReplacerFacts.Remove_ok; [now apply frame_check_inv|].
  intros n Hn. destruct (inv_node s Hi f n Hn) as (_ & _ & pg0 & Hp0 & Hev).
  assert (pg0 = pg) by congruence. subst pg0.
  apply Hev. destruct (inv_pin s Hi f pg Hp). lia.
Qed.

Lemma deleted_inv s p f pg r' :
  bpm_inv s -> page_table_ s !! p = Some f -> page_at s f = Some pg ->
  Page.pin_count_ pg <= 0 ->
  LRUKReplacer.Remove f (replacer_ s) = Ok r' ->
  bpm_inv (deleted p f pg r' s).
Proof.
  intros Hi Ht Hp Hpin Hr.
  destruct (Remove_resident s p f pg Hi Ht Hp Hpin) as (r1 & Hr1 & Hst & Hts & Hrs & Hk).
  assert (r1 = r') by congruence. subst r1.
  assert (Hf : 0 <= f < pool_size_ s).
  { eapply page_at_range; eauto. apply Hi. }
  assert (Hnotfree : f ∉ free_list_ s).
  { intros Hin. destruct (inv_free s Hi f Hin) as (_ & _ & H3). now apply (H3 p). }
  assert (Hpa : forall g, page_at (deleted p f pg r' s) g
                 = if decide (g = f) then Some (deleted_page pg) else page_at s g).
  { intros g. unfold deleted. rewrite page_at_set_free_list, page_at_store_page; eauto. }
  assert (Hna : forall g, node_at (deleted p f pg r' s) g
                 = if decide (g = f) then None else node_at s g).
  { intros g. unfold deleted, node_at. simpl. rewrite Hst.
    destruct (decide (g = f)) as [->|Hne].
    - apply lookup_delete_eq.
    - now apply lookup_delete_ne. }
  assert (Htb : forall q g, page_table_ (deleted p f pg r' s) !! q = Some g ->
                  g <> f /\ page_table_ s !! q = Some g).
  { intros q g. unfold deleted. simpl. intros Hq.
    apply lookup_delete_Some in Hq as [Hqp Hq]. split; [|exact Hq].
    intros ->. destruct (inv_table s Hi q f Hq) as (pg1 & Hp1 & Hid1).
    destruct (inv_table s Hi p f Ht) as (pg2 & Hp2 & Hid2). congruence. }
  apply (inv_local_change s _ f Hi); try reflexivity.
  - unfold deleted. simpl. apply length_insert.
  - exact Hrs.
  - exact Hk.
  - unfold deleted. simpl. rewrite Hts. apply Hi.
  - intros g Hg. rewrite Hpa. now destruct (decide (g = f)).
  - intros g Hg. rewrite Hna. now destruct (decide (g = f)).
  - intros q g Hq. right. now apply Htb.
  - unfold deleted. simpl. apply NoDup_app. split; [apply Hi|].
    split; [|apply NoDup_singleton].
    intros g Hg Hg'. apply list_elem_of_singleton in Hg'. now subst.
  - intros g. unfold deleted at 1. simpl. intros Hg.
    apply elem_of_app in Hg as [Hg|Hg].
    + right. split; [|exact Hg]. now intros ->.
    + apply list_elem_of_singleton in Hg. subst g. left.
      split; [reflexivity|]. split; [exact Hf|].
      rewrite Hna. destruct (decide (f = f)); [|congruence].
      split; [reflexivity|]. intros q Hq. now apply Htb in Hq as [? _].
  - intros n. rewrite Hna. now destruct (decide (f = f)).
  - intros pg1. rewrite Hpa. destruct (decide (f = f)); [|congruence].
    intros H. inversion H; subst. simpl.
    destruct (inv_pin s Hi f pg Hp). split; [lia|]. intros; lia.
Qed.

Lemma DeletePage_inv s p b s' :
  bpm_inv s -> DeletePage p s = Ok (b, s') -> bpm_inv s'.
Proof.
  intros Hi H. destruct (page_table_ s !! p) as [f|] eqn:Ht.
  - destruct (inv_table s Hi p f Ht) as (pg & Hp & _).
    destruct (Z_le_gt_dec (Page.pin_count_ pg) 0) as [Hle|Hgt].
    + destruct (Remove_resident s p f pg Hi Ht Hp Hle) as (r' & Hr & _).
      rewrite (DeletePage_unpinned s p f pg r' Ht Hp Hle Hr) in H.
      inversion H; subst. eapply deleted_inv; eauto.
    + rewrite (DeletePage_pinned s p f pg Ht Hp) in H by lia.
      now inversion H; subst.
  - rewrite (DeletePage_absent s p Ht) in H. now inversion H; subst.
Qed.

(** *** Obtaining a frame *)

Lemma set_replacer_same s : set_replacer (replacer_ s) s = s.
Proof. now destruct s. Qed.

Lemma nodes_fronts_defined s :
  bpm_inv s ->
  forall f n, LRUKReplacer.node_store_ (replacer_ s) !! f = Some n ->
    LRUKNode.is_evictable_ n = true -> LRUKNode.history_ n <> [].
Proof. intros Hi f n Hn _. now destruct (inv_node s Hi f n Hn). Qed.

(** In a state of the invariant [Evict] returns: either nothing, the
    replacer unchanged, or a frame whose node was evictable and whose
    pin count is zero. *)
Lemma Evict_inv_cases s :
  bpm_inv s ->
  LRUKReplacer.Evict (replacer_ s) = Ok (None, replacer_ s) \/
  exists v r' n pg,
    LRUKReplacer.Evict (replacer_ s) = Ok (Some v, r') /\
    node_at s v = Some n /\ LRUKNode.is_evictable_ n = true /\
    page_at s v = Some pg /\ Page.pin_count_ pg = 0 /\
    LRUKReplacer.node_store_ r' = delete v (LRUKReplacer.node_store_ (replacer_ s)) /\
    LRUKReplacer.current_timestamp_ r'
    = LRUKReplacer.current_timestamp_ (replacer_ s) /\
    LRUKReplacer.replacer_size_ r' = LRUKReplacer.replacer_size_ (replacer_ s) /\
    LRUKReplacer.k_ r' = LRUKReplacer.k_ (replacer_ s).
Proof.
  intros Hi. unfold LRUKReplacer.Evict.
  assert (Hdef : Scan.fronts_defined
                   (map_to_list (LRUKReplacer.node_store_ (replacer_ s)))).
  { eapply ReplacerFacts.entries_fronts_defined; [reflexivity|].
    now apply nodes_fronts_defined. }
  destruct (ReplacerFacts.Evict_in_order_result (replacer_ s) _ Hdef)
    as (acc & _ & Heq).
  destruct (LRUKReplacer.victim acc) as [v|] eqn:Ev; [right|left; exact Heq].
  destruct (ReplacerFacts.Evict_in_order_Some (replacer_ s) _ v _
              (reflexivity _) (nodes_fronts_defined s Hi) Heq)
    as ((n & Hn & He) & Hrest).
  destruct (inv_node s Hi v n Hn) as (_ & _ & pg & Hp & Hev).
  eexists v, _, n, pg. split; [exact Heq|].
  split; [exact Hn|]. split; [exact He|]. split; [exact Hp|].
  split; [now apply Hev|]. exact Hrest.
Qed.

Lemma obtain_frame_free s f rest :
  free_list_ s = f :: rest ->
  obtain_frame s = Ok (Some f, set_free_list rest s).
Proof. intros H. unfold obtain_frame. now rewrite H. Qed.

Lemma obtain_frame_none s :
  free_list_ s = [] ->
  LRUKReplacer.Evict (replacer_ s) = Ok (None, replacer_ s) ->
  obtain_frame s = Ok (None, s).
Proof.
  intros H He. unfold obtain_frame. rewrite H, He. simpl.
  now rewrite set_replacer_same.
Qed.

Lemma obtain_frame_victim s v r' pg :
  free_list_ s = [] ->
  LRUKReplacer.Evict (replacer_ s) = Ok (Some v, r') ->
  page_at s v = Some pg ->
  obtain_frame s = Ok (Some v, victim_taken v pg r' s).
Proof.
  intros H He Hp. unfold obtain_frame. rewrite H, He. simpl obind.
  assert (Hp' : page_at (set_replacer r' s) v = Some pg) by exact Hp.
  run_get Hp'. unfold bind at 1, modify at 1. simpl obind.
  unfold victim_taken. destruct (Page.is_dirty_ pg).
  - erewrite bind_run; [|apply WriteFrame_run; exact Hp]. reflexivity.
  - reflexivity.
Qed.

Lemma popped_inv s f rest :
  bpm_inv s -> free_list_ s = f :: rest ->
  bpm_inv (set_free_list rest s) /\ available (set_free_list rest s) f.
Proof.
  intros Hi Hfl.
  assert (Hnd : NoDup (f :: rest)) by (rewrite <- Hfl; apply Hi).
  apply NoDup_cons in Hnd as [Hnotin Hnd].
  assert (Hin : f ∈ free_list_ s) by (rewrite Hfl; apply list_elem_of_here).
  destruct (inv_free s Hi f Hin) as (Hf & Hnone & Hnt).
  split.
  - destruct Hi as [ipool ipages irsize ik iclock inodup ifree itable inode ipin].
    constructor; try assumption.
    intros g Hg. apply ifree. rewrite Hfl. now apply list_elem_of_further.
  - repeat split; try assumption; apply Hf.
Qed.

Lemma victim_taken_inv s v r' n pg :
  bpm_inv s ->
  node_at s v = Some n -> LRUKNode.is_evictable_ n = true ->
  page_at s v = Some pg -> free_list_ s = [] ->
  LRUKReplacer.node_store_ r' = delete v (LRUKReplacer.node_store_ (replacer_ s)) ->
  LRUKReplacer.current_timestamp_ r'
  = LRUKReplacer.current_timestamp_ (replacer_ s) ->
  LRUKReplacer.replacer_size_ r' = LRUKReplacer.replacer_size_ (replacer_ s) ->
  LRUKReplacer.k_ r' = LRUKReplacer.k_ (replacer_ s) ->
  bpm_inv (victim_taken v pg r' s) /\ available (victim_taken v pg r' s) v.
Proof.
  intros Hi Hn He Hp Hfl Hst Hts Hrs Hk.
  set (s1 := set_page_table (delete (Page.page_id_ pg) (page_table_ s))
               (set_replacer r' s)).
  assert (Hf : 0 <= v < pool_size_ s).
  { eapply page_at_range; eauto. apply Hi. }
  assert (Hpin : Page.pin_count_ pg = 0).
  { destruct (inv_node s Hi v n Hn) as (_ & _ & pg0 & Hp0 & Hev).
    assert (pg0 = pg) by congruence. subst. now apply Hev. }
  assert (Htb : forall q g, page_table_ s1 !! q = Some g ->
                  g <> v /\ page_table_ s !! q = Some g).
  { intros q g. unfold s1. simpl. intros Hq.
    apply lookup_delete_Some in Hq as [Hqp Hq]. split; [|exact Hq].
    intros ->. destruct (inv_table s Hi q v Hq) as (pg1 & Hp1 & Hid1).
    congruence. }
  assert (Hna : forall g, node_at s1 g = if decide (g = v) then None else node_at s g).
  { intros g. unfold s1, node_at. simpl. rewrite Hst.
    destruct (decide (g = v)) as [->|Hne].
    - apply lookup_delete_eq.
    - now apply lookup_delete_ne. }
  assert (Hi1 : bpm_inv s1).
  { apply (inv_local_change s _ v Hi); try reflexivity; try assumption.
    - unfold s1. simpl. rewrite Hts. apply Hi.
    - intros g Hg. rewrite Hna. now destruct (decide (g = v)).
    - intros q g Hq. right. now apply Htb.
    - apply Hi.
    - intros g. unfold s1. simpl. rewrite Hfl. intros Hg.
      now apply elem_of_nil in Hg.
    - intros m. rewrite Hna. now destruct (decide (v = v)).
    - intros pg1 Hp1. change (page_at s v = Some pg1) in Hp1.
      assert (pg1 = pg) by congruence. subst. split; [lia|]. intros; lia. }
  assert (Ha1 : available s1 v).
  { split; [exact Hf|]. split.
    - unfold s1. simpl. rewrite Hfl. apply not_elem_of_nil.
    - split.
      + specialize (Hna v). destruct (decide (v = v)); [exact Hna|congruence].
      + intros q Hq. now apply Htb in Hq as [? _]. }
  unfold victim_taken. fold s1. destruct (Page.is_dirty_ pg).
  - split; [now apply set_disk_inv|exact Ha1].
  - split; assumption.
Qed.

(** [obtain_frame] returns in every state of the invariant; a frame it
    gives is available, and without a frame nothing has changed. *)
Lemma obtain_frame_inv s :
  bpm_inv s ->
  exists res s1, obtain_frame s = Ok (res, s1) /\ bpm_inv s1 /\
    next_page_id_ s1 = next_page_id_ s /\
    match res with
    | Some f => available s1 f
    | None => s1 = s
    end.
Proof.
  intros Hi. destruct (free_list_ s) as [|f rest] eqn:Hfl.
  - destruct (Evict_inv_cases s Hi) as [He|(v & r' & n & pg & He & Hn & Hev & Hp & _ & Hst & Hts & Hrs & Hk)].
    + exists None, s. rewrite (obtain_frame_none s Hfl He).
      split; [reflexivity|]. split; [assumption|]. split; reflexivity.
    + exists (Some v), (victim_taken v pg r' s).
      rewrite (obtain_frame_victim s v r' pg Hfl He Hp).
      destruct (victim_taken_inv s v r' n pg Hi Hn Hev Hp Hfl Hst Hts Hrs Hk).
      split; [reflexivity|]. split; [assumption|]. split; [|assumption].
      unfold victim_taken. now destruct (Page.is_dirty_ pg).
  - exists (Some f), (set_free_list rest s).
    rewrite (obtain_frame_free s f rest Hfl).
    destruct (popped_inv s f rest Hi Hfl).
    split; [reflexivity|]. split; [assumption|]. split; [reflexivity|assumption].
Qed.

(** *** Installing a page in an available frame *)

Lemma install_inv s1 s' f pid pg' n' :
  bpm_inv s1 -> available s1 f ->
  pool_size_ s' = pool_size_ s1 ->
  length (pages_ s') = length (pages_ s1) ->
  LRUKReplacer.replacer_size_ (replacer_ s') = LRUKReplacer.replacer_size_ (replacer_ s1) ->
  LRUKReplacer.k_ (replacer_ s') = LRUKReplacer.k_ (replacer_ s1) ->
  in_size_t (LRUKReplacer.current_timestamp_ (replacer_ s')) ->
  free_list_ s' = free_list_ s1 ->
  page_table_ s' = <[pid := f]> (page_table_ s1) ->
  page_at s' f = Some pg' ->
  (forall g, g <> f -> page_at s' g = page_at s1 g) ->
  node_at s' f = Some n' ->
  (forall g, g <> f -> node_at s' g = node_at s1 g) ->
  Page.page_id_ pg' = pid -> Page.pin_count_ pg' = 1 ->
  LRUKNode.is_evictable_ n' = false ->
  LRUKNode.history_ n' <> [] -> Forall in_size_t (LRUKNode.history_ n') ->
  bpm_inv s'.
Proof.
  intros Hi (Hf & Hnfl & Hnone & Hnt) Hpool Hlen Hrs Hk Hclk Hfl Htb Hpf Hpg Hnf Hnd
         Hid Hpin Hev Hh Hhr.
  apply (inv_local_change s1 s' f Hi); try assumption.
  - intros q g. rewrite Htb. intros Hq.
    apply lookup_insert_Some in Hq as [[<- <-]|[Hne Hq]].
    + left. split; [reflexivity|]. eauto.
    + right. split; [|exact Hq]. intros ->. now apply (Hnt q).
  - rewrite Hfl. apply Hi.
  - intros g. rewrite Hfl. intros Hg. right. split; [|exact Hg]. now intros ->.
  - intros n Hn. assert (n = n') by congruence. subst n.
    split; [exact Hh|]. split; [exact Hhr|].
    exists pg'. split; [exact Hpf|]. rewrite Hev, Hpin. split; [discriminate|lia].
  - intros pg Hp. assert (pg = pg') by congruence. subst pg.
    rewrite Hpin. split; [lia|]. eauto.
Qed.

(** What the replacer holds for a frame after [RecordAccess]. *)
Lemma RecordAccess_node f r :
  LRUKReplacer.frame_check r f = false ->
  0 < LRUKReplacer.k_ r ->
  (forall n, LRUKReplacer.node_store_ r !! f = Some n ->
     Forall in_size_t (LRUKNode.history_ n)) ->
  exists r', LRUKReplacer.RecordAccess f r = Ok r' /\
    LRUKReplacer.node_store_ r' !! f = Some (LRUKReplacer.accessed f r) /\
    (forall g, g <> f ->
       LRUKReplacer.node_store_ r' !! g = LRUKReplacer.node_store_ r !! g) /\
    LRUKNode.history_ (LRUKReplacer.accessed f r) <> [] /\
    Forall in_size_t (LRUKNode.history_ (LRUKReplacer.accessed f r)) /\
    in_size_t (LRUKReplacer.current_timestamp_ r') /\
    LRUKReplacer.replacer_size_ r' = LRUKReplacer.replacer_size_ r /\
    LRUKReplacer.k_ r' = LRUKReplacer.k_ r.
Proof.
  intros Hc Hk Hr.
  destruct (ReplacerFacts.RecordAccess_ok f r Hc) as (r' & H1 & Hst & Hts & _ & Hrs & Hk').
  exists r'. split; [exact H1|]. rewrite Hst, Hts.
  split; [apply lookup_insert_eq|].
  split; [intros g Hg; now apply lookup_insert_ne|].
  split; [now apply ReplacerFacts.accessed_history|].
  split.
  - apply ReplacerFacts.accessed_history_range.
    destruct (LRUKReplacer.node_store_ r !! f) as [n|] eqn:E; simpl; [now apply Hr|].
    constructor.
  - split; [apply size_t_wrap_range|]. auto.
Qed.

(** *** NewPage *)

Lemma NewPage_none s s1 :
  obtain_frame s = Ok (None, s1) -> NewPage s = Ok (None, s1).
Proof. intros H. unfold NewPage. now rewrite (bind_run _ _ _ _ _ H). Qed.

Lemma NewPage_some s s1 f pg r1 r2 :
  obtain_frame s = Ok (Some f, s1) -> page_at s1 f = Some pg ->
  LRUKReplacer.SetEvictable f false (replacer_ s1) = Ok r1 ->
  LRUKReplacer.RecordAccess f r1 = Ok r2 ->
  NewPage s = Ok (Some (next_page_id_ s1, f), page_installed f pg r2 s1).
Proof.
  intros Ho Hp H1 H2. unfold NewPage. rewrite (bind_run _ _ _ _ _ Ho).
  unfold bind at 1, AllocatePage at 1. simpl obind.
  assert (Hp' : page_at (set_next_page_id (page_id_wrap (next_page_id_ s1 + 1)) s1) f
                = Some pg)
    by exact Hp.
  run_update Hp'. unfold bind at 1, modify at 1. simpl obind.
  erewrite bind_run; [|apply on_replacer_run; exact H1].
  erewrite bind_run; [|apply on_replacer_run; exact H2].
  reflexivity.
Qed.

(** The two calls on the replacer that end [NewPage], on an available
    frame. *)
Lemma NewPage_replacer s1 f :
  bpm_inv s1 -> available s1 f ->
  exists r1 r2,
    LRUKReplacer.SetEvictable f false (replacer_ s1) = Ok r1 /\
    LRUKReplacer.RecordAccess f r1 = Ok r2 /\
    r1 = replacer_ s1 /\
    LRUKReplacer.node_store_ r2 !! f = Some (LRUKReplacer.accessed f r1) /\
    (forall g, g <> f ->
       LRUKReplacer.node_store_ r2 !! g
       = LRUKReplacer.node_store_ (replacer_ s1) !! g) /\
    LRUKNode.is_evictable_ (LRUKReplacer.accessed f r1) = false /\
    LRUKNode.history_ (LRUKReplacer.accessed f r1) <> [] /\
    Forall in_size_t (LRUKNode.history_ (LRUKReplacer.accessed f r1)) /\
    in_size_t (LRUKReplacer.current_timestamp_ r2) /\
    LRUKReplacer.replacer_size_ r2 = LRUKReplacer.replacer_size_ (replacer_ s1) /\
    LRUKReplacer.k_ r2 = LRUKReplacer.k_ (replacer_ s1).
Proof.
  intros Hi (Hf & _ & Hnone & _).
  pose proof (frame_check_inv s1 f Hi Hf) as Hc.
  exists (replacer_ s1).
  assert (H1 : LRUKReplacer.SetEvictable f false (replacer_ s1) = Ok (replacer_ s1)).
  { unfold LRUKReplacer.SetEvictable. now rewrite Hc, Hnone. }
  destruct (RecordAccess_node f (replacer_ s1) Hc (inv_k s1 Hi))
    as (r2 & H2 & Hn & Ho & Hh & Hhr & Hts & Hrs & Hk).
  { intros n Hn. congruence. }
  exists r2. split; [exact H1|]. split; [exact H2|]. split; [reflexivity|].
  split; [exact Hn|]. split; [exact Ho|].
  split; [|auto 10].
  rewrite ReplacerFacts.accessed_evictable, Hnone. reflexivity.
Qed.

Lemma page_installed_inv s1 f pg r2 :
  bpm_inv s1 -> available s1 f -> page_at s1 f = Some pg ->
  LRUKReplacer.RecordAccess f (replacer_ s1) = Ok r2 ->
  bpm_inv (page_installed f pg r2 s1).
Proof.
  intros Hi Ha Hp H2.
  destruct (NewPage_replacer s1 f Hi Ha)
    as (r1 & r2' & _ & H2' & -> & Hn & Ho & Hev & Hh & Hhr & Hts & Hrs & Hk).
  assert (r2' = r2) by congruence. subst r2'.
  eapply (install_inv s1 _ f (next_page_id_ s1)
            (new_page (next_page_id_ s1) pg)); eauto; try reflexivity.
  - unfold page_installed. simpl. apply length_insert.
  - unfold page_installed. simpl.
    rewrite page_at_set_replacer, page_at_set_page_table, page_at_store_page
      by (rewrite page_at_set_next_page_id; eauto).
    now destruct (decide (f = f)).
  - intros g Hg. unfold page_installed.
    rewrite page_at_set_replacer, page_at_set_page_table, page_at_store_page
      by (rewrite page_at_set_next_page_id; eauto).
    now destruct (decide (g = f)).
Qed.

(** [NewPage] returns in every state of the invariant and keeps it. *)
Lemma NewPage_total s :
  bpm_inv s -> exists res s', NewPage s = Ok (res, s') /\ bpm_inv s'.
Proof.
  intros Hi.
  destruct (obtain_frame_inv s Hi) as ([f|] & s1 & Ho & Hi1 & _ & Ha).
  - destruct (page_at_in_range s1 f (inv_pages s1 Hi1) (proj1 Ha)) as [pg Hp].
    destruct (NewPage_replacer s1 f Hi1 Ha) as (r1 & r2 & H1 & H2 & -> & _).
    rewrite (NewPage_some s s1 f pg _ r2 Ho Hp H1 H2).
    eexists _, _. split; [reflexivity|]. now apply page_installed_inv.
  - subst s1. rewrite (NewPage_none s s Ho). eauto.
Qed.

Lemma NewPage_inv s res s' :
  bpm_inv s -> NewPage s = Ok (res, s') -> bpm_inv s'.
Proof.
  intros Hi H. destruct (NewPage_total s Hi) as (res1 & s1 & H1 & Hi1).
  congruence.
Qed.

(** *** FetchPage *)

Lemma FetchPage_hit s p f pg r1 r2 :
  page_table_ s !! p = Some f -> page_at s f = Some pg ->
  (if Page.pin_count_ pg =? 0
   then LRUKReplacer.SetEvictable f false (replacer_ s)
   else Ok (replacer_ s)) = Ok r1 ->
  LRUKReplacer.RecordAccess f r1 = Ok r2 ->
  FetchPage p s = Ok (Some f, fetched_hit f pg r1 r2 s).
Proof.
  intros Ht Hp H1 H2. unfold FetchPage. rewrite Ht. run_get Hp.
  destruct (Page.pin_count_ pg =? 0).
  - erewrite bind_run; [|apply on_replacer_run; exact H1].
    assert (Hp' : page_at (set_replacer r1 s) f = Some pg) by exact Hp.
    run_update Hp'.
    erewrite bind_run; [|apply on_replacer_run; exact H2]. reflexivity.
  - inversion H1; subst. unfold bind at 1, ret at 1. simpl obind.
    run_update Hp.
    erewrite bind_run; [|apply on_replacer_run; exact H2]. reflexivity.
Qed.

Lemma ReadFrame_run s f p pg :
  page_at s f = Some pg ->
  ReadFrame f p s =
    Ok (tt, store_page f (Page.set_data (Disk.read_block (disk_ s) p) pg)
              (set_disk (Disk.Schedule
                 {| Disk.is_write_ := false; Disk.data_ := Page.data_ pg;
                    Disk.page_id_ := p |} (disk_ s)) s)).
Proof.
  intros Hp. unfold ReadFrame. run_get Hp.
  unfold bind at 1. simpl obind. unfold bind at 1, modify at 1. simpl obind.
  assert (Hp' : page_at (set_disk (Disk.Schedule
                 {| Disk.is_write_ := false; Disk.data_ := Page.data_ pg;
                    Disk.page_id_ := p |} (disk_ s)) s) f = Some pg) by exact Hp.
  now rewrite (update_page_run _ _ _ _ Hp').
Qed.

Lemma FetchPage_miss_none s p s1 :
  page_table_ s !! p = None -> obtain_frame s = Ok (None, s1) ->
  FetchPage p s = Ok (None, s1).
Proof.
  intros Ht Ho. unfold FetchPage. rewrite Ht.
  now rewrite (bind_run _ _ _ _ _ Ho).
Qed.

Lemma FetchPage_miss_some s p s1 f pg r1 r2 :
  page_table_ s !! p = None -> obtain_frame s = Ok (Some f, s1) ->
  page_at s1 f = Some pg ->
  LRUKReplacer.RecordAccess f (replacer_ s1) = Ok r1 ->
  LRUKReplacer.SetEvictable f false r1 = Ok r2 ->
  FetchPage p s = Ok (Some f, fetched_miss p f pg r2 s1).
Proof.
  intros Ht Ho Hp H1 H2. unfold FetchPage. rewrite Ht.
  rewrite (bind_run _ _ _ _ _ Ho). run_update Hp.
  assert (Hex : exists x, page_at s1 f = Some x) by eauto.
  set (pg2 := Page.ResetMemory pg).
  set (s2 := store_page f pg2 s1).
  assert (Hp2 : page_at s2 f = Some pg2).
  { unfold s2. rewrite page_at_store_page by exact Hex.
    now destruct (decide (f = f)). }
  erewrite bind_run; [|apply ReadFrame_run; exact Hp2].
  set (s3 := set_disk _ s2).
  set (pg4 := Page.set_data _ pg2). set (s4 := store_page f pg4 s3).
  unfold bind at 1, modify at 1. simpl obind.
  set (s5 := set_page_table _ s4).
  assert (Hp5 : page_at s5 f = Some pg4).
  { unfold s5, s4. rewrite page_at_set_page_table, page_at_store_page by eauto.
    now destruct (decide (f = f)). }
  run_update Hp5.
  erewrite bind_run; [|apply on_replacer_run; exact H1].
  erewrite bind_run; [|apply on_replacer_run; exact H2].
  reflexivity.
Qed.

Lemma fetched_hit_inv s p f pg r1 r2 :
  bpm_inv s ->
  page_table_ s !! p = Some f -> page_at s f = Some pg ->
  (if Page.pin_count_ pg =? 0
   then LRUKReplacer.SetEvictable f false (replacer_ s)
   else Ok (replacer_ s)) = Ok r1 ->
  LRUKReplacer.RecordAccess f r1 = Ok r2 ->
  bpm_inv (fetched_hit f pg r1 r2 s).
Proof.
  intros Hi Ht Hp H1 H2.
  assert (Hf : 0 <= f < pool_size_ s).
  { eapply page_at_range; eauto. apply Hi. }
  pose proof (frame_check_inv s f Hi Hf) as Hc.
  destruct (inv_pin s Hi f pg Hp) as [Hpin0 Hnode].
  (* the replacer before the access is recorded *)
  assert (Hr1 : LRUKReplacer.replacer_size_ r1 = LRUKReplacer.replacer_size_ (replacer_ s) /\
                LRUKReplacer.k_ r1 = LRUKReplacer.k_ (replacer_ s) /\
                (forall g, g <> f -> LRUKReplacer.node_store_ r1 !! g = node_at s g) /\
                (forall n, LRUKReplacer.node_store_ r1 !! f = Some n ->
                   LRUKNode.is_evictable_ n = false /\
                   Forall in_size_t (LRUKNode.history_ n))).
  { destruct (Page.pin_count_ pg =? 0) eqn:E.
    - destruct (ReplacerFacts.SetEvictable_ok f false (replacer_ s) Hc)
        as (r & Hr & Hst & _ & Hrs & Hk).
      assert (r = r1) by congruence. subst r.
      split; [exact Hrs|]. split; [exact Hk|]. rewrite Hst. split.
      + intros g Hg. now rewrite lookup_alter_ne.
      + intros n. rewrite lookup_alter_eq.
        destruct (LRUKReplacer.node_store_ (replacer_ s) !! f) as [n0|] eqn:En;
          [|discriminate].
        simpl. intros Hn. inversion Hn; subst. split; [reflexivity|].
        simpl. now destruct (inv_node s Hi f n0 En) as (_ & ? & _).
    - inversion H1; subst. split; [reflexivity|]. split; [reflexivity|].
      split; [reflexivity|]. intros n Hn.
      destruct (inv_node s Hi f n Hn) as (_ & Hhr & pg0 & Hp0 & Hev).
      assert (pg0 = pg) by congruence. subst. split; [|exact Hhr].
      apply Z.eqb_neq in E. destruct (LRUKNode.is_evictable_ n); [|reflexivity].
      exfalso. apply E. now apply Hev. }
  destruct Hr1 as (Hrs1 & Hk1 & Ho1 & Hf1).
  assert (Hc1 : LRUKReplacer.frame_check r1 f = false).
  { unfold LRUKReplacer.frame_check in *. now rewrite Hrs1. }
  destruct (RecordAccess_node f r1 Hc1) as (r & Hr & Hn & Ho & Hh & Hhr & Hts & Hrs & Hk).
  { rewrite Hk1. apply Hi. }
  { intros n Hn. now apply Hf1. }
  assert (r = r2) by congruence. subst r.
  assert (Hev : LRUKNode.is_evictable_ (LRUKReplacer.accessed f r1) = false).
  { rewrite ReplacerFacts.accessed_evictable.
    destruct (LRUKReplacer.node_store_ r1 !! f) as [n|] eqn:En; [|reflexivity].
    simpl. now apply Hf1. }
  assert (Hpa : forall g, page_at (fetched_hit f pg r1 r2 s) g
                 = if decide (g = f)
                   then Some (Page.set_pin_count (Page.pin_count_ pg + 1) pg)
                   else page_at s g).
  { intros g. unfold fetched_hit.
    rewrite page_at_set_replacer, page_at_store_page
      by (rewrite page_at_set_replacer; eauto).
    reflexivity. }
  apply (inv_local_change s _ f Hi); try reflexivity.
  - unfold fetched_hit. simpl. apply length_insert.
  - unfold fetched_hit. simpl. congruence.
  - unfold fetched_hit. simpl. congruence.
  - exact Hts.
  - intros g Hg. rewrite Hpa. now destruct (decide (g = f)).
  - intros g Hg. unfold fetched_hit, node_at at 1. simpl.
    rewrite Ho by exact Hg. now apply Ho1.
  - intros q g Hq. change (page_table_ s !! q = Some g) in Hq.
    destruct (decide (g = f)) as [->|Hne]; [left|now right].
    split; [reflexivity|]. rewrite Hpa. destruct (decide (f = f)); [|congruence].
    destruct (inv_table s Hi q f Hq) as (pg1 & Hp1 & Hid1).
    eexists. split; [reflexivity|]. simpl. congruence.
  - apply Hi.
  - intros g Hg. change (g ∈ free_list_ s) in Hg.
    destruct (decide (g = f)) as [->|Hne]; [|now right].
    exfalso. destruct (inv_free s Hi f Hg) as (_ & _ & H3). now apply (H3 p).
  - intros n. unfold fetched_hit at 1, node_at. simpl. rewrite Hn.
    intros Hn'. inversion Hn'; subst n.
    split; [exact Hh|]. split; [exact Hhr|].
    rewrite Hpa. destruct (decide (f = f)); [|congruence].
    eexists. split; [reflexivity|]. rewrite Hev. simpl.
    split; [discriminate|lia].
  - intros pg1. rewrite Hpa. destruct (decide (f = f)); [|congruence].
    intros H. inversion H; subst. simpl. split; [lia|]. intros _.
    unfold fetched_hit, node_at. simpl. eauto.
Qed.

(** The two calls on the replacer that end the miss path of
    [FetchPage], on an available frame. *)
Lemma FetchPage_replacer s1 f :
  bpm_inv s1 -> available s1 f ->
  exists r1 r2 n',
    LRUKReplacer.RecordAccess f (replacer_ s1) = Ok r1 /\
    LRUKReplacer.SetEvictable f false r1 = Ok r2 /\
    LRUKReplacer.node_store_ r2 !! f = Some n' /\
    (forall g, g <> f ->
       LRUKReplacer.node_store_ r2 !! g
       = LRUKReplacer.node_store_ (replacer_ s1) !! g) /\
    LRUKNode.is_evictable_ n' = false /\
    LRUKNode.history_ n' <> [] /\
    Forall in_size_t (LRUKNode.history_ n') /\
    in_size_t (LRUKReplacer.current_timestamp_ r2) /\
    LRUKReplacer.replacer_size_ r2 = LRUKReplacer.replacer_size_ (replacer_ s1) /\
    LRUKReplacer.k_ r2 = LRUKReplacer.k_ (replacer_ s1).
Proof.
  intros Hi (Hf & _ & Hnone & _).
  pose proof (frame_check_inv s1 f Hi Hf) as Hc.
  destruct (RecordAccess_node f (replacer_ s1) Hc (inv_k s1 Hi))
    as (r1 & H1 & Hn & Ho & Hh & Hhr & Hts & Hrs & Hk).
  { intros n Hn. congruence. }
  assert (Hc1 : LRUKReplacer.frame_check r1 f = false).
  { unfold LRUKReplacer.frame_check in *. now rewrite Hrs. }
  destruct (ReplacerFacts.SetEvictable_ok f false r1 Hc1)
    as (r2 & H2 & Hst2 & Hts2 & Hrs2 & Hk2).
  exists r1, r2, (LRUKNode.set_is_evictable false (LRUKReplacer.accessed f (replacer_ s1))).
  split; [exact H1|]. split; [exact H2|]. rewrite Hst2.
  split; [now rewrite lookup_alter_eq, Hn|].
  split; [intros g Hg; rewrite lookup_alter_ne by congruence; now apply Ho|].
  split; [reflexivity|]. split; [exact Hh|]. split; [exact Hhr|].
  split; [now rewrite Hts2|]. split; congruence.
Qed.

Lemma fetched_miss_inv s1 p f pg r1 r2 :
  bpm_inv s1 -> available s1 f -> page_at s1 f = Some pg ->
  LRUKReplacer.RecordAccess f (replacer_ s1) = Ok r1 ->
  LRUKReplacer.SetEvictable f false r1 = Ok r2 ->
  bpm_inv (fetched_miss p f pg r2 s1).
Proof.
  intros Hi Ha Hp H1 H2.
  destruct (FetchPage_replacer s1 f Hi Ha)
    as (r1' & r2' & n' & H1' & H2' & Hn & Ho & Hev & Hh & Hhr & Hts & Hrs & Hk).
  assert (r1' = r1) by congruence. subst r1'.
  assert (r2' = r2) by congruence. subst r2'.
  assert (Hpa : forall g, page_at (fetched_miss p f pg r2 s1) g
            = if decide (g = f)
              then Some (Page.set_is_dirty false (Page.set_pin_count 1
                     (Page.set_page_id p
                        (Page.set_data (Disk.read_block (disk_ s1) p)
                           (Page.ResetMemory pg)))))
              else page_at s1 g).
  { intros g. unfold fetched_miss.
    set (pg2 := Page.ResetMemory pg).
    set (s2 := store_page f pg2 s1).
    set (s3 := set_disk _ s2).
    set (pg4 := Page.set_data _ pg2). set (s4 := store_page f pg4 s3).
    set (s5 := set_page_table _ s4).
    assert (Hp2 : forall h, page_at s2 h = if decide (h = f) then Some pg2 else page_at s1 h).
    { intros h. unfold s2. rewrite page_at_store_page; eauto. }
    assert (Hp4 : forall h, page_at s4 h = if decide (h = f) then Some pg4 else page_at s1 h).
    { intros h. unfold s4. rewrite page_at_store_page.
      - unfold s3. rewrite page_at_set_disk, Hp2. now destruct (decide (h = f)).
      - unfold s3. rewrite page_at_set_disk, Hp2.
        destruct (decide (f = f)); [eauto|congruence]. }
    rewrite page_at_set_replacer, page_at_store_page.
    - unfold s5. rewrite page_at_set_page_table, Hp4. now destruct (decide (g = f)).
    - unfold s5. rewrite page_at_set_page_table, Hp4.
      destruct (decide (f = f)); [eauto|congruence]. }
  eapply (install_inv s1 _ f p); eauto; try reflexivity.
  - unfold fetched_miss. simpl. now rewrite !length_insert.
  - rewrite Hpa. destruct (decide (f = f)); [reflexivity|congruence].
  - intros g Hg. rewrite Hpa. now destruct (decide (g = f)).
  - reflexivity.
  - reflexivity.
Qed.

(** [FetchPage] returns in every state of the invariant and keeps it;
    the frame it returns is pinned. *)
Lemma FetchPage_total s p :
  bpm_inv s ->
  exists res s', FetchPage p s = Ok (res, s') /\ bpm_inv s' /\
    next_page_id_ s' = next_page_id_ s /\
    forall f, res = Some f -> exists pg, page_at s' f = Some pg.
Proof.
  intros Hi. destruct (page_table_ s !! p) as [f|] eqn:Ht.
  - destruct (inv_table s Hi p f Ht) as (pg & Hp & _).
    assert (Hf : 0 <= f < pool_size_ s).
    { eapply page_at_range; eauto. apply Hi. }
    pose proof (frame_check_inv s f Hi Hf) as Hc.
    assert (Hr1 : exists r1,
              (if Page.pin_count_ pg =? 0
               then LRUKReplacer.SetEvictable f false (replacer_ s)
               else Ok (replacer_ s)) = Ok r1 /\
              LRUKReplacer.replacer_size_ r1 = LRUKReplacer.replacer_size_ (replacer_ s)).
    { destruct (Page.pin_count_ pg =? 0); [|eauto].
      destruct (ReplacerFacts.SetEvictable_ok f false (replacer_ s) Hc)
        as (r & Hr & _ & _ & Hrs & _). eauto. }
    destruct Hr1 as (r1 & H1 & Hrs1).
    assert (Hc1 : LRUKReplacer.frame_check r1 f = false).
    { unfold LRUKReplacer.frame_check in *. now rewrite Hrs1. }
    destruct (ReplacerFacts.RecordAccess_ok f r1 Hc1) as (r2 & H2 & _).
    rewrite (FetchPage_hit s p f pg r1 r2 Ht Hp H1 H2).
    eexists _, _. split; [reflexivity|].
    split; [eapply fetched_hit_inv; eauto|]. split; [reflexivity|].
    intros g Hg. inversion Hg; subst g. unfold fetched_hit.
    rewrite page_at_set_replacer, page_at_store_page
      by (rewrite page_at_set_replacer; eauto).
    destruct (decide (f = f)); [eauto|congruence].
  - destruct (obtain_frame_inv s Hi) as ([f|] & s1 & Ho & Hi1 & Hnx & Ha).
    + destruct (page_at_in_range s1 f (inv_pages s1 Hi1) (proj1 Ha)) as [pg Hp].
      destruct (FetchPage_replacer s1 f Hi1 Ha) as (r1 & r2 & n' & H1 & H2 & _).
      rewrite (FetchPage_miss_some s p s1 f pg r1 r2 Ht Ho Hp H1 H2).
      eexists _, _. split; [reflexivity|].
      assert (Hi' : bpm_inv (fetched_miss p f pg r2 s1))
        by (eapply fetched_miss_inv; eauto).
      split; [exact Hi'|]. split; [exact Hnx|].
      intros g Hg. inversion Hg; subst g.
      apply page_at_in_range; [apply Hi'|].
      destruct Ha as [Hf _]. exact Hf.
    + subst s1. rewrite (FetchPage_miss_none s p s Ht Ho).
      eexists _, _. split; [reflexivity|]. split; [exact Hi|].
      split; [reflexivity|]. discriminate.
Qed.

Lemma FetchPage_inv s p res s' :
  bpm_inv s -> FetchPage p s = Ok (res, s') -> bpm_inv s'.
Proof.
  intros Hi H. destruct (FetchPage_total s p Hi) as (res1 & s1 & H1 & Hi1 & _).
  congruence.
Qed.


End OpFacts.

(** ** Reachable states *)

Module ReachFacts.

Import BufferPoolManager Inv BpmFacts InvFacts OpFacts.

Lemma on_latch_inv s f op s' :
  bpm_inv s -> on_latch f op s = Ok (tt, s') -> bpm_inv s'.
Proof.
  intros Hi H. apply on_latch_Ok in H as (pg & l & Hp & ->).
  now apply store_page_inv with (pg := pg).
Qed.

Lemma forget_Ok {A : Type} (c : M A) s s' :
  forget c s = Ok (tt, s') -> exists a, c s = Ok (a, s').
Proof.
  unfold forget. intros H. apply bind_Ok in H as (a & s1 & H1 & H2).
  inversion H2; subst. eauto.
Qed.

Lemma FetchPageBasic_inv s p g s' :
  bpm_inv s -> Guarded.FetchPageBasic p s = Ok (g, s') -> bpm_inv s'.
Proof.
  intros Hi H. unfold Guarded.FetchPageBasic in H.
  apply bind_Ok in H as (res & s1 & H1 & H2).
  apply (FetchPage_inv s p res s1 Hi) in H1.
  destruct res; inversion H2; subst; exact H1.
Qed.

Lemma FetchPageRead_inv s p g s' :
  bpm_inv s -> Guarded.FetchPageRead p s = Ok (g, s') -> bpm_inv s'.
Proof.
  intros Hi H. unfold Guarded.FetchPageRead in H.
  apply bind_Ok in H as (res & s1 & H1 & H2).
  apply (FetchPage_inv s p res s1 Hi) in H1.
  destruct res as [f|]; [|inversion H2; subst; exact H1].
  apply bind_Ok in H2 as ([] & s2 & H2 & H3). inversion H3; subst.
  eapply on_latch_inv; eauto.
Qed.

Lemma FetchPageWrite_inv s p g s' :
  bpm_inv s -> Guarded.FetchPageWrite p s = Ok (g, s') -> bpm_inv s'.
Proof.
  intros Hi H. unfold Guarded.FetchPageWrite in H.
  apply bind_Ok in H as (res & s1 & H1 & H2).
  apply (FetchPage_inv s p res s1 Hi) in H1.
  destruct res as [f|]; [|inversion H2; subst; exact H1].
  apply bind_Ok in H2 as ([] & s2 & H2 & H3). inversion H3; subst.
  eapply on_latch_inv; eauto.
Qed.

Lemma NewPageGuarded_inv s g s' :
  bpm_inv s -> Guarded.NewPageGuarded s = Ok (g, s') -> bpm_inv s'.
Proof.
  intros Hi H. unfold Guarded.NewPageGuarded in H.
  apply bind_Ok in H as (res & s1 & H1 & H2).
  apply (NewPage_inv s res s1 Hi) in H1.
  destruct res as [[pid f]|]; inversion H2; subst; exact H1.
Qed.

(** Every operation that returns keeps the invariant. *)
Lemma exec_inv o s s' :
  bpm_inv s -> exec o s = Ok (tt, s') -> bpm_inv s'.
Proof.
  intros Hi H. destruct o; simpl in H.
  - apply forget_Ok in H as [a H]. eapply NewPage_inv; eauto.
  - apply forget_Ok in H as [a H]. eapply FetchPage_inv; eauto.
  - apply forget_Ok in H as [a H]. eapply UnpinPage_inv; eauto.
  - apply forget_Ok in H as [a H]. eapply FlushPage_inv; eauto.
  - unfold FlushAllPages in H. case_bool_decide; [|discriminate].
    now inversion H; subst.
  - apply forget_Ok in H as [a H]. eapply DeletePage_inv; eauto.
  - apply forget_Ok in H as [a H]. eapply FetchPageBasic_inv; eauto.
  - apply forget_Ok in H as [a H]. eapply FetchPageRead_inv; eauto.
  - apply forget_Ok in H as [a H]. eapply FetchPageWrite_inv; eauto.
  - apply forget_Ok in H as [a H]. eapply NewPageGuarded_inv; eauto.
  - eapply on_latch_inv; eauto.
  - eapply on_latch_inv; eauto.
  - eapply on_latch_inv; eauto.
  - eapply on_latch_inv; eauto.
Qed.

(** The invariant holds in every reachable state. *)
Lemma reachable_inv pool_size k s :
  0 < pool_size < 2 ^ 31 -> 0 < k ->
  reachable pool_size k s -> bpm_inv s.
Proof.
  intros Hp Hk Hr. induction Hr as [disk|s o s' Hr IH Hstep].
  - now apply bpm_inv_create.
  - eapply exec_inv; eauto.
Qed.

Lemma inv_pinned_non_evictable s : bpm_inv s -> pinned_non_evictable s.
Proof.
  intros Hi f pg Hp Hpin.
  destruct (inv_pin s Hi f pg Hp) as [_ Hn]. destruct (Hn Hpin) as [n Hnode].
  exists n. split; [exact Hnode|].
  destruct (inv_node s Hi f n Hnode) as (_ & _ & pg0 & Hp0 & Hev).
  assert (pg0 = pg) by congruence. subst pg0.
  destruct (LRUKNode.is_evictable_ n); [|reflexivity].
  assert (Page.pin_count_ pg = 0) by now apply Hev. lia.
Qed.

Lemma inv_evict_spares_pinned s : bpm_inv s -> evict_spares_pinned s.
Proof.
  intros Hi v r' He.
  destruct (Evict_inv_cases s Hi) as [Hn|(v' & r1 & n & pg & He' & _ & _ & Hp & Hpin & _)].
  - congruence.
  - assert (v' = v) by congruence. subst v'. eauto.
Qed.

End ReachFacts.

(** ** Sample pools are reachable *)

Module DemoFacts.

Import BufferPoolManager Inv.

Lemma run_ops_reachable pool_size k ops : forall s s',
  reachable pool_size k s -> run_ops ops s = Ok s' -> reachable pool_size k s'.
Proof.
  induction ops as [|o ops IH]; intros s s' Hr H; simpl in H.
  - now inversion H; subst.
  - apply obind_Ok in H as ([[] s1] & H1 & H2).
    eapply IH; [|exact H2]. eapply reach_step; eauto.
Qed.

Lemma after_reachable ops s :
  run_ops ops Demo.fresh = Ok s -> reachable 3 2 s.
Proof. apply run_ops_reachable. apply reach_create. Qed.

Lemma after_inv ops s :
  run_ops ops Demo.fresh = Ok s -> bpm_inv s.
Proof.
  intros H. apply (ReachFacts.reachable_inv 3 2); [lia|lia|].
  now apply after_reachable with (ops := ops).
Qed.

Lemma two_pages_reachable : reachable 3 2 Demo.two_pages.
Proof.
  apply after_reachable
    with (ops := [OpNewPage; OpNewPage; OpUnpinPage 0 true]).
  vm_compute. reflexivity.
Qed.

Lemma full_reachable : reachable 3 2 Demo.full.
Proof.
  apply after_reachable
    with (ops := [OpNewPage; OpNewPage; OpNewPage; OpUnpinPage 0 true;
                  OpUnpinPage 1 false; OpUnpinPage 2 false]).
  vm_compute. reflexivity.
Qed.

Lemma two_pages_inv : bpm_inv Demo.two_pages.
Proof.
  apply (ReachFacts.reachable_inv 3 2); [lia|lia|apply two_pages_reachable].
Qed.

Lemma full_inv : bpm_inv Demo.full.
Proof.
  apply (ReachFacts.reachable_inv 3 2); [lia|lia|apply full_reachable].
Qed.

End DemoFacts.

(** * The claims *)

(** C3. In every state reachable by a sequence of operations of the
    buffer pool manager, every frame with [pin_count_ > 0] has a node
    in the replacer that is marked non-evictable, and a frame [Evict]
    returns has [pin_count_ = 0]: a pinned frame is never the victim. *)
Theorem pinned_frames_never_evicted (pool_size k : Z) (s : BufferPoolManager.t) :
  0 < pool_size < 2 ^ 31 -> 0 < k ->
  Inv.reachable pool_size k s ->
  Inv.pinned_non_evictable s /\ Inv.evict_spares_pinned s.
Proof.
  intros Hp Hk Hr.
  pose proof (ReachFacts.reachable_inv pool_size k s Hp Hk Hr) as Hi.
  split.
  - now apply ReachFacts.inv_pinned_non_evictable.
  - now apply ReachFacts.inv_evict_spares_pinned.
Qed.

Lemma pinned_frames_never_evicted_witness :
  (0 < 3 < 2 ^ 31 /\ 0 < 2 /\ Inv.reachable 3 2 Demo.two_pages) /\
  (Inv.pinned_non_evictable Demo.two_pages /\ Inv.evict_spares_pinned Demo.two_pages).
Proof.
  split.
  - split; [lia|]. split; [lia|]. apply DemoFacts.two_pages_reachable.
  - apply (pinned_frames_never_evicted 3 2 Demo.two_pages); [lia|lia|].
    apply DemoFacts.two_pages_reachable.
Defined.



(** C6, evaluated on the code. The guard of [RecordAccess],
    [SetEvictable] and [Remove] is [frame_id > replacer_size_]: the three
    methods raise "Invalid frame id" exactly when the frame id is negative
    or strictly greater than [replacer_size_], so the frame id
    [replacer_size_], which is outside [0, replacer_size_), is accepted by
    all three. *)
Theorem frame_check_accepts_replacer_size (r : LRUKReplacer.t) (b : bool) :
  0 <= LRUKReplacer.replacer_size_ r < 2 ^ 63 ->
  (returns (LRUKReplacer.RecordAccess (LRUKReplacer.replacer_size_ r) r) /\
   ~ is_throw (LRUKReplacer.SetEvictable (LRUKReplacer.replacer_size_ r) b r)
       LRUKReplacer.INVALID_FRAME /\
   ~ is_throw (LRUKReplacer.Remove (LRUKReplacer.replacer_size_ r) r)
       LRUKReplacer.INVALID_FRAME) /\
  forall f, - 2 ^ 63 <= f < 2 ^ 63 ->
    (is_throw (LRUKReplacer.RecordAccess f r) LRUKReplacer.INVALID_FRAME
     <-> f < 0 \/ LRUKReplacer.replacer_size_ r < f) /\
    (is_throw (LRUKReplacer.SetEvictable f b r) LRUKReplacer.INVALID_FRAME
     <-> f < 0 \/ LRUKReplacer.replacer_size_ r < f) /\
    (is_throw (LRUKReplacer.Remove f r) LRUKReplacer.INVALID_FRAME
     <-> f < 0 \/ LRUKReplacer.replacer_size_ r < f).
Proof.
  intros Hr.
  assert (Hgen : forall f, - 2 ^ 63 <= f < 2 ^ 63 ->
    (is_throw (LRUKReplacer.RecordAccess f r) LRUKReplacer.INVALID_FRAME
     <-> f < 0 \/ LRUKReplacer.replacer_size_ r < f) /\
    (is_throw (LRUKReplacer.SetEvictable f b r) LRUKReplacer.INVALID_FRAME
     <-> f < 0 \/ LRUKReplacer.replacer_size_ r < f) /\
    (is_throw (LRUKReplacer.Remove f r) LRUKReplacer.INVALID_FRAME
     <-> f < 0 \/ LRUKReplacer.replacer_size_ r < f)).
  { intros f Hf.
    rewrite <- (ReplacerFacts.frame_check_true_iff r f Hf Hr).
    unfold is_throw, LRUKReplacer.RecordAccess, LRUKReplacer.SetEvictable,
      LRUKReplacer.Remove.
    destruct (LRUKReplacer.frame_check r f).
    - repeat split; reflexivity.
    - repeat split; try discriminate.
      + destruct (LRUKReplacer.node_store_ r !! f); [|discriminate].
        case_bool_decide; discriminate.
      + destruct (LRUKReplacer.node_store_ r !! f) as [n|]; [|discriminate].
        destruct (negb (LRUKNode.is_evictable_ n)); [|discriminate].
        intros H. inversion H. }
  split; [|exact Hgen].
  destruct (Hgen (LRUKReplacer.replacer_size_ r)) as (H1 & H2 & H3); [lia|].
  split; [|split].
  - unfold returns. unfold is_throw in H1.
    destruct (ReplacerFacts.RecordAccess_ok (LRUKReplacer.replacer_size_ r) r)
      as (r' & Hr' & _); [|eauto].
    apply ReplacerFacts.frame_check_in_range; unfold SIZE_MAX; lia.
  - rewrite H2. lia.
  - rewrite H3. lia.
Qed.

Lemma frame_check_accepts_replacer_size_witness :
  0 <= LRUKReplacer.replacer_size_ (LRUKReplacer.create 7 2) < 2 ^ 63 /\
  returns (LRUKReplacer.RecordAccess 7 (LRUKReplacer.create 7 2)).
Proof.
  split; [simpl; lia|].
  apply (frame_check_accepts_replacer_size (LRUKReplacer.create 7 2) true).
  simpl; lia.
Defined.

(** C2, evaluated on the code. The move constructor of [BasicPageGuard]
    only clears the two pointers of its source: the guard it constructs
    is the empty guard whatever the source held, so the manager
    reference, the frame reference and the dirty flag of a live source are
    lost, both guards are empty afterwards and dropping either one does
    not unpin. *)
Theorem move_construct_loses_ownership (g : BasicPageGuard.t) :
  let '(h, g') := BasicPageGuard.move_construct g in
  h = BasicPageGuard.empty /\
  BasicPageGuard.is_empty h = true /\
  BasicPageGuard.is_empty g' = true /\
  (forall s, BasicPageGuard.Drop h s = Ok (h, s)) /\
  (forall s, BasicPageGuard.Drop g' s = Ok (g', s)).
Proof.
  unfold BasicPageGuard.move_construct. repeat split.
Qed.

(** C1, evaluated on the code. The constructors
    [ReadPageGuard(bpm, page)] and [WritePageGuard(bpm, page)] ignore
    their arguments, so the guard [FetchPageRead] or [FetchPageWrite]
    returns is always the empty guard and dropping it changes nothing; on
    a fresh pool [FetchPageRead(0)] leaves frame 0 with [pin_count_ = 1]
    and one reader on its latch, before and after the guard is dropped. *)
Theorem fetched_guard_is_empty :
  (forall p s g s', Guarded.FetchPageRead p s = Ok (g, s') ->
     g = ReadPageGuard.empty /\ ReadPageGuard.Drop g s' = Ok (g, s')) /\
  (forall p s g s', Guarded.FetchPageWrite p s = Ok (g, s') ->
     g = WritePageGuard.empty /\ WritePageGuard.Drop g s' = Ok (g, s')) /\
  (exists g s' pg,
     Guarded.FetchPageRead 0 Demo.fresh = Ok (g, s') /\
     BasicPageGuard.is_empty (ReadPageGuard.guard_ g) = true /\
     ReadPageGuard.Drop g s' = Ok (g, s') /\
     Inv.page_at s' 0 = Some pg /\
     Page.page_id_ pg = 0 /\ Page.pin_count_ pg = 1 /\
     Page.readers_ (Page.rwlatch_ pg) = 1%nat).
Proof.
  split; [|split].
  - intros p s g s' H. unfold Guarded.FetchPageRead in H.
    apply BpmFacts.bind_Ok in H as (res & s1 & _ & H).
    destruct res as [f|].
    + apply BpmFacts.bind_Ok in H as ([] & s2 & _ & H).
      inversion H; subst. split; reflexivity.
    + inversion H; subst. split; reflexivity.
  - intros p s g s' H. unfold Guarded.FetchPageWrite in H.
    apply BpmFacts.bind_Ok in H as (res & s1 & _ & H).
    destruct res as [f|].
    + apply BpmFacts.bind_Ok in H as ([] & s2 & _ & H).
      inversion H; subst. split; reflexivity.
    + inversion H; subst. split; reflexivity.
  - destruct (Guarded.FetchPageRead 0 Demo.fresh) as [[g s']| | |] eqn:E;
      try (vm_compute in E; discriminate).
    destruct (Inv.page_at s' 0) as [pg|] eqn:Ep.
    + exists g, s', pg. split; [reflexivity|].
      vm_compute in E. inversion E; subst. clear E.
      vm_compute in Ep. inversion Ep; subst. clear Ep.
      repeat split.
    + vm_compute in E. inversion E; subst. vm_compute in Ep. discriminate.
Qed.

Lemma fetched_guard_is_empty_witness :
  Guarded.FetchPageRead 0 Demo.fresh = Ok (ReadPageGuard.empty, Demo.read_fetched) /\
  (ReadPageGuard.empty = ReadPageGuard.empty /\
   ReadPageGuard.Drop ReadPageGuard.empty Demo.read_fetched
   = Ok (ReadPageGuard.empty, Demo.read_fetched)).
Proof.
  split; [vm_compute; reflexivity|].
  apply (proj1 fetched_guard_is_empty 0 Demo.fresh).
  vm_compute. reflexivity.
Defined.

(** ** The selection rule of [Evict] *)

Module EvictFacts.

Import LRUKNode LRUKReplacer Scan ScanFacts ReplacerFacts.

Lemma replacer_ok_b_sound r : Spec.replacer_ok_b r = true -> Spec.replacer_ok r.
Proof.
  unfold Spec.replacer_ok_b. rewrite !andb_true_iff.
  intros (((((H1 & H2) & H3) & H4) & H5) & H6).
  constructor.
  - lia.
  - intros f n Hn. rewrite forallb_forall in H3.
    assert (Hin : In (f, n) (map_to_list (node_store_ r))).
    { apply list_elem_of_In. now apply elem_of_map_to_list. }
    specialize (H3 _ Hin). simpl in H3. unfold Spec.node_ok_b in H3.
    destruct (history_ n) as [|t0 h] eqn:E; [discriminate|].
    split; [discriminate|]. rewrite forallb_forall in H3.
    apply Forall_forall. intros ts Hts. apply list_elem_of_In in Hts.
    specialize (H3 ts Hts). lia.
  - lia.
  - unfold in_size_t. lia.
Qed.

(** Under [replacer_ok] the k-distance of the loop is the one of the
    specification, [SIZE_MAX] standing for +∞. *)
Lemma code_kd_spec r n :
  0 <= current_timestamp_ r < SIZE_MAX ->
  history_ n <> [] ->
  Forall (fun ts => 0 <= ts <= current_timestamp_ r) (history_ n) ->
  (Spec.k_distance r n = Spec.Finite (code_kd r n) /\
   code_kd r n = current_timestamp_ r - Spec.front n /\
   0 <= code_kd r n < SIZE_MAX) \/
  (Spec.k_distance r n = Spec.Infinite /\ code_kd r n = SIZE_MAX).
Proof.
  intros Hc Hh Hr. unfold Spec.k_distance, code_kd, k_distance, Spec.front.
  destruct (history_ n) as [|t0 h] eqn:E; [congruence|]. simpl hd.
  apply Forall_cons in Hr as [Ht0 _].
  case_bool_decide as Hk.
  - left. apply Z.leb_le in Hk. rewrite Hk.
    rewrite size_t_wrap_small by lia. repeat split; lia.
  - right.
    assert (Hk' : (k_ r <=? Z.of_nat (length (t0 :: h))) = false)
      by (apply Z.leb_gt; lia).
    now rewrite Hk'.
Qed.

Lemma not_beats_spec r n nv :
  0 <= current_timestamp_ r < SIZE_MAX ->
  history_ n <> [] ->
  Forall (fun ts => 0 <= ts <= current_timestamp_ r) (history_ n) ->
  history_ nv <> [] ->
  Forall (fun ts => 0 <= ts <= current_timestamp_ r) (history_ nv) ->
  ~ beats (code_kd r n) (Spec.front n) (code_kd r nv) (Spec.front nv) ->
  Spec.distance_le (Spec.k_distance r n) (Spec.k_distance r nv) /\
  (Spec.k_distance r n = Spec.k_distance r nv -> Spec.front nv <= Spec.front n).
Proof.
  intros Hc Hh Hr Hhv Hrv Hnb. unfold beats in Hnb.
  destruct (code_kd_spec r n Hc Hh Hr) as [(E1 & E2 & E3)|(E1 & E2)];
    destruct (code_kd_spec r nv Hc Hhv Hrv) as [(F1 & F2 & F3)|(F1 & F2)];
    rewrite E1, F1; simpl.
  - split; [lia|]. intros H. inversion H. lia.
  - split; [exact I|discriminate].
  - split; [lia|discriminate].
  - split; [exact I|]. intros _. lia.
Qed.

Lemma evictable_count_pos r f n :
  Spec.evictable_in r f n -> 1 <= Spec.evictable_count r.
Proof.
  intros [Hn He]. unfold Spec.evictable_count.
  assert (size (filter (fun kv : Z * LRUKNode.t => is_evictable_ kv.2 = true)
                  (node_store_ r)) <> 0%nat); [|lia].
  apply map_size_ne_0_lookup_2 with (i := f). exists n.
  now apply map_lookup_filter_Some.
Qed.

Lemma evictable_count_evicted r v n :
  Spec.evictable_in r v n ->
  Spec.evictable_count (Spec.evicted v r) = Spec.evictable_count r - 1.
Proof.
  intros [Hn He]. pose proof (evictable_count_pos r v n (conj Hn He)) as Hpos.
  unfold Spec.evictable_count in *. simpl.
  rewrite map_filter_delete, map_size_delete_Some.
  - lia.
  - exists n. now apply map_lookup_filter_Some.
Qed.

Lemma evicted_ok r v n :
  Spec.replacer_ok r -> Spec.evictable_in r v n ->
  Spec.replacer_ok (Spec.evicted v r).
Proof.
  intros [Hc Hh Hs Hsr] Hev.
  pose proof (evictable_count_pos r v n Hev) as Hpos.
  constructor; simpl.
  - exact Hc.
  - intros f m Hm. apply lookup_delete_Some in Hm as [_ Hm]. now apply (Hh f).
  - rewrite (evictable_count_evicted r v n Hev). lia.
  - unfold in_size_t in *. lia.
Qed.

(** The rule of [Evict], for every order in which the nodes can be
    enumerated. *)
Lemma Evict_in_order_spec r entries :
  Spec.replacer_ok r ->
  entries ≡ₚ map_to_list (node_store_ r) ->
  (Spec.no_evictable r /\ Evict_in_order entries r = Ok (None, r)) \/
  (exists v, Spec.lruk_victim r v /\
     Evict_in_order entries r = Ok (Some v, Spec.evicted v r) /\
     Spec.replacer_ok (Spec.evicted v r)).
Proof.
  intros Hok Hp. pose proof Hok as [Hc Hh Hs Hsr].
  assert (Hmem : forall f n, (f, n) ∈ entries <-> node_store_ r !! f = Some n).
  { intros f n. rewrite Hp. apply elem_of_map_to_list. }
  assert (Hdef : fronts_defined entries).
  { intros f n Hin _. apply Hmem in Hin. now destruct (Hh f n Hin). }
  destruct (Evict_in_order_result r entries Hdef) as (acc & [Hmax Hv] & Heq).
  rewrite Heq. destruct (victim acc) as [v|].
  - right. exists v. destruct Hv as (nv & Hin & He & Hmx & Hold).
    apply Hmem in Hin.
    assert (Hevv : Spec.evictable_in r v nv) by (split; assumption).
    split; [|split].
    + exists nv. split; [exact Hevv|].
      intros f n [Hn Hen]. destruct (Hh f n Hn) as [Hhn Hrn].
      destruct (Hh v nv Hin) as [Hhv Hrv].
      apply not_beats_spec; auto.
      rewrite <- Hmx, <- Hold. apply (Hmax f n); [now apply Hmem|exact Hen].
    + unfold Spec.evicted. do 3 f_equal.
      apply size_t_wrap_small.
      pose proof (evictable_count_pos r v nv Hevv). unfold in_size_t in Hsr. lia.
    + now apply evicted_ok with (n := nv).
  - left. split; [|reflexivity]. destruct Hv as [Hmx Hold].
    rewrite Hmx, Hold in Hmax.
    intros f n Hn. destruct (is_evictable_ n) eqn:He; [|reflexivity].
    exfalso. apply (Hmax f n); [now apply Hmem|exact He|].
    destruct (Hh f n Hn) as [Hhn Hrn].
    apply beats_initial; auto.
    eapply Forall_impl; [exact Hrn|]. intros ts Hts. unfold in_size_t. simpl in Hts. lia.
Qed.

End EvictFacts.

(** C5. For every replacer state that satisfies [replacer_ok] and every
    order in which the loop of [Evict] enumerates [node_store_] (the order
    of [Evict] itself is one of them): when no node is evictable [Evict]
    returns nothing and leaves the replacer as it is; when some node is
    evictable it returns a frame [v] that is evictable and of maximal
    k-distance among the evictable nodes, where the k-distance is
    [current_timestamp - history.front()] for a history of at least [K]
    entries and +∞ otherwise, and that has the smallest
    [history.front()] among the evictable nodes with that k-distance; the
    node of [v] is erased, [curr_size_] is one less and still counts the
    evictable nodes. *)
Theorem Evict_selects_lruk_victim (r : LRUKReplacer.t) (entries : list (Z * LRUKNode.t)) :
  Spec.replacer_ok r ->
  entries ≡ₚ map_to_list (LRUKReplacer.node_store_ r) ->
  (Spec.no_evictable r -> LRUKReplacer.Evict_in_order entries r = Ok (None, r)) /\
  (forall f n, Spec.evictable_in r f n ->
     exists v, Spec.lruk_victim r v /\
       LRUKReplacer.Evict_in_order entries r = Ok (Some v, Spec.evicted v r) /\
       Spec.replacer_ok (Spec.evicted v r)).
Proof.
  intros Hok Hp.
  destruct (EvictFacts.Evict_in_order_spec r entries Hok Hp)
    as [[Hno He]|(v & Hv & He & Hok')].
  - split; [intros _; exact He|].
    intros f n [Hn Hev]. rewrite (Hno f n Hn) in Hev. discriminate.
  - split; [|intros f n _; exists v; auto].
    intros Hno. destruct Hv as (nv & [Hn Hev] & _).
    rewrite (Hno v nv Hn) in Hev. discriminate.
Qed.

Lemma Evict_selects_lruk_victim_witness :
  (Spec.replacer_ok ScenarioS1.replacer /\
   map_to_list (LRUKReplacer.node_store_ ScenarioS1.replacer)
   ≡ₚ map_to_list (LRUKReplacer.node_store_ ScenarioS1.replacer)) /\
  ((Spec.no_evictable ScenarioS1.replacer ->
    LRUKReplacer.Evict ScenarioS1.replacer = Ok (None, ScenarioS1.replacer)) /\
   (forall f n, Spec.evictable_in ScenarioS1.replacer f n ->
      exists v, Spec.lruk_victim ScenarioS1.replacer v /\
        LRUKReplacer.Evict ScenarioS1.replacer
        = Ok (Some v, Spec.evicted v ScenarioS1.replacer) /\
        Spec.replacer_ok (Spec.evicted v ScenarioS1.replacer))).
Proof.
  split.
  - split; [|reflexivity].
    apply EvictFacts.replacer_ok_b_sound. vm_compute. reflexivity.
  - apply (Evict_selects_lruk_victim ScenarioS1.replacer
             (map_to_list (LRUKReplacer.node_store_ ScenarioS1.replacer))).
    + apply EvictFacts.replacer_ok_b_sound. vm_compute. reflexivity.
    + reflexivity.
Defined.

(** ** The contracts of [FlushPage], [UnpinPage], [DeletePage], [NewPage] *)

Module ContractFacts.

Import BufferPoolManager Inv Post BpmFacts InvFacts OpFacts.

Lemma page_at_flushed s p f pg g :
  page_at s f = Some pg ->
  page_at (flushed p f pg s) g
  = if decide (g = f) then Some (Page.set_is_dirty false pg) else page_at s g.
Proof.
  intros Hp. unfold flushed, written. rewrite page_at_store_page; eauto.
Qed.

(** The frame of a pinned page has a node, and it is not evictable. *)
Lemma pinned_node s f pg :
  bpm_inv s -> page_at s f = Some pg -> 0 < Page.pin_count_ pg ->
  exists n, node_at s f = Some n /\ LRUKNode.is_evictable_ n = false.
Proof. intros Hi. apply (ReachFacts.inv_pinned_non_evictable s Hi). Qed.

Lemma UnpinPage_pinned_run s p d f pg n :
  bpm_inv s ->
  page_table_ s !! p = Some f -> page_at s f = Some pg ->
  0 < Page.pin_count_ pg ->
  node_at s f = Some n -> LRUKNode.is_evictable_ n = false ->
  UnpinPage p d s = Ok (true, unpinned d f pg n s).
Proof.
  intros Hi Ht Hp Hpin Hn He. unfold unpinned.
  apply UnpinPage_pinned; auto.
  unfold unpinned_replacer.
  destruct (Page.pin_count_ pg - 1 =? 0); [|reflexivity].
  assert (Hf : 0 <= f < pool_size_ s).
  { eapply page_at_range; eauto. apply Hi. }
  unfold LRUKReplacer.SetEvictable.
  rewrite (frame_check_inv s f Hi Hf). unfold node_at in Hn. rewrite Hn.
  rewrite He. reflexivity.
Qed.

Lemma page_at_unpinned s d f pg n g :
  page_at s f = Some pg ->
  page_at (unpinned d f pg n s) g
  = if decide (g = f) then Some (unpinned_page d pg) else page_at s g.
Proof.
  intros Hp. unfold unpinned.
  rewrite page_at_set_replacer, page_at_store_page; eauto.
Qed.

Lemma node_at_unpinned s d f pg n g :
  node_at s f = Some n -> LRUKNode.is_evictable_ n = false ->
  node_at (unpinned d f pg n s) g
  = if decide (g = f)
    then Some (LRUKNode.set_is_evictable (Page.pin_count_ pg - 1 =? 0) n)
    else node_at s g.
Proof.
  intros Hn He. unfold unpinned, unpinned_replacer, node_at in *. simpl.
  destruct (Page.pin_count_ pg - 1 =? 0) eqn:E; simpl.
  - destruct (decide (g = f)) as [->|Hne].
    + apply lookup_insert_eq.
    + now apply lookup_insert_ne.
  - destruct (decide (g = f)) as [->|Hne]; [|reflexivity].
    rewrite Hn. f_equal. symmetry.
    now apply ReplacerFacts.set_is_evictable_same.
Qed.

End ContractFacts.

(** C9. In a state of the invariant, [FlushPage(p)] returns [false] and
    changes nothing when [p] is not resident. When [p] is resident in
    frame [f] it returns [true]; a write request carrying the bytes of the
    frame for page [p] is scheduled whatever [is_dirty_] was, so the disk
    holds these bytes for [p]; afterwards the frame has
    [is_dirty_ = false] and the page id, pin count, bytes and latch it
    had; the page table, the free list, the replacer, the page-id counter
    and all other frames are as before. *)
Theorem FlushPage_spec (s : BufferPoolManager.t) (p : Z) :
  Inv.bpm_inv s ->
  (BufferPoolManager.page_table_ s !! p = None ->
     BufferPoolManager.FlushPage p s = Ok (false, s)) /\
  (forall f, BufferPoolManager.page_table_ s !! p = Some f ->
     exists pg s',
       Inv.page_at s f = Some pg /\
       BufferPoolManager.FlushPage p s = Ok (true, s') /\
       Disk.log (BufferPoolManager.disk_ s')
       = Disk.log (BufferPoolManager.disk_ s)
         ++ [{| Disk.is_write_ := true; Disk.data_ := Page.data_ pg;
                Disk.page_id_ := p |}] /\
       Disk.blocks (BufferPoolManager.disk_ s') !! p = Some (Page.data_ pg) /\
       Inv.page_at s' f = Some (Page.set_is_dirty false pg) /\
       (exists pg', Inv.page_at s' f = Some pg' /\
          Page.is_dirty_ pg' = false /\
          Page.page_id_ pg' = p /\ Page.page_id_ pg = p /\
          Page.pin_count_ pg' = Page.pin_count_ pg /\
          Page.data_ pg' = Page.data_ pg /\
          Page.rwlatch_ pg' = Page.rwlatch_ pg) /\
       (forall g, g <> f -> Inv.page_at s' g = Inv.page_at s g) /\
       BufferPoolManager.page_table_ s' = BufferPoolManager.page_table_ s /\
       BufferPoolManager.page_table_ s' !! p = Some f /\
       BufferPoolManager.free_list_ s' = BufferPoolManager.free_list_ s /\
       BufferPoolManager.replacer_ s' = BufferPoolManager.replacer_ s /\
       BufferPoolManager.next_page_id_ s' = BufferPoolManager.next_page_id_ s).
Proof.
  intros Hi. split.
  - apply OpFacts.FlushPage_absent.
  - intros f Ht. destruct (Inv.inv_table s Hi p f Ht) as (pg & Hp & Hid).
    exists pg, (Post.flushed p f pg s).
    split; [exact Hp|].
    split; [now apply OpFacts.FlushPage_resident|].
    split; [reflexivity|].
    split; [simpl; apply lookup_insert_eq|].
    assert (Hpf : Inv.page_at (Post.flushed p f pg s) f
                  = Some (Page.set_is_dirty false pg)).
    { rewrite ContractFacts.page_at_flushed by exact Hp.
      now destruct (decide (f = f)). }
    split; [exact Hpf|].
    split.
    { exists (Page.set_is_dirty false pg). split; [exact Hpf|].
      split; [reflexivity|]. split; [exact Hid|]. split; [exact Hid|].
      split; [reflexivity|]. split; reflexivity. }
    split.
    { intros g Hg. rewrite ContractFacts.page_at_flushed by exact Hp.
      now destruct (decide (g = f)). }
    split; [reflexivity|]. split; [exact Ht|]. repeat split.
Qed.

Lemma FlushPage_spec_witness :
  Inv.bpm_inv Demo.two_pages /\
  BufferPoolManager.page_table_ Demo.two_pages !! 0 = Some 0 /\
  exists pg s' pg',
    Inv.page_at Demo.two_pages 0 = Some pg /\
    BufferPoolManager.FlushPage 0 Demo.two_pages = Ok (true, s') /\
    Inv.page_at s' 0 = Some (Page.set_is_dirty false pg) /\
    Inv.page_at s' 0 = Some pg' /\ Page.is_dirty_ pg' = false.
Proof.
  split; [apply DemoFacts.two_pages_inv|].
  split; [vm_compute; reflexivity|].
  destruct (proj2 (FlushPage_spec Demo.two_pages 0 DemoFacts.two_pages_inv) 0)
    as (pg & s' & H1 & H2 & _ & _ & H3 & (pg' & H4 & H5 & _) & _).
  - vm_compute. reflexivity.
  - exists pg, s', pg'. auto.
Defined.

(** C8. In a state of the invariant, [UnpinPage(p, d)] returns [false] and
    changes nothing when [p] is not resident or the pin count of its frame
    is 0. Otherwise it returns [true]; the pin count of the frame is one
    less and its dirty flag is [d || is_dirty_]; the node of the frame,
    which was not evictable, is evictable afterwards exactly when the pin
    count has reached zero; nothing else changes. Hence a dirty flag stays
    set through any [UnpinPage], and after [UnpinPage(p, false)] and
    [UnpinPage(p, true)] that both return [true] the flag is set. *)
Theorem UnpinPage_spec (s : BufferPoolManager.t) (p : Z) (d : bool) :
  Inv.bpm_inv s ->
  (BufferPoolManager.page_table_ s !! p = None ->
     BufferPoolManager.UnpinPage p d s = Ok (false, s)) /\
  (forall f, BufferPoolManager.page_table_ s !! p = Some f ->
     exists pg, Inv.page_at s f = Some pg /\ 0 <= Page.pin_count_ pg /\
       (Page.pin_count_ pg = 0 ->
          BufferPoolManager.UnpinPage p d s = Ok (false, s)) /\
       (Page.pin_count_ pg <> 0 ->
          exists n s',
            BufferPoolManager.UnpinPage p d s = Ok (true, s') /\
            Inv.page_at s' f
            = Some (Page.set_pin_count (Page.pin_count_ pg - 1)
                      (Page.set_is_dirty (d || Page.is_dirty_ pg) pg)) /\
            Inv.node_at s f = Some n /\ LRUKNode.is_evictable_ n = false /\
            Inv.node_at s' f
            = Some (LRUKNode.set_is_evictable (Page.pin_count_ pg - 1 =? 0) n) /\
            (forall g, g <> f ->
               Inv.page_at s' g = Inv.page_at s g /\
               Inv.node_at s' g = Inv.node_at s g) /\
            BufferPoolManager.page_table_ s' = BufferPoolManager.page_table_ s /\
            BufferPoolManager.free_list_ s' = BufferPoolManager.free_list_ s /\
            BufferPoolManager.disk_ s' = BufferPoolManager.disk_ s /\
            BufferPoolManager.next_page_id_ s' = BufferPoolManager.next_page_id_ s)) /\
  (forall b s' f pg,
     BufferPoolManager.UnpinPage p d s = Ok (b, s') ->
     Inv.page_at s f = Some pg -> Page.is_dirty_ pg = true ->
     exists pg', Inv.page_at s' f = Some pg' /\ Page.is_dirty_ pg' = true) /\
  (forall s1 s2,
     BufferPoolManager.UnpinPage p false s = Ok (true, s1) ->
     BufferPoolManager.UnpinPage p true s1 = Ok (true, s2) ->
     exists f pg2,
       BufferPoolManager.page_table_ s2 !! p = Some f /\
       Inv.page_at s2 f = Some pg2 /\ Page.is_dirty_ pg2 = true).
Proof.
  intros Hi.
  (* every call, resolved *)
  assert (Hrun : forall (t : BufferPoolManager.t) (e : bool), Inv.bpm_inv t ->
            (BufferPoolManager.page_table_ t !! p = None /\
             BufferPoolManager.UnpinPage p e t = Ok (false, t)) \/
            (exists f pg, BufferPoolManager.page_table_ t !! p = Some f /\
               Inv.page_at t f = Some pg /\ Page.pin_count_ pg = 0 /\
               BufferPoolManager.UnpinPage p e t = Ok (false, t)) \/
            (exists f pg n, BufferPoolManager.page_table_ t !! p = Some f /\
               Inv.page_at t f = Some pg /\ 0 < Page.pin_count_ pg /\
               Inv.node_at t f = Some n /\ LRUKNode.is_evictable_ n = false /\
               BufferPoolManager.UnpinPage p e t = Ok (true, Post.unpinned e f pg n t))).
  { intros t e Ht.
    destruct (BufferPoolManager.page_table_ t !! p) as [f|] eqn:Hl.
    - right. destruct (Inv.inv_table t Ht p f Hl) as (pg & Hp & _).
      destruct (Inv.inv_pin t Ht f pg Hp) as [Hpin _].
      destruct (Z.eq_dec (Page.pin_count_ pg) 0) as [Hz|Hnz].
      + left. exists f, pg. repeat split; auto.
        apply (OpFacts.UnpinPage_unpinned t p e f pg); auto. lia.
      + right. destruct (ContractFacts.pinned_node t f pg Ht Hp) as (n & Hn & He); [lia|].
        exists f, pg, n. repeat split; auto; [lia|].
        apply ContractFacts.UnpinPage_pinned_run; auto. lia.
    - left. split; [reflexivity|]. now apply OpFacts.UnpinPage_absent. }
  split; [apply OpFacts.UnpinPage_absent|].
  split; [|split].
  - intros f Ht. destruct (Inv.inv_table s Hi p f Ht) as (pg & Hp & _).
    destruct (Inv.inv_pin s Hi f pg Hp) as [Hpin _].
    exists pg. split; [exact Hp|]. split; [exact Hpin|]. split.
    + intros Hz. apply (OpFacts.UnpinPage_unpinned s p d f pg); auto. lia.
    + intros Hnz.
      destruct (ContractFacts.pinned_node s f pg Hi Hp) as (n & Hn & He); [lia|].
      exists n, (Post.unpinned d f pg n s).
      split; [apply ContractFacts.UnpinPage_pinned_run; auto; lia|].
      split.
      { rewrite ContractFacts.page_at_unpinned by exact Hp.
        now destruct (decide (f = f)). }
      split; [exact Hn|]. split; [exact He|]. split.
      { rewrite ContractFacts.node_at_unpinned by assumption.
        now destruct (decide (f = f)). }
      split.
      { intros g Hg.
        rewrite ContractFacts.page_at_unpinned by exact Hp.
        rewrite ContractFacts.node_at_unpinned by assumption.
        now destruct (decide (g = f)). }
      repeat split.
  - intros b s' f pg Hu Hp Hd.
    destruct (Hrun s d Hi) as [[_ H]|[(f0 & pg0 & _ & _ & _ & H)|(f0 & pg0 & n & _ & Hp0 & _ & _ & _ & H)]];
      rewrite H in Hu; inversion Hu; subst; eauto.
    rewrite ContractFacts.page_at_unpinned by exact Hp0.
    destruct (decide (f = f0)) as [->|Hne]; [|eauto].
    assert (pg0 = pg) by congruence. subst pg0.
    eexists. split; [reflexivity|]. simpl. rewrite Hd. apply orb_true_r.
  - intros s1 s2 H1 H2.
    destruct (Hrun s false Hi) as [[_ H]|[(f0 & pg0 & _ & _ & _ & H)|(f & pg & n & Ht & Hp & Hpin & Hn & He & H)]];
      rewrite H in H1; inversion H1; subst; clear H1.
    assert (Hi1 : Inv.bpm_inv (Post.unpinned false f pg n s)).
    { eapply OpFacts.UnpinPage_inv; eauto. }
    destruct (Hrun _ true Hi1) as [[_ H']|[(f0 & pg0 & _ & _ & _ & H')|(f1 & pg1 & n1 & Ht1 & Hp1 & Hpin1 & Hn1 & He1 & H')]];
      rewrite H' in H2; inversion H2; subst; clear H2.
    exists f1. eexists. split; [exact Ht1|].
    rewrite ContractFacts.page_at_unpinned by exact Hp1.
    destruct (decide (f1 = f1)); [|congruence].
    split; reflexivity.
Qed.

Lemma UnpinPage_spec_witness :
  Inv.bpm_inv Demo.two_pages /\
  BufferPoolManager.page_table_ Demo.two_pages !! 1 = Some 1 /\
  exists pg,
    Inv.page_at Demo.two_pages 1 = Some pg /\ 0 <= Page.pin_count_ pg.
Proof.
  split; [apply DemoFacts.two_pages_inv|].
  split; [vm_compute; reflexivity|].
  destruct (proj1 (proj2 (UnpinPage_spec Demo.two_pages 1 true
                            DemoFacts.two_pages_inv)) 1)
    as (pg & H1 & H2 & _).
  - vm_compute. reflexivity.
  - exists pg. auto.
Defined.

(** C10. In a state of the invariant, [DeletePage(p)] returns [true] and
    changes nothing when [p] is not resident, and returns [false] and
    changes nothing when [p] is resident in a frame with [pin_count_ > 0].
    Otherwise it returns [true]: the node of the frame is removed from the
    replacer, the page-table entry of [p] is erased, the frame holds
    [page_id_ = INVALID_PAGE_ID], [is_dirty_ = false], zeroed bytes and
    the pin count 0 and latch it had, and the frame is appended to the
    free list; the other frames and nodes and the disk are as before. *)
Theorem DeletePage_spec (s : BufferPoolManager.t) (p : Z) :
  Inv.bpm_inv s ->
  (BufferPoolManager.page_table_ s !! p = None ->
     BufferPoolManager.DeletePage p s = Ok (true, s)) /\
  (forall f, BufferPoolManager.page_table_ s !! p = Some f ->
     exists pg, Inv.page_at s f = Some pg /\ 0 <= Page.pin_count_ pg /\
       (0 < Page.pin_count_ pg ->
          BufferPoolManager.DeletePage p s = Ok (false, s)) /\
       (Page.pin_count_ pg = 0 ->
          exists r' s',
            LRUKReplacer.Remove f (BufferPoolManager.replacer_ s) = Ok r' /\
            BufferPoolManager.DeletePage p s = Ok (true, s') /\
            BufferPoolManager.replacer_ s' = r' /\
            Inv.node_at s' f = None /\
            BufferPoolManager.page_table_ s'
            = delete p (BufferPoolManager.page_table_ s) /\
            BufferPoolManager.page_table_ s' !! p = None /\
            Inv.page_at s' f
            = Some (Page.set_is_dirty false
                      (Page.set_page_id Page.INVALID_PAGE_ID (Page.ResetMemory pg))) /\
            (exists pg', Inv.page_at s' f = Some pg' /\
               Page.page_id_ pg' = Page.INVALID_PAGE_ID /\
               Page.page_id_ pg' = -1 /\
               Page.is_dirty_ pg' = false /\
               Page.data_ pg' = Page.zero_data /\
               Page.pin_count_ pg' = 0 /\
               Page.rwlatch_ pg' = Page.rwlatch_ pg) /\
            BufferPoolManager.free_list_ s'
            = BufferPoolManager.free_list_ s ++ [f] /\
            f ∈ BufferPoolManager.free_list_ s' /\
            (forall g, g <> f ->
               Inv.page_at s' g = Inv.page_at s g /\
               Inv.node_at s' g = Inv.node_at s g) /\
            BufferPoolManager.disk_ s' = BufferPoolManager.disk_ s /\
            BufferPoolManager.next_page_id_ s' = BufferPoolManager.next_page_id_ s /\
            Inv.bpm_inv s')).
Proof.
  intros Hi. split; [apply OpFacts.DeletePage_absent|].
  intros f Ht. destruct (Inv.inv_table s Hi p f Ht) as (pg & Hp & _).
  destruct (Inv.inv_pin s Hi f pg Hp) as [Hpin _].
  exists pg. split; [exact Hp|]. split; [exact Hpin|]. split.
  - intros Hgt. now apply (OpFacts.DeletePage_pinned s p f pg).
  - intros Hz.
    destruct (OpFacts.Remove_resident s p f pg Hi Ht Hp) as (r' & Hr & Hst & _); [lia|].
    exists r', (Post.deleted p f pg r' s).
    split; [exact Hr|].
    split; [apply OpFacts.DeletePage_unpinned; auto; lia|].
    split; [reflexivity|].
    assert (Hna : forall g, Inv.node_at (Post.deleted p f pg r' s) g
                   = if decide (g = f) then None else Inv.node_at s g).
    { intros g. unfold Post.deleted, Inv.node_at. simpl. rewrite Hst.
      destruct (decide (g = f)) as [->|Hne].
      - apply lookup_delete_eq.
      - now apply lookup_delete_ne. }
    assert (Hpa : forall g, Inv.page_at (Post.deleted p f pg r' s) g
                   = if decide (g = f) then Some (Post.deleted_page pg)
                     else Inv.page_at s g).
    { intros g. unfold Post.deleted.
      rewrite OpFacts.page_at_set_free_list, BpmFacts.page_at_store_page; eauto. }
    split; [rewrite Hna; now destruct (decide (f = f))|].
    split; [reflexivity|].
    split; [simpl; apply lookup_delete_eq|].
    assert (Hpf : Inv.page_at (Post.deleted p f pg r' s) f
                  = Some (Post.deleted_page pg)).
    { rewrite Hpa. now destruct (decide (f = f)). }
    split; [exact Hpf|].
    split.
    { exists (Post.deleted_page pg). split; [exact Hpf|].
      split; [reflexivity|]. split; [reflexivity|]. split; [reflexivity|].
      split; [reflexivity|]. split; [exact Hz|reflexivity]. }
    split; [reflexivity|].
    split; [unfold Post.deleted; simpl; apply elem_of_app; right; left|].
    split.
    { intros g Hg. rewrite Hpa, Hna. now destruct (decide (g = f)). }
    split; [reflexivity|]. split; [reflexivity|].
    apply OpFacts.deleted_inv; auto. lia.
Qed.

Lemma DeletePage_spec_witness :
  Inv.bpm_inv Demo.two_pages /\
  BufferPoolManager.page_table_ Demo.two_pages !! 0 = Some 0 /\
  exists s' pg',
    BufferPoolManager.DeletePage 0 Demo.two_pages = Ok (true, s') /\
    Inv.page_at s' 0 = Some pg' /\
    Page.page_id_ pg' = Page.INVALID_PAGE_ID /\ Page.is_dirty_ pg' = false /\
    BufferPoolManager.page_table_ s' !! 0 = None /\
    0 ∈ BufferPoolManager.free_list_ s'.
Proof.
  split; [apply DemoFacts.two_pages_inv|].
  split; [vm_compute; reflexivity|].
  destruct (proj2 (DeletePage_spec Demo.two_pages 0 DemoFacts.two_pages_inv) 0)
    as (pg & H1 & H2 & _ & H3).
  - vm_compute. reflexivity.
  - assert (Hpg : Some pg = Some {| Page.data_ := Page.zero_data; Page.page_id_ := 0;
                                    Page.pin_count_ := 0; Page.is_dirty_ := true;
                                    Page.rwlatch_ := Page.latch_free |}).
    { rewrite <- H1. vm_compute. reflexivity. }
    inversion Hpg; subst pg.
    destruct (H3 eq_refl)
      as (r' & s' & _ & H4 & _ & _ & _ & H5 & _ & (pg' & H6 & H7 & _ & H8 & _) & _ & H9 & _).
    exists s', pg'. auto 10.
Defined.

(** ** [NewPage], case by case *)

Module NewPageFacts.

Import BufferPoolManager Inv Post BpmFacts InvFacts OpFacts.

Lemma accessed_fresh f r :
  LRUKReplacer.node_store_ r !! f = None -> 0 < LRUKReplacer.k_ r ->
  LRUKReplacer.accessed f r
  = {| LRUKNode.history_ := [size_t_wrap (LRUKReplacer.current_timestamp_ r + 1)];
       LRUKNode.fid_ := f; LRUKNode.is_evictable_ := false |}.
Proof.
  intros Hn Hk. unfold LRUKReplacer.accessed. rewrite Hn. simpl.
  destruct (LRUKReplacer.k_ r <? Z.of_nat 1) eqn:E; [|reflexivity].
  apply Z.ltb_lt in E. lia.
Qed.

Lemma page_installed_facts s1 f pg r2 :
  bpm_inv s1 -> available s1 f -> page_at s1 f = Some pg ->
  LRUKReplacer.RecordAccess f (replacer_ s1) = Ok r2 ->
  next_page_id_ (page_installed f pg r2 s1) = page_id_wrap (next_page_id_ s1 + 1) /\
  page_table_ (page_installed f pg r2 s1)
  = <[next_page_id_ s1 := f]> (page_table_ s1) /\
  free_list_ (page_installed f pg r2 s1) = free_list_ s1 /\
  disk_ (page_installed f pg r2 s1) = disk_ s1 /\
  page_at (page_installed f pg r2 s1) f = Some (new_page (next_page_id_ s1) pg) /\
  node_at (page_installed f pg r2 s1) f
  = Some {| LRUKNode.history_ :=
              [size_t_wrap (LRUKReplacer.current_timestamp_ (replacer_ s1) + 1)];
            LRUKNode.fid_ := f; LRUKNode.is_evictable_ := false |} /\
  LRUKReplacer.current_timestamp_ (replacer_ (page_installed f pg r2 s1))
  = size_t_wrap (LRUKReplacer.current_timestamp_ (replacer_ s1) + 1).
Proof.
  intros Hi Ha Hp H2. pose proof Ha as (Hf & _ & Hnone & _).
  destruct (ReplacerFacts.RecordAccess_ok f (replacer_ s1)
              (frame_check_inv s1 f Hi Hf)) as (r & Hr & Hst & Hts & _).
  assert (r = r2) by congruence. subst r.
  repeat split.
  - unfold page_installed.
    rewrite page_at_set_replacer, page_at_set_page_table, page_at_store_page
      by (rewrite page_at_set_next_page_id; eauto).
    now destruct (decide (f = f)).
  - unfold page_installed, node_at. simpl. rewrite Hst, lookup_insert_eq.
    f_equal. apply accessed_fresh; [exact Hnone|apply Hi].
  - exact Hts.
Qed.

(** The three ways [NewPage] can go. *)
Lemma NewPage_cases s :
  bpm_inv s ->
  (exists f rest pg r2,
     free_list_ s = f :: rest /\ page_at s f = Some pg /\
     bpm_inv (set_free_list rest s) /\ available (set_free_list rest s) f /\
     LRUKReplacer.RecordAccess f (replacer_ s) = Ok r2 /\
     NewPage s = Ok (Some (next_page_id_ s, f),
                     page_installed f pg r2 (set_free_list rest s))) \/
  (free_list_ s = [] /\
   LRUKReplacer.Evict (replacer_ s) = Ok (None, replacer_ s) /\
   NewPage s = Ok (None, s)) \/
  (exists v r' pg r2,
     free_list_ s = [] /\
     LRUKReplacer.Evict (replacer_ s) = Ok (Some v, r') /\
     page_at s v = Some pg /\ Page.pin_count_ pg = 0 /\
     LRUKReplacer.current_timestamp_ r'
     = LRUKReplacer.current_timestamp_ (replacer_ s) /\
     bpm_inv (victim_taken v pg r' s) /\ available (victim_taken v pg r' s) v /\
     LRUKReplacer.RecordAccess v r' = Ok r2 /\
     NewPage s = Ok (Some (next_page_id_ s, v),
                     page_installed v pg r2 (victim_taken v pg r' s))).
Proof.
  intros Hi. destruct (free_list_ s) as [|f rest] eqn:Hfl.
  - right.
    destruct (Evict_inv_cases s Hi)
      as [He|(v & r' & n & pg & He & Hn & Hev & Hp & Hpin & Hst & Hts & Hrs & Hk)].
    + left. split; [reflexivity|]. split; [exact He|].
      apply NewPage_none. now apply obtain_frame_none.
    + right.
      destruct (victim_taken_inv s v r' n pg Hi Hn Hev Hp Hfl Hst Hts Hrs Hk)
        as [Hi1 Ha1].
      assert (Hp1 : page_at (victim_taken v pg r' s) v = Some pg).
      { unfold victim_taken. now destruct (Page.is_dirty_ pg). }
      assert (Hr1 : replacer_ (victim_taken v pg r' s) = r').
      { unfold victim_taken. now destruct (Page.is_dirty_ pg). }
      assert (Hn1 : next_page_id_ (victim_taken v pg r' s) = next_page_id_ s).
      { unfold victim_taken. now destruct (Page.is_dirty_ pg). }
      destruct (NewPage_replacer _ v Hi1 Ha1) as (r1 & r2 & H1 & H2 & -> & _).
      exists v, r', pg, r2. split; [reflexivity|]. split; [exact He|].
      split; [exact Hp|]. split; [exact Hpin|]. split; [exact Hts|].
      split; [exact Hi1|]. split; [exact Ha1|].
      split; [now rewrite <- Hr1|].
      rewrite <- Hn1.
      apply (NewPage_some s _ v pg _ r2 (obtain_frame_victim s v r' pg Hfl He Hp)
               Hp1 H1 H2).
  - left. destruct (popped_inv s f rest Hi Hfl) as [Hi1 Ha1].
    destruct (page_at_in_range s f (inv_pages s Hi)) as [pg Hp].
    { destruct Ha1 as [Hf _]. exact Hf. }
    destruct (NewPage_replacer _ f Hi1 Ha1) as (r1 & r2 & H1 & H2 & -> & _).
    exists f, rest, pg, r2. split; [reflexivity|]. split; [exact Hp|].
    split; [exact Hi1|]. split; [exact Ha1|]. split; [exact H2|].
    apply (NewPage_some s (set_free_list rest s) f pg _ r2
             (obtain_frame_free s f rest Hfl) Hp H1 H2).
Qed.

(** With the clock below [SIZE_MAX], [Evict] finds nothing exactly when
    no node is evictable. *)
Lemma Evict_None_iff s :
  bpm_inv s ->
  LRUKReplacer.current_timestamp_ (replacer_ s) < SIZE_MAX ->
  LRUKReplacer.Evict (replacer_ s) = Ok (None, replacer_ s)
  <-> Spec.no_evictable (replacer_ s).
Proof.
  intros Hi Hc.
  assert (Hiff : (exists r', LRUKReplacer.Evict (replacer_ s) = Ok (None, r'))
                 <-> Spec.no_evictable (replacer_ s)).
  { apply ReplacerFacts.Evict_in_order_None_iff; [reflexivity| |].
    - destruct (inv_clock s Hi). lia.
    - intros f n Hn. destruct (inv_node s Hi f n Hn) as (H1 & H2 & _). auto. }
  split.
  - intros H. apply Hiff. eauto.
  - intros H. apply Hiff in H as [r' Hr'].
    destruct (Evict_inv_cases s Hi) as [He|(v & r1 & _ & _ & He & _)];
      [exact He|congruence].
Qed.

End NewPageFacts.

(** ** The page-id counter *)

Module CounterFacts.

Import BufferPoolManager Inv Post BpmFacts InvFacts OpFacts NewPageFacts.









End CounterFacts.



(** ** [Evict] does not depend on the order of enumeration *)

Module OrderFacts.

Import LRUKNode LRUKReplacer.

Lemma distance_le_antisym a b :
  Spec.distance_le a b -> Spec.distance_le b a -> a = b.
Proof.
  destruct a as [x|], b as [y|]; simpl; intros H1 H2;
    try contradiction; try reflexivity.
  f_equal. lia.
Qed.

Lemma lruk_victim_unique r v w :
  Spec.distinct_fronts r ->
  Spec.lruk_victim r v -> Spec.lruk_victim r w -> v = w.
Proof.
  intros Hd (nv & Hv & Hmaxv) (nw & Hw & Hmaxw).
  destruct (Hmaxv w nw Hw) as [Hle1 Ht1].
  destruct (Hmaxw v nv Hv) as [Hle2 Ht2].
  pose proof (distance_le_antisym _ _ Hle1 Hle2) as Heq.
  apply (Hd v w nv nw Hv Hw).
  specialize (Ht1 Heq). specialize (Ht2 (eq_sym Heq)). lia.
Qed.



(** Whatever the order of enumeration, [Evict] returns what it returns
    in the order of the model. *)
Lemma Evict_in_order_canonical r entries :
  Spec.replacer_ok r -> Spec.distinct_fronts r ->
  entries ≡ₚ map_to_list (node_store_ r) ->
  Evict_in_order entries r = Evict r.
Proof.
  intros Hok Hd Hp. unfold Evict.
  destruct (EvictFacts.Evict_in_order_spec r entries Hok Hp)
    as [[Hno He]|(v & Hv & He & _)];
    destruct (EvictFacts.Evict_in_order_spec r (map_to_list (node_store_ r)) Hok
                (reflexivity _))
      as [[Hno' He']|(w & Hw & He' & _)];
    rewrite He, He'.
  - reflexivity.
  - exfalso. destruct Hw as (nw & [Hl Hew] & _).
    rewrite (Hno w nw Hl) in Hew. discriminate.
  - exfalso. destruct Hv as (nv & [Hl Hev] & _).
    rewrite (Hno' v nv Hl) in Hev. discriminate.
  - now rewrite (lruk_victim_unique r v w Hd Hv Hw).
Qed.


End OrderFacts.



(** ** [replacer_ok] is kept by the methods of the replacer *)

Module ReplacerOkFacts.

Import LRUKNode LRUKReplacer.

Lemma count_insert (m : gmap Z LRUKNode.t) f x :
  Z.of_nat (size (filter Spec.evictable_entry (<[f := x]> m)))
  = Z.of_nat (size (filter Spec.evictable_entry m))
    + (if is_evictable_ x then 1 else 0)
    - (match m !! f with
       | Some y => if is_evictable_ y then 1 else 0
       | None => 0
       end).
Proof.
  assert (Hf : filter Spec.evictable_entry m !! f
               = match m !! f with
                 | Some y => if is_evictable_ y then Some y else None
                 | None => None
                 end).
  { destruct (m !! f) as [y|] eqn:E.
    - destruct (is_evictable_ y) eqn:Ey.
      + apply map_lookup_filter_Some. split; [exact E|exact Ey].
      + apply map_lookup_filter_None. right. intros y' Hy'.
        assert (y' = y) by congruence. subst. unfold Spec.evictable_entry. simpl. congruence.
    - apply map_lookup_filter_None. left. exact E. }
  destruct (is_evictable_ x) eqn:Ex.
  - rewrite map_filter_insert_True by exact Ex.
    rewrite map_size_insert, Hf.
    destruct (m !! f) as [y|]; [destruct (is_evictable_ y)|]; simpl; lia.
  - rewrite map_filter_insert_False by (unfold Spec.evictable_entry; simpl; congruence).
    rewrite map_filter_delete, map_size_delete, Hf.
    destruct (m !! f) as [y|] eqn:E; [destruct (is_evictable_ y) eqn:Ey|]; simpl; try lia.
    assert (size (filter Spec.evictable_entry m) <> 0%nat); [|lia].
    apply map_size_ne_0_lookup_2 with (i := f). exists y.
    apply map_lookup_filter_Some. split; [exact E|exact Ey].
Qed.

Lemma count_le_size (m : gmap Z LRUKNode.t) :
  (size (filter Spec.evictable_entry m) <= size m)%nat.
Proof. apply map_subseteq_size, map_filter_subseteq. Qed.

Lemma create_ok num_frames k : Spec.replacer_ok (create num_frames k).
Proof.
  constructor; simpl.
  - unfold SIZE_MAX. lia.
  - intros f n. now rewrite lookup_empty.
  - unfold Spec.evictable_count. simpl. now rewrite map_filter_empty, map_size_empty.
  - unfold in_size_t, SIZE_MAX. lia.
Qed.

Lemma RecordAccess_keeps_ok f r r' :
  Spec.replacer_ok r -> 0 < k_ r ->
  current_timestamp_ r + 1 < SIZE_MAX ->
  RecordAccess f r = Ok r' -> Spec.replacer_ok r'.
Proof.
  intros [Hc Hh Hs Hsr] Hk Hnext H. unfold RecordAccess in H.
  destruct (frame_check r f); [discriminate|]. inversion H; subst r'. clear H.
  assert (Hts : size_t_wrap (current_timestamp_ r + 1) = current_timestamp_ r + 1)
    by (apply size_t_wrap_small; lia).
  constructor; simpl.
  - rewrite Hts. lia.
  - intros g n Hn. rewrite Hts.
    apply lookup_insert_Some in Hn as [[<- <-]|[Hne Hn]].
    + split; [now apply ReplacerFacts.accessed_history|].
      unfold accessed. simpl. rewrite Hts.
      assert (Hp : Forall (fun ts => 0 <= ts <= current_timestamp_ r + 1)
                (history_ (default init (node_store_ r !! f))
                 ++ [current_timestamp_ r + 1])).
      { apply Forall_app. split.
        - destruct (node_store_ r !! f) as [n|] eqn:E; simpl; [|constructor].
          destruct (Hh f n E) as [_ Hr].
          eapply Forall_impl; [exact Hr|]. simpl. intros; lia.
        - apply Forall_singleton. lia. }
      destruct (k_ r <? _); [now apply Forall_tail|exact Hp].
    + destruct (Hh g n Hn) as [H1 H2]. split; [exact H1|].
      eapply Forall_impl; [exact H2|]. simpl. intros; lia.
  - rewrite Hs. unfold Spec.evictable_count. simpl.
    change (fun kv : Z * LRUKNode.t => is_evictable_ kv.2 = true) with Spec.evictable_entry.
    rewrite count_insert. rewrite ReplacerFacts.accessed_evictable.
    destruct (node_store_ r !! f) as [n|]; simpl; [destruct (is_evictable_ n)|]; lia.
  - exact Hsr.
Qed.

Lemma SetEvictable_keeps_ok f b r r' :
  Spec.replacer_ok r -> Z.of_nat (size (node_store_ r)) <= SIZE_MAX ->
  SetEvictable f b r = Ok r' -> Spec.replacer_ok r'.
Proof.
  intros Hok Hsz H. pose proof Hok as [Hc Hh Hs Hsr]. unfold SetEvictable in H.
  destruct (frame_check r f); [discriminate|].
  destruct (node_store_ r !! f) as [n|] eqn:E; [|now inversion H; subst].
  case_bool_decide as Hb; [now inversion H; subst|].
  inversion H; subst r'. clear H.
  assert (Hcount : Spec.evictable_count
            {| node_store_ := <[f := set_is_evictable b n]> (node_store_ r);
               current_timestamp_ := current_timestamp_ r;
               curr_size_ := size_t_wrap (curr_size_ r + (if b then 1 else -1));
               replacer_size_ := replacer_size_ r; k_ := k_ r |}
          = Spec.evictable_count r + (if b then 1 else -1)).
  { unfold Spec.evictable_count. simpl.
    change (fun kv : Z * LRUKNode.t => is_evictable_ kv.2 = true) with Spec.evictable_entry.
    rewrite count_insert, E. simpl.
    destruct b, (is_evictable_ n); try congruence; lia. }
  assert (Hpos : forall x, node_store_ r !! f = Some x -> is_evictable_ x = true ->
                   1 <= Spec.evictable_count r).
  { intros x Hx Hex. apply (EvictFacts.evictable_count_pos r f x). now split. }
  assert (Hle : Spec.evictable_count r < Z.of_nat (size (node_store_ r))
                \/ is_evictable_ n = true).
  { destruct (is_evictable_ n) eqn:En; [now right|left].
    unfold Spec.evictable_count.
    change (fun kv : Z * LRUKNode.t => is_evictable_ kv.2 = true) with Spec.evictable_entry.
    assert (Hsub : filter Spec.evictable_entry (node_store_ r) ⊆ delete f (node_store_ r)).
    { apply map_subseteq_spec. intros g x Hg.
      apply map_lookup_filter_Some in Hg as [Hg Hex].
      apply lookup_delete_Some. split; [|exact Hg].
      intros <-. unfold Spec.evictable_entry in Hex. simpl in Hex. congruence. }
    apply map_subseteq_size in Hsub.
    rewrite map_size_delete_Some in Hsub by eauto.
    assert (size (node_store_ r) <> 0%nat) by (apply map_size_ne_0_lookup_2 with (i := f); eauto).
    lia. }
  assert (Hrange : 0 <= curr_size_ r + (if b then 1 else -1) <= SIZE_MAX).
  { unfold in_size_t in Hsr. rewrite Hs in *.
    destruct b.
    - destruct Hle as [Hlt|En]; [lia|]. congruence.
    - assert (is_evictable_ n = true) by (destruct (is_evictable_ n); congruence).
      specialize (Hpos n E H). lia. }
  constructor; simpl.
  - exact Hc.
  - intros g m Hm. apply lookup_insert_Some in Hm as [[<- <-]|[Hne Hm]].
    + simpl. now apply (Hh f n).
    + now apply (Hh g m).
  - rewrite Hcount, size_t_wrap_small by exact Hrange. lia.
  - rewrite size_t_wrap_small by exact Hrange. exact Hrange.
Qed.

Lemma Remove_keeps_ok f r r' :
  Spec.replacer_ok r -> Remove f r = Ok r' -> Spec.replacer_ok r'.
Proof.
  intros Hok H. unfold Remove in H.
  destruct (frame_check r f); [discriminate|].
  destruct (node_store_ r !! f) as [n|] eqn:E; [|now inversion H; subst].
  destruct (is_evictable_ n) eqn:En; [|discriminate]. simpl in H.
  inversion H; subst r'. clear H.
  assert (Hev : Spec.evictable_in r f n) by now split.
  pose proof (EvictFacts.evictable_count_pos r f n Hev) as Hpos.
  pose proof (EvictFacts.evicted_ok r f n Hok Hev) as Hok'.
  destruct Hok as [Hc Hh Hs Hsr]. unfold in_size_t in Hsr.
  rewrite size_t_wrap_small by lia. exact Hok'.
Qed.

End ReplacerOkFacts.

(** ** Reachable replacers *)

Module ReplacerRunFacts.

Import LRUKNode LRUKReplacer ReplacerRun.

(** Whatever the histories, a frame the loop leaves as victim was
    evictable. *)
Lemma scan_loop_victim r entries : forall acc acc',
  scan_loop r acc entries = Ok acc' ->
  victim acc' = victim acc \/
  exists v n, victim acc' = Some v /\ (v, n) ∈ entries /\ is_evictable_ n = true.
Proof.
  induction entries as [|[f n] rest IH]; intros acc acc' H; cbn [scan_loop] in H.
  - inversion H. now left.
  - apply obind_Ok in H as (acc1 & H1 & H2).
    destruct (IH acc1 acc' H2) as [Heq|(v & m & Hv & Hin & Hev)].
    + unfold scan_step in H1.
      destruct (is_evictable_ n) eqn:En; simpl in H1.
      * destruct (history_ n) as [|t0 h]; [discriminate|].
        destruct (_ || _); inversion H1; subst acc1.
        -- right. exists f, n. rewrite Heq. simpl.
           split; [reflexivity|]. split; [apply list_elem_of_here|exact En].
        -- now left.
      * inversion H1; subst acc1. now left.
    + right. exists v, m. split; [exact Hv|].
      split; [now apply list_elem_of_further|exact Hev].
Qed.

Lemma scan_loop_no_evictable r entries : forall acc,
  (forall f n, (f, n) ∈ entries -> is_evictable_ n = false) ->
  scan_loop r acc entries = Ok acc.
Proof.
  induction entries as [|[f n] rest IH]; intros acc H; cbn [scan_loop].
  - reflexivity.
  - rewrite ScanFacts.scan_step_skip by (apply (H f); apply list_elem_of_here).
    simpl. apply IH. intros g m Hin. apply (H g). now apply list_elem_of_further.
Qed.

(** What [Evict] has done when it returns, with no assumption on the
    replacer. *)
Lemma Evict_in_order_Ok r entries v r' :
  entries ≡ₚ map_to_list (node_store_ r) ->
  Evict_in_order entries r = Ok (v, r') ->
  match v with
  | None => r' = r
  | Some f =>
      (exists n, node_store_ r !! f = Some n /\ is_evictable_ n = true) /\
      r' = {| node_store_ := delete f (node_store_ r);
              current_timestamp_ := current_timestamp_ r;
              curr_size_ := size_t_wrap (curr_size_ r - 1);
              replacer_size_ := replacer_size_ r;
              k_ := k_ r |}
  end.
Proof.
  intros Hp H. unfold Evict_in_order in H.
  apply obind_Ok in H as (acc & Hl & H).
  destruct (scan_loop_victim r entries _ _ Hl) as [Heq|(w & n & Hw & Hin & Hev)].
  - simpl in Heq. rewrite Heq in H. now inversion H.
  - rewrite Hw in H. inversion H; subst v r'. split; [|reflexivity].
    exists n. split; [|exact Hev].
    apply elem_of_map_to_list. now rewrite <- Hp.
Qed.

Lemma Evict_in_order_no_evictable r entries :
  entries ≡ₚ map_to_list (node_store_ r) ->
  Spec.no_evictable r -> Evict_in_order entries r = Ok (None, r).
Proof.
  intros Hp Hno. unfold Evict_in_order.
  rewrite scan_loop_no_evictable; [reflexivity|].
  intros f n Hin. apply (Hno f). apply elem_of_map_to_list. now rewrite <- Hp.
Qed.

Lemma keys_bound_size (m : gmap Z LRUKNode.t) (N : Z) :
  0 <= N -> (forall f n, m !! f = Some n -> 0 <= f <= N) ->
  Z.of_nat (size m) <= N + 1.
Proof.
  intros HN Hk.
  assert (Hsub : dom m ⊆ (list_to_set (seqZ 0 (N + 1)) : gset Z)).
  { intros f Hf. apply elem_of_dom in Hf as [n Hn].
    apply elem_of_list_to_set, elem_of_seqZ. specialize (Hk f n Hn). lia. }
  apply subseteq_size in Hsub.
  rewrite size_dom in Hsub.
  rewrite size_list_to_set in Hsub by apply NoDup_seqZ.
  rewrite length_seqZ in Hsub. lia.
Qed.

Lemma frame_check_false_range r f :
  frame_id_range f -> 0 <= replacer_size_ r < 2 ^ 63 ->
  frame_check r f = false -> 0 <= f <= replacer_size_ r.
Proof.
  intros Hf Hr Hc.
  pose proof (ReplacerFacts.frame_check_true_iff r f Hf Hr) as Hiff.
  destruct (Z_lt_ge_dec f 0) as [Hneg|Hpos].
  - assert (frame_check r f = true) by (apply Hiff; lia). congruence.
  - destruct (Z_le_gt_dec f (replacer_size_ r)) as [Hle|Hgt]; [lia|].
    assert (frame_check r f = true) by (apply Hiff; lia). congruence.
Qed.

Lemma accessed_length f r :
  (forall n, node_store_ r !! f = Some n -> Z.of_nat (length (history_ n)) <= k_ r) ->
  0 < k_ r ->
  Z.of_nat (length (history_ (accessed f r))) <= k_ r.
Proof.
  intros Hn Hk. unfold accessed. simpl.
  set (h := history_ (default init (node_store_ r !! f))).
  assert (Hh : Z.of_nat (length h) <= k_ r).
  { unfold h. destruct (node_store_ r !! f) as [n|]; simpl; [now apply Hn|lia]. }
  destruct (k_ r <? Z.of_nat (length (h ++ [size_t_wrap (current_timestamp_ r + 1)]))) eqn:E.
  - change (tail ?l) with (tl l).
    rewrite length_tl, length_app. simpl. lia.
  - apply Z.ltb_ge in E. exact E.
Qed.

Lemma inv_count_bound r :
  inv r -> 0 <= Spec.evictable_count r <= replacer_size_ r + 1.
Proof.
  intros [Hrs Hk Hkeys Hh Hs].
  pose proof (keys_bound_size (node_store_ r) (replacer_size_ r) (proj1 Hrs) Hkeys).
  pose proof (ReplacerOkFacts.count_le_size (node_store_ r)).
  unfold Spec.evictable_count. unfold Spec.evictable_entry in *. lia.
Qed.

Lemma inv_create num_frames k :
  0 <= num_frames < 2 ^ 63 -> 0 < k -> inv (create num_frames k).
Proof.
  intros Hn Hk. constructor; simpl; try assumption.
  - intros f n. now rewrite lookup_empty.
  - intros f n. now rewrite lookup_empty.
  - unfold Spec.evictable_count. simpl. now rewrite map_filter_empty, map_size_empty.
Qed.

Lemma inv_RecordAccess r f r' :
  inv r -> frame_id_range f -> RecordAccess f r = Ok r' -> inv r'.
Proof.
  intros Hi Hf H. pose proof Hi as [Hrs Hk Hkeys Hh Hs].
  unfold RecordAccess in H.
  destruct (frame_check r f) eqn:Hc; [discriminate|]. inversion H; subst r'. clear H.
  pose proof (frame_check_false_range r f Hf Hrs Hc) as Hfr.
  constructor; simpl; try assumption.
  - intros g n Hn. apply lookup_insert_Some in Hn as [[<- _]|[_ Hn]]; [exact Hfr|eauto].
  - intros g n Hn. apply lookup_insert_Some in Hn as [[<- <-]|[_ Hn]]; [|eauto].
    split; [now apply ReplacerFacts.accessed_history|].
    apply accessed_length; [|exact Hk]. intros n Hn. now apply (Hh f).
  - rewrite Hs. unfold Spec.evictable_count. simpl.
    change (fun kv : Z * LRUKNode.t => is_evictable_ kv.2 = true)
      with Spec.evictable_entry.
    rewrite ReplacerOkFacts.count_insert, ReplacerFacts.accessed_evictable.
    destruct (node_store_ r !! f) as [n|]; simpl; [destruct (is_evictable_ n)|]; lia.
Qed.

Lemma inv_SetEvictable r f b r' :
  inv r -> SetEvictable f b r = Ok r' -> inv r'.
Proof.
  intros Hi H. pose proof Hi as [Hrs Hk Hkeys Hh Hs].
  pose proof (inv_count_bound r Hi) as Hcb.
  unfold SetEvictable in H.
  destruct (frame_check r f); [discriminate|].
  destruct (node_store_ r !! f) as [n|] eqn:E; [|now inversion H; subst].
  case_bool_decide as Hb; [now inversion H; subst|].
  inversion H; subst r'. clear H.
  assert (Hcount : Spec.evictable_count
            {| node_store_ := <[f := set_is_evictable b n]> (node_store_ r);
               current_timestamp_ := current_timestamp_ r;
               curr_size_ := size_t_wrap (curr_size_ r + (if b then 1 else -1));
               replacer_size_ := replacer_size_ r; k_ := k_ r |}
          = Spec.evictable_count r + (if b then 1 else -1)).
  { unfold Spec.evictable_count. simpl.
    change (fun kv : Z * LRUKNode.t => is_evictable_ kv.2 = true)
      with Spec.evictable_entry.
    rewrite ReplacerOkFacts.count_insert, E. simpl.
    destruct b, (is_evictable_ n); try congruence; lia. }
  assert (Hi' : inv {| node_store_ := <[f := set_is_evictable b n]> (node_store_ r);
               current_timestamp_ := current_timestamp_ r;
               curr_size_ := Spec.evictable_count r + (if b then 1 else -1);
               replacer_size_ := replacer_size_ r; k_ := k_ r |}).
  { constructor; simpl; try assumption.
    - intros g m Hm. apply lookup_insert_Some in Hm as [[<- _]|[_ Hm]]; eauto.
    - intros g m Hm. apply lookup_insert_Some in Hm as [[<- <-]|[_ Hm]]; [|eauto].
      simpl. now apply (Hh f).
    - rewrite <- Hcount. reflexivity. }
  pose proof (inv_count_bound _ Hi') as Hcb'. rewrite <- (inv_size _ Hi') in Hcb'.
  simpl in Hcb'.
  rewrite Hs. rewrite size_t_wrap_small by (unfold SIZE_MAX; lia). exact Hi'.
Qed.

Lemma inv_erase r f n :
  inv r -> node_store_ r !! f = Some n -> is_evictable_ n = true ->
  inv {| node_store_ := delete f (node_store_ r);
         current_timestamp_ := current_timestamp_ r;
         curr_size_ := size_t_wrap (curr_size_ r - 1);
         replacer_size_ := replacer_size_ r;
         k_ := k_ r |}.
Proof.
  intros Hi Hn He. pose proof Hi as [Hrs Hk Hkeys Hh Hs].
  pose proof (inv_count_bound r Hi) as Hcb.
  assert (Hev : Spec.evictable_in r f n) by now split.
  pose proof (EvictFacts.evictable_count_pos r f n Hev) as Hpos.
  pose proof (EvictFacts.evictable_count_evicted r f n Hev) as Hcnt.
  constructor; simpl; try assumption.
  - intros g m Hm. apply lookup_delete_Some in Hm as [_ Hm]. eauto.
  - intros g m Hm. apply lookup_delete_Some in Hm as [_ Hm]. eauto.
  - rewrite size_t_wrap_small by (unfold SIZE_MAX; lia).
    rewrite Hs. unfold Spec.evicted, Spec.evictable_count in *. simpl in *. lia.
Qed.

Lemma inv_Remove r f r' : inv r -> Remove f r = Ok r' -> inv r'.
Proof.
  intros Hi H. unfold Remove in H.
  destruct (frame_check r f); [discriminate|].
  destruct (node_store_ r !! f) as [n|] eqn:E; [|now inversion H; subst].
  destruct (is_evictable_ n) eqn:En; [|discriminate]. simpl in H.
  inversion H; subst r'. now apply inv_erase with (n := n).
Qed.

Lemma inv_Evict r entries v r' :
  inv r -> entries ≡ₚ map_to_list (node_store_ r) ->
  Evict_in_order entries r = Ok (v, r') -> inv r'.
Proof.
  intros Hi Hp H. apply Evict_in_order_Ok in H; [|exact Hp].
  destruct v as [f|]; [|now subst].
  destruct H as [(n & Hn & He) ->]. now apply inv_erase with (n := n).
Qed.

Lemma run_inv num_frames k r :
  0 <= num_frames < 2 ^ 63 -> 0 < k ->
  reachable num_frames k r -> inv r.
Proof.
  intros Hn Hk Hr.
  induction Hr as [|r f r' _ IH Hf H|r f b r' _ IH Hf H|r f r' _ IH Hf H
                   |r entries v r' _ IH Hp H].
  - now apply inv_create.
  - eapply inv_RecordAccess; eauto.
  - eapply inv_SetEvictable; eauto.
  - eapply inv_Remove; eauto.
  - eapply inv_Evict; eauto.
Qed.

Lemma sample_reachable : reachable 7 2 sample.
Proof.
  eapply reach_SetEvictable with (f := 1) (b := true);
    [eapply reach_RecordAccess with (f := 2);
     [eapply reach_RecordAccess with (f := 1);
      [apply reach_new|unfold frame_id_range; lia|vm_compute; reflexivity]
     |unfold frame_id_range; lia|vm_compute; reflexivity]
    |unfold frame_id_range; lia|vm_compute; reflexivity].
Qed.

End ReplacerRunFacts.

(** X1. In every replacer reached from the constructor by calls of
    [RecordAccess], [SetEvictable], [Remove] and [Evict] that returned,
    [Size()] is the number of nodes marked evictable, and it is at most
    [replacer_size_ + 1]: the counter never wraps. *)
Theorem Size_counts_evictable (num_frames k : Z) (r : LRUKReplacer.t) :
  0 <= num_frames < 2 ^ 63 -> 0 < k ->
  ReplacerRun.reachable num_frames k r ->
  LRUKReplacer.Size r = Spec.evictable_count r /\
  0 <= LRUKReplacer.Size r <= LRUKReplacer.replacer_size_ r + 1.
Proof.
  intros Hn Hk Hr.
  pose proof (ReplacerRunFacts.run_inv num_frames k r Hn Hk Hr) as Hi.
  pose proof (ReplacerRunFacts.inv_count_bound r Hi) as Hb.
  unfold LRUKReplacer.Size. rewrite (ReplacerRun.inv_size r Hi). auto.
Qed.

Lemma Size_counts_evictable_witness :
  (0 <= 7 < 2 ^ 63 /\ 0 < 2 /\ ReplacerRun.reachable 7 2 ReplacerRun.sample) /\
  LRUKReplacer.Size ReplacerRun.sample = Spec.evictable_count ReplacerRun.sample.
Proof.
  split.
  - split; [lia|]. split; [lia|]. apply ReplacerRunFacts.sample_reachable.
  - apply (Size_counts_evictable 7 2 ReplacerRun.sample); [lia|lia|].
    apply ReplacerRunFacts.sample_reachable.
Defined.

(** X2. In every reachable replacer each node belongs to a frame id in
    [0, replacer_size_] (the upper bound included, as the range check
    admits it), and its history is non-empty and holds at most [K]
    timestamps. *)
Theorem histories_bounded (num_frames k : Z) (r : LRUKReplacer.t) :
  0 <= num_frames < 2 ^ 63 -> 0 < k ->
  ReplacerRun.reachable num_frames k r ->
  forall f n, LRUKReplacer.node_store_ r !! f = Some n ->
    0 <= f <= LRUKReplacer.replacer_size_ r /\
    LRUKNode.history_ n <> [] /\
    Z.of_nat (length (LRUKNode.history_ n)) <= LRUKReplacer.k_ r.
Proof.
  intros Hn Hk Hr f n Hl.
  pose proof (ReplacerRunFacts.run_inv num_frames k r Hn Hk Hr) as Hi.
  split; [now apply (ReplacerRun.inv_keys r Hi f n)|].
  now apply (ReplacerRun.inv_hist r Hi f n).
Qed.

Lemma histories_bounded_witness :
  (0 <= 7 < 2 ^ 63 /\ 0 < 2 /\ ReplacerRun.reachable 7 2 ReplacerRun.sample) /\
  forall f n, LRUKReplacer.node_store_ ReplacerRun.sample !! f = Some n ->
    0 <= f <= LRUKReplacer.replacer_size_ ReplacerRun.sample /\
    LRUKNode.history_ n <> [] /\
    Z.of_nat (length (LRUKNode.history_ n)) <= LRUKReplacer.k_ ReplacerRun.sample.
Proof.
  split.
  - split; [lia|]. split; [lia|]. apply ReplacerRunFacts.sample_reachable.
  - apply (histories_bounded 7 2 ReplacerRun.sample); [lia|lia|].
    apply ReplacerRunFacts.sample_reachable.
Defined.

(** ** Timestamps, and special cases of the selection rule *)

Module ReplacerMoreFacts.

Import LRUKNode LRUKReplacer ReplacerRun.

Lemma increasing_tail l : increasing l -> increasing (tail l).
Proof. destruct l as [|a [|b l]]; simpl; tauto. Qed.

Lemma increasing_snoc l x :
  increasing l -> Forall (fun t => t < x) l -> increasing (l ++ [x]).
Proof.
  induction l as [|a l IH]; intros Hi Hf; [exact I|].
  apply Forall_cons in Hf as [Ha Hf].
  destruct l as [|b l]; simpl in *; [tauto|].
  destruct Hi as [Hab Hi]. split; [exact Hab|]. now apply IH.
Qed.

Lemma timestamps_ok_create num_frames k : timestamps_ok (create num_frames k).
Proof.
  split; simpl; [unfold SIZE_MAX; lia|]. intros f n. now rewrite lookup_empty.
Qed.

Lemma timestamps_ok_RecordAccess f r r' :
  timestamps_ok r -> current_timestamp_ r < SIZE_MAX ->
  RecordAccess f r = Ok r' -> timestamps_ok r'.
Proof.
  intros [Hc Hh] Hlt H. unfold RecordAccess in H.
  destruct (frame_check r f); [discriminate|]. inversion H; subst r'. clear H.
  assert (Hts : size_t_wrap (current_timestamp_ r + 1) = current_timestamp_ r + 1)
    by (apply size_t_wrap_small; lia).
  split; simpl; rewrite Hts; [lia|].
  intros g n Hn. apply lookup_insert_Some in Hn as [[<- <-]|[_ Hn]].
  - unfold accessed. simpl. rewrite Hts.
    set (h := history_ (default init (node_store_ r !! f))).
    assert (Hh0 : increasing h /\ Forall (fun ts => 0 < ts <= current_timestamp_ r) h).
    { unfold h. destruct (node_store_ r !! f) as [n|] eqn:E; simpl; [now apply (Hh f)|].
      split; [exact I|constructor]. }
    destruct Hh0 as [Hinc Hall].
    assert (Hp : increasing (h ++ [current_timestamp_ r + 1]) /\
                 Forall (fun ts => 0 < ts <= current_timestamp_ r + 1)
                   (h ++ [current_timestamp_ r + 1])).
    { split.
      - apply increasing_snoc; [exact Hinc|].
        eapply Forall_impl; [exact Hall|]. simpl. intros; lia.
      - apply Forall_app. split.
        + eapply Forall_impl; [exact Hall|]. simpl. intros; lia.
        + apply Forall_singleton. lia. }
    destruct (k_ r <? _); [|exact Hp].
    destruct Hp as [Hp1 Hp2]. split; [now apply increasing_tail|now apply Forall_tail].
  - destruct (Hh g n Hn) as [H1 H2]. split; [exact H1|].
    eapply Forall_impl; [exact H2|]. simpl. intros; lia.
Qed.

Lemma timestamps_ok_SetEvictable f b r r' :
  timestamps_ok r -> SetEvictable f b r = Ok r' -> timestamps_ok r'.
Proof.
  intros [Hc Hh] H. unfold SetEvictable in H.
  destruct (frame_check r f); [discriminate|].
  destruct (node_store_ r !! f) as [n|] eqn:E; [|now inversion H; subst].
  case_bool_decide; [now inversion H; subst|].
  inversion H; subst r'. split; simpl; [exact Hc|].
  intros g m Hm. apply lookup_insert_Some in Hm as [[<- <-]|[_ Hm]]; [|eauto].
  simpl. now apply (Hh f).
Qed.

Lemma timestamps_ok_erase f r c :
  timestamps_ok r ->
  timestamps_ok {| node_store_ := delete f (node_store_ r);
                   current_timestamp_ := current_timestamp_ r;
                   curr_size_ := c;
                   replacer_size_ := replacer_size_ r;
                   k_ := k_ r |}.
Proof.
  intros [Hc Hh]. split; simpl; [exact Hc|].
  intros g m Hm. apply lookup_delete_Some in Hm as [_ Hm]. eauto.
Qed.

Lemma timestamps_ok_Remove f r r' :
  timestamps_ok r -> Remove f r = Ok r' -> timestamps_ok r'.
Proof.
  intros Hok H. unfold Remove in H.
  destruct (frame_check r f); [discriminate|].
  destruct (node_store_ r !! f) as [n|] eqn:E; [|now inversion H; subst].
  destruct (negb (is_evictable_ n)); [discriminate|].
  inversion H; subst r'. now apply timestamps_ok_erase.
Qed.

Lemma timestamps_ok_Evict entries r v r' :
  timestamps_ok r -> entries ≡ₚ map_to_list (node_store_ r) ->
  Evict_in_order entries r = Ok (v, r') -> timestamps_ok r'.
Proof.
  intros Hok Hp H. apply ReplacerRunFacts.Evict_in_order_Ok in H; [|exact Hp].
  destruct v as [f|]; [|now subst].
  destruct H as [_ ->]. now apply timestamps_ok_erase.
Qed.

Lemma wrap_inc_dec c : in_size_t c -> size_t_wrap (size_t_wrap (c + 1) - 1) = c.
Proof.
  unfold in_size_t, size_t_wrap, SIZE_MAX. intros Hc.
  rewrite Zminus_mod_idemp_l. replace (c + 1 - 1) with c by lia.
  apply Z.mod_small. lia.
Qed.

Lemma reachable_params num_frames k r :
  reachable num_frames k r -> k_ r = k /\ replacer_size_ r = num_frames.
Proof.
  intros Hr.
  induction Hr as [|r f r' _ IH Hf H|r f b r' _ IH Hf H|r f r' _ IH Hf H
                   |r entries v r' _ IH Hp H].
  - split; reflexivity.
  - unfold RecordAccess in H.
    destruct (frame_check r f); [discriminate|]. now inversion H; subst.
  - unfold SetEvictable in H.
    destruct (frame_check r f); [discriminate|].
    destruct (node_store_ r !! f) as [n|]; [|now inversion H; subst].
    case_bool_decide; now inversion H; subst.
  - unfold Remove in H.
    destruct (frame_check r f); [discriminate|].
    destruct (node_store_ r !! f) as [n|]; [|now inversion H; subst].
    destruct (negb (is_evictable_ n)); [discriminate|]. now inversion H; subst.
  - apply ReplacerRunFacts.Evict_in_order_Ok in H; [|exact Hp].
    destruct v as [f|]; [|now subst]. destruct H as [_ ->]. exact IH.
Qed.

Lemma run_reachable num_frames k ops r0 r :
  reachable num_frames k r0 ->
  Forall (fun op => exists f, frame_id_range f /\
            (op = RecordAccess f \/ exists b, op = SetEvictable f b)) ops ->
  ScenarioS1.run ops r0 = Ok r -> reachable num_frames k r.
Proof.
  intros Hr. revert r. induction ops as [|op ops IH] using rev_ind; intros r Hops H.
  - unfold ScenarioS1.run in H. simpl in H. now inversion H; subst.
  - apply Forall_app in Hops as [Hops Hop]. apply Forall_inv in Hop. simpl in Hop.
    unfold ScenarioS1.run in H. rewrite foldl_app in H. simpl in H.
    apply obind_Ok in H as (r1 & H1 & H2).
    specialize (IH r1 Hops H1).
    destruct Hop as (f & Hf & [->|[b ->]]).
    + eapply reach_RecordAccess; eauto.
    + eapply reach_SetEvictable; eauto.
Qed.

Lemma sample_lru_reachable : reachable 7 1 sample_lru.
Proof.
  eapply run_reachable with
    (ops := [RecordAccess 1; RecordAccess 2; RecordAccess 3; RecordAccess 1;
             SetEvictable 1 true; SetEvictable 2 true; SetEvictable 3 true]);
    [apply reach_new| |vm_compute; reflexivity].
  repeat constructor; eexists; (split; [|eauto]); unfold frame_id_range; lia.
Qed.

Lemma sample_under_k_reachable : reachable 7 2 sample_under_k.
Proof.
  eapply run_reachable with
    (ops := [RecordAccess 1; RecordAccess 2; RecordAccess 1; RecordAccess 3;
             SetEvictable 1 true; SetEvictable 2 true; SetEvictable 3 true]);
    [apply reach_new| |vm_compute; reflexivity].
  repeat constructor; eexists; (split; [|eauto]); unfold frame_id_range; lia.
Qed.

End ReplacerMoreFacts.

(** X4. Whatever state the replacer is in (no assumption on histories,
    clock or [curr_size_]) and whatever the order of enumeration: with no
    evictable node [Evict] returns nothing and changes nothing; and a
    frame [Evict] returns had a node marked evictable, which is the only
    node erased. *)
Theorem Evict_only_takes_evictable (r : LRUKReplacer.t) (entries : list (Z * LRUKNode.t)) :
  entries ≡ₚ map_to_list (LRUKReplacer.node_store_ r) ->
  (Spec.no_evictable r -> LRUKReplacer.Evict_in_order entries r = Ok (None, r)) /\
  (forall r', LRUKReplacer.Evict_in_order entries r = Ok (None, r') -> r' = r) /\
  (forall v r', LRUKReplacer.Evict_in_order entries r = Ok (Some v, r') ->
     (exists n, LRUKReplacer.node_store_ r !! v = Some n /\
        LRUKNode.is_evictable_ n = true) /\
     LRUKReplacer.node_store_ r' !! v = None /\
     (forall g, g <> v ->
        LRUKReplacer.node_store_ r' !! g = LRUKReplacer.node_store_ r !! g) /\
     LRUKReplacer.current_timestamp_ r' = LRUKReplacer.current_timestamp_ r /\
     LRUKReplacer.replacer_size_ r' = LRUKReplacer.replacer_size_ r /\
     LRUKReplacer.k_ r' = LRUKReplacer.k_ r).
Proof.
  intros Hp. split; [|split].
  - now apply ReplacerRunFacts.Evict_in_order_no_evictable.
  - intros r' H. now apply ReplacerRunFacts.Evict_in_order_Ok in H.
  - intros v r' H. apply ReplacerRunFacts.Evict_in_order_Ok in H; [|exact Hp].
    destruct H as [Hn ->]. simpl. split; [exact Hn|].
    split; [apply lookup_delete_eq|].
    split; [intros g Hg; now apply lookup_delete_ne|]. auto.
Qed.

Lemma Evict_only_takes_evictable_witness :
  map_to_list (LRUKReplacer.node_store_ ReplacerRun.sample)
  ≡ₚ map_to_list (LRUKReplacer.node_store_ ReplacerRun.sample) /\
  (forall r', LRUKReplacer.Evict ReplacerRun.sample = Ok (None, r') ->
     r' = ReplacerRun.sample).
Proof.
  split; [reflexivity|].
  apply (Evict_only_takes_evictable ReplacerRun.sample
           (map_to_list (LRUKReplacer.node_store_ ReplacerRun.sample))).
  reflexivity.
Defined.

(** X6. Frames with fewer than [K] recorded accesses go first: if some
    evictable node has fewer than [K] timestamps, the frame [Evict]
    returns has fewer than [K] timestamps too, and among the evictable
    frames with fewer than [K] it is the one whose first recorded access
    is the earliest. *)
Theorem Evict_prefers_under_K (r : LRUKReplacer.t)
    (entries : list (Z * LRUKNode.t)) (v : Z) (r' : LRUKReplacer.t)
    (g : Z) (m : LRUKNode.t) :
  Spec.replacer_ok r ->
  entries ≡ₚ map_to_list (LRUKReplacer.node_store_ r) ->
  Spec.evictable_in r g m ->
  Z.of_nat (length (LRUKNode.history_ m)) < LRUKReplacer.k_ r ->
  LRUKReplacer.Evict_in_order entries r = Ok (Some v, r') ->
  exists nv,
    Spec.evictable_in r v nv /\
    Z.of_nat (length (LRUKNode.history_ nv)) < LRUKReplacer.k_ r /\
    forall f n, Spec.evictable_in r f n ->
      Z.of_nat (length (LRUKNode.history_ n)) < LRUKReplacer.k_ r ->
      Spec.front nv <= Spec.front n.
Proof.
  intros Hok Hp Hm Hlen He.
  destruct (EvictFacts.Evict_in_order_spec r entries Hok Hp)
    as [[_ Hnone]|(v0 & (nv & Hev & Hmin) & Hsome & _)]; [congruence|].
  assert (v0 = v) by congruence. subst v0.
  assert (Hinf : forall n, Z.of_nat (length (LRUKNode.history_ n)) < LRUKReplacer.k_ r ->
            Spec.k_distance r n = Spec.Infinite).
  { intros n Hn. unfold Spec.k_distance. case_bool_decide; [lia|reflexivity]. }
  assert (Hnv : Z.of_nat (length (LRUKNode.history_ nv)) < LRUKReplacer.k_ r).
  { destruct (Hmin g m Hm) as [Hle _]. rewrite (Hinf m Hlen) in Hle.
    unfold Spec.k_distance in Hle. case_bool_decide; [contradiction|lia]. }
  exists nv. split; [exact Hev|]. split; [exact Hnv|].
  intros f n Hen Hn. destruct (Hmin f n Hen) as [_ Htie].
  apply Htie. now rewrite (Hinf n Hn), (Hinf nv Hnv).
Qed.

Lemma Evict_prefers_under_K_witness :
  exists nv,
    Spec.evictable_in ReplacerRun.sample_under_k 2 nv /\
    Z.of_nat (length (LRUKNode.history_ nv))
      < LRUKReplacer.k_ ReplacerRun.sample_under_k /\
    forall f n, Spec.evictable_in ReplacerRun.sample_under_k f n ->
      Z.of_nat (length (LRUKNode.history_ n))
        < LRUKReplacer.k_ ReplacerRun.sample_under_k ->
      Spec.front nv <= Spec.front n.
Proof.
  apply (Evict_prefers_under_K ReplacerRun.sample_under_k
           (map_to_list (LRUKReplacer.node_store_ ReplacerRun.sample_under_k))
           2 (Spec.evicted 2 ReplacerRun.sample_under_k)
           3 {| LRUKNode.history_ := [4]; LRUKNode.fid_ := 3;
                LRUKNode.is_evictable_ := true |}).
  - apply EvictFacts.replacer_ok_b_sound. vm_compute. reflexivity.
  - reflexivity.
  - split; vm_compute; reflexivity.
  - vm_compute. reflexivity.
  - vm_compute. reflexivity.
Defined.

(** X7. Tracking a frame and removing it again leaves no trace but the
    clock: for a frame with no node, [RecordAccess], [SetEvictable(true)]
    and [Remove] in a row all return, and the replacer ends with the
    [node_store_] and the [curr_size_] it started with, its clock
    advanced by one. *)
Theorem access_mark_remove_round_trip (r : LRUKReplacer.t) (f : Z) :
  0 <= f <= LRUKReplacer.replacer_size_ r ->
  LRUKReplacer.replacer_size_ r <= SIZE_MAX ->
  in_size_t (LRUKReplacer.curr_size_ r) ->
  LRUKReplacer.node_store_ r !! f = None ->
  obind (LRUKReplacer.RecordAccess f r) (fun r1 =>
    obind (LRUKReplacer.SetEvictable f true r1) (LRUKReplacer.Remove f))
  = Ok {| LRUKReplacer.node_store_ := LRUKReplacer.node_store_ r;
          LRUKReplacer.current_timestamp_ :=
            size_t_wrap (LRUKReplacer.current_timestamp_ r + 1);
          LRUKReplacer.curr_size_ := LRUKReplacer.curr_size_ r;
          LRUKReplacer.replacer_size_ := LRUKReplacer.replacer_size_ r;
          LRUKReplacer.k_ := LRUKReplacer.k_ r |}.
Proof.
  intros Hf Hrs Hc Hnone.
  pose proof (ReplacerFacts.frame_check_in_range r f Hf Hrs) as Hfc.
  unfold LRUKReplacer.RecordAccess, LRUKReplacer.SetEvictable, LRUKReplacer.Remove,
    LRUKReplacer.frame_check in *.
  rewrite Hfc. unfold LRUKReplacer.accessed. rewrite Hnone. simpl.
  rewrite Hfc. rewrite lookup_insert_eq. simpl.
  rewrite Hfc. rewrite lookup_insert_eq. simpl.
  f_equal. f_equal.
  - rewrite insert_insert_eq, delete_insert_eq. now apply delete_id.
  - now apply ReplacerMoreFacts.wrap_inc_dec.
Qed.

Lemma access_mark_remove_round_trip_witness :
  obind (LRUKReplacer.RecordAccess 3 ReplacerRun.sample) (fun r1 =>
    obind (LRUKReplacer.SetEvictable 3 true r1) (LRUKReplacer.Remove 3))
  = Ok {| LRUKReplacer.node_store_ := LRUKReplacer.node_store_ ReplacerRun.sample;
          LRUKReplacer.current_timestamp_ :=
            size_t_wrap (LRUKReplacer.current_timestamp_ ReplacerRun.sample + 1);
          LRUKReplacer.curr_size_ := LRUKReplacer.curr_size_ ReplacerRun.sample;
          LRUKReplacer.replacer_size_ := LRUKReplacer.replacer_size_ ReplacerRun.sample;
          LRUKReplacer.k_ := LRUKReplacer.k_ ReplacerRun.sample |}.
Proof.
  apply (access_mark_remove_round_trip ReplacerRun.sample 3).
  - change (LRUKReplacer.replacer_size_ ReplacerRun.sample) with 7. lia.
  - change (LRUKReplacer.replacer_size_ ReplacerRun.sample) with 7.
    unfold SIZE_MAX. lia.
  - change (LRUKReplacer.curr_size_ ReplacerRun.sample) with 1.
    unfold in_size_t, SIZE_MAX. lia.
  - vm_compute. reflexivity.
Defined.

(** X8. [RecordAccess] never makes a frame removable: right after a
    [RecordAccess] of a frame that returned, [Remove] of that frame
    raises "Attempt to remove a non-evictable frame" exactly when the
    frame had no node or a node not marked evictable before the access;
    otherwise it returns. *)
Theorem Remove_after_RecordAccess (r r1 : LRUKReplacer.t) (f : Z) :
  LRUKReplacer.RecordAccess f r = Ok r1 ->
  (LRUKReplacer.Remove f r1 = Throw LRUKReplacer.REMOVE_NON_EVICTABLE <->
   forall n, LRUKReplacer.node_store_ r !! f = Some n ->
     LRUKNode.is_evictable_ n = false) /\
  ((exists n, LRUKReplacer.node_store_ r !! f = Some n /\
      LRUKNode.is_evictable_ n = true) ->
   exists r2, LRUKReplacer.Remove f r1 = Ok r2 /\
     LRUKReplacer.node_store_ r2 = delete f (LRUKReplacer.node_store_ r)).
Proof.
  intros H. unfold LRUKReplacer.RecordAccess in H.
  destruct (LRUKReplacer.frame_check r f) eqn:Hfc; [discriminate|].
  inversion H; subst r1. clear H.
  unfold LRUKReplacer.Remove, LRUKReplacer.frame_check in *. simpl.
  rewrite Hfc. rewrite lookup_insert_eq.
  unfold LRUKReplacer.accessed. simpl.
  destruct (LRUKReplacer.node_store_ r !! f) as [n|] eqn:E; simpl.
  - destruct (LRUKNode.is_evictable_ n) eqn:Hev; simpl.
    + split.
      * split; [discriminate|]. intros Hall. specialize (Hall n eq_refl). congruence.
      * intros _. eexists. split; [reflexivity|]. simpl. apply delete_insert_eq.
    + split.
      * split; [|reflexivity]. intros _ n' Hn'. now inversion Hn'; subst.
      * intros (n' & Hn' & Hev'). inversion Hn'; subst. congruence.
  - split.
    + split; [|reflexivity]. intros _ n' Hn'. discriminate.
    + intros (n' & Hn' & _). discriminate.
Qed.

Lemma Remove_after_RecordAccess_witness :
  LRUKReplacer.Remove 3
    (match LRUKReplacer.RecordAccess 3 ReplacerRun.sample with
     | Ok r1 => r1 | _ => ReplacerRun.sample end)
  = Throw LRUKReplacer.REMOVE_NON_EVICTABLE.
Proof.
  apply (Remove_after_RecordAccess ReplacerRun.sample
           (match LRUKReplacer.RecordAccess 3 ReplacerRun.sample with
            | Ok r1 => r1 | _ => ReplacerRun.sample end) 3).
  - vm_compute. reflexivity.
  - intros n Hn. vm_compute in Hn. discriminate.
Defined.

(** ** [FetchPage], case by case *)

Module FetchFacts.

Import BufferPoolManager Inv Post BpmFacts InvFacts OpFacts.

Lemma page_at_fetched_hit s f pg r1 r2 g :
  page_at s f = Some pg ->
  page_at (fetched_hit f pg r1 r2 s) g
  = if decide (g = f)
    then Some (Page.set_pin_count (Page.pin_count_ pg + 1) pg)
    else page_at s g.
Proof.
  intros Hp. unfold fetched_hit.
  rewrite page_at_set_replacer, page_at_store_page
    by (rewrite page_at_set_replacer; eauto).
  reflexivity.
Qed.

Lemma page_at_fetched_miss s1 p f pg r2 g :
  page_at s1 f = Some pg ->
  page_at (fetched_miss p f pg r2 s1) g
  = if decide (g = f)
    then Some (Page.set_is_dirty false (Page.set_pin_count 1
           (Page.set_page_id p
              (Page.set_data (Disk.read_block (disk_ s1) p)
                 (Page.ResetMemory pg)))))
    else page_at s1 g.
Proof.
  intros Hp. unfold fetched_miss.
  set (pg2 := Page.ResetMemory pg).
  set (s2 := store_page f pg2 s1).
  set (s3 := set_disk _ s2).
  set (pg4 := Page.set_data _ pg2). set (s4 := store_page f pg4 s3).
  set (s5 := set_page_table _ s4).
  assert (Hp2 : forall h, page_at s2 h = if decide (h = f) then Some pg2 else page_at s1 h).
  { intros h. unfold s2. rewrite page_at_store_page; eauto. }
  assert (Hp4 : forall h, page_at s4 h = if decide (h = f) then Some pg4 else page_at s1 h).
  { intros h. unfold s4. rewrite page_at_store_page.
    - unfold s3. rewrite page_at_set_disk, Hp2. now destruct (decide (h = f)).
    - unfold s3. rewrite page_at_set_disk, Hp2.
      destruct (decide (f = f)); [eauto|congruence]. }
  rewrite page_at_set_replacer, page_at_store_page.
  - unfold s5. rewrite page_at_set_page_table, Hp4. now destruct (decide (g = f)).
  - unfold s5. rewrite page_at_set_page_table, Hp4.
    destruct (decide (f = f)); [eauto|congruence].
Qed.

(** The replacer calls of the hit path: the node of the frame afterwards
    is not evictable and ends with the new timestamp. *)
Lemma hit_replacer s p f pg :
  bpm_inv s -> page_table_ s !! p = Some f -> page_at s f = Some pg ->
  exists r1 r2,
    (if Page.pin_count_ pg =? 0
     then LRUKReplacer.SetEvictable f false (replacer_ s)
     else Ok (replacer_ s)) = Ok r1 /\
    LRUKReplacer.RecordAccess f r1 = Ok r2 /\
    LRUKReplacer.node_store_ r2 !! f = Some (LRUKReplacer.accessed f r1) /\
    LRUKNode.is_evictable_ (LRUKReplacer.accessed f r1) = false /\
    (forall g, g <> f -> LRUKReplacer.node_store_ r2 !! g = node_at s g) /\
    LRUKReplacer.current_timestamp_ r2
    = size_t_wrap (LRUKReplacer.current_timestamp_ (replacer_ s) + 1).
Proof.
  intros Hi Ht Hp.
  assert (Hf : 0 <= f < pool_size_ s).
  { eapply page_at_range; eauto. apply Hi. }
  pose proof (frame_check_inv s f Hi Hf) as Hc.
  assert (Hr1 : exists r1,
            (if Page.pin_count_ pg =? 0
             then LRUKReplacer.SetEvictable f false (replacer_ s)
             else Ok (replacer_ s)) = Ok r1 /\
            LRUKReplacer.replacer_size_ r1 = LRUKReplacer.replacer_size_ (replacer_ s) /\
            LRUKReplacer.current_timestamp_ r1
            = LRUKReplacer.current_timestamp_ (replacer_ s) /\
            (forall g, g <> f -> LRUKReplacer.node_store_ r1 !! g = node_at s g) /\
            (forall n, LRUKReplacer.node_store_ r1 !! f = Some n ->
               LRUKNode.is_evictable_ n = false)).
  { destruct (Page.pin_count_ pg =? 0) eqn:E.
    - destruct (ReplacerFacts.SetEvictable_ok f false (replacer_ s) Hc)
        as (r & Hr & Hst & Hts & Hrs & Hk).
      exists r. split; [exact Hr|]. split; [exact Hrs|]. split; [exact Hts|].
      rewrite Hst. split.
      + intros g Hg. now rewrite lookup_alter_ne.
      + intros n. rewrite lookup_alter_eq.
        destruct (LRUKReplacer.node_store_ (replacer_ s) !! f) as [n0|];
          [|discriminate].
        simpl. intros Hn. now inversion Hn; subst.
    - exists (replacer_ s). split; [reflexivity|]. split; [reflexivity|].
      split; [reflexivity|]. split; [reflexivity|]. intros n Hn.
      destruct (inv_node s Hi f n Hn) as (_ & _ & pg0 & Hp0 & Hev).
      assert (pg0 = pg) by congruence. subst.
      apply Z.eqb_neq in E. destruct (LRUKNode.is_evictable_ n); [|reflexivity].
      exfalso. apply E. now apply Hev. }
  destruct Hr1 as (r1 & H1 & Hrs1 & Hts1 & Ho1 & Hf1).
  assert (Hc1 : LRUKReplacer.frame_check r1 f = false).
  { unfold LRUKReplacer.frame_check in *. now rewrite Hrs1. }
  destruct (ReplacerFacts.RecordAccess_ok f r1 Hc1) as (r2 & H2 & Hst2 & Hts2 & _).
  exists r1, r2. split; [exact H1|]. split; [exact H2|]. rewrite Hst2.
  split; [apply lookup_insert_eq|]. split.
  - rewrite ReplacerFacts.accessed_evictable.
    destruct (LRUKReplacer.node_store_ r1 !! f) as [n|] eqn:En; [|reflexivity].
    simpl. now apply Hf1.
  - split; [|now rewrite Hts2, Hts1].
    intros g Hg. rewrite lookup_insert_ne by congruence. now apply Ho1.
Qed.

(** What [obtain_frame] gives when it gives a frame. *)
Lemma obtain_frame_cases s :
  bpm_inv s ->
  (exists f rest,
     free_list_ s = f :: rest /\
     obtain_frame s = Ok (Some f, set_free_list rest s) /\
     bpm_inv (set_free_list rest s) /\ available (set_free_list rest s) f) \/
  (free_list_ s = [] /\
   LRUKReplacer.Evict (replacer_ s) = Ok (None, replacer_ s) /\
   obtain_frame s = Ok (None, s)) \/
  (exists v r' pg,
     free_list_ s = [] /\
     LRUKReplacer.Evict (replacer_ s) = Ok (Some v, r') /\
     page_at s v = Some pg /\ Page.pin_count_ pg = 0 /\
     obtain_frame s = Ok (Some v, victim_taken v pg r' s) /\
     bpm_inv (victim_taken v pg r' s) /\ available (victim_taken v pg r' s) v).
Proof.
  intros Hi. destruct (free_list_ s) as [|f rest] eqn:Hfl.
  - right.
    destruct (Evict_inv_cases s Hi)
      as [He|(v & r' & n & pg & He & Hn & Hev & Hp & Hpin & Hst & Hts & Hrs & Hk)].
    + left. split; [reflexivity|]. split; [exact He|]. now apply obtain_frame_none.
    + right.
      destruct (victim_taken_inv s v r' n pg Hi Hn Hev Hp Hfl Hst Hts Hrs Hk)
        as [Hi1 Ha1].
      exists v, r', pg. split; [reflexivity|]. split; [exact He|].
      split; [exact Hp|]. split; [exact Hpin|].
      split; [now apply obtain_frame_victim|]. split; assumption.
  - left. destruct (popped_inv s f rest Hi Hfl) as [Hi1 Ha1].
    exists f, rest. split; [reflexivity|].
    split; [now apply obtain_frame_free|]. split; assumption.
Qed.

(** The miss path on a frame that [obtain_frame] gave. *)
Lemma FetchPage_installs s p f s1 :
  page_table_ s !! p = None -> obtain_frame s = Ok (Some f, s1) ->
  bpm_inv s1 -> available s1 f ->
  exists pg r2 n',
    page_at s1 f = Some pg /\
    FetchPage p s = Ok (Some f, fetched_miss p f pg r2 s1) /\
    bpm_inv (fetched_miss p f pg r2 s1) /\
    LRUKReplacer.node_store_ r2 !! f = Some n' /\
    LRUKNode.is_evictable_ n' = false.
Proof.
  intros Ht Ho Hi1 Ha.
  destruct (page_at_in_range s1 f (inv_pages s1 Hi1) (proj1 Ha)) as [pg Hp].
  destruct (FetchPage_replacer s1 f Hi1 Ha)
    as (r1 & r2 & n' & H1 & H2 & Hn & _ & Hev & _).
  exists pg, r2, n'. split; [exact Hp|].
  split; [now apply (FetchPage_miss_some s p s1 f pg r1 r2)|].
  split; [eapply fetched_miss_inv; eauto|]. split; assumption.
Qed.

Lemma victim_taken_fields v pg r' s :
  page_table_ (victim_taken v pg r' s) = delete (Page.page_id_ pg) (page_table_ s) /\
  free_list_ (victim_taken v pg r' s) = free_list_ s /\
  next_page_id_ (victim_taken v pg r' s) = next_page_id_ s /\
  replacer_ (victim_taken v pg r' s) = r' /\
  pages_ (victim_taken v pg r' s) = pages_ s /\
  disk_ (victim_taken v pg r' s)
  = if Page.is_dirty_ pg
    then Disk.Schedule {| Disk.is_write_ := true; Disk.data_ := Page.data_ pg;
                          Disk.page_id_ := Page.page_id_ pg |} (disk_ s)
    else disk_ s.
Proof. unfold victim_taken. destruct (Page.is_dirty_ pg); repeat split. Qed.

(** Whatever [FetchPage(p)] returns: a frame that holds [p], pinned,
    and that the page table gives for [p]; or nothing, with the manager
    unchanged. *)
Lemma FetchPage_result s p res s' :
  bpm_inv s -> FetchPage p s = Ok (res, s') ->
  match res with
  | Some f => exists pg', page_at s' f = Some pg' /\
                Page.page_id_ pg' = p /\ 0 < Page.pin_count_ pg' /\
                page_table_ s' !! p = Some f
  | None => s' = s
  end.
Proof.
  intros Hi HF.
  destruct (page_table_ s !! p) as [f|] eqn:Ht.
  - destruct (inv_table s Hi p f Ht) as (pg & Hp & Hid).
    destruct (hit_replacer s p f pg Hi Ht Hp) as (r1 & r2 & H1 & H2 & _).
    rewrite (FetchPage_hit s p f pg r1 r2 Ht Hp H1 H2) in HF.
    inversion HF; subst res s'.
    rewrite page_at_fetched_hit by exact Hp.
    destruct (decide (f = f)); [|congruence].
    eexists. split; [reflexivity|]. simpl. split; [exact Hid|].
    split; [|exact Ht]. destruct (inv_pin s Hi f pg Hp). lia.
  - destruct (obtain_frame_cases s Hi)
      as [(f & rest & Hfl & Ho & Hi1 & Ha1)|[(_ & _ & Ho)|(v & r' & pg & _ & _ & _ & _ & Ho & Hi1 & Ha1)]].
    + destruct (FetchPage_installs s p f _ Ht Ho Hi1 Ha1)
        as (pg & r2 & n' & Hp & HF' & _).
      rewrite HF' in HF. inversion HF; subst res s'.
      rewrite page_at_fetched_miss by exact Hp.
      destruct (decide (f = f)); [|congruence].
      eexists. split; [reflexivity|]. simpl. split; [reflexivity|].
      split; [lia|]. apply lookup_insert_eq.
    + rewrite (FetchPage_miss_none s p s Ht Ho) in HF.
      now inversion HF; subst.
    + destruct (FetchPage_installs s p v _ Ht Ho Hi1 Ha1)
        as (pg1 & r2 & n' & Hp & HF' & _).
      rewrite HF' in HF. inversion HF; subst res s'.
      rewrite page_at_fetched_miss by exact Hp.
      destruct (decide (v = v)); [|congruence].
      eexists. split; [reflexivity|]. simpl. split; [reflexivity|].
      split; [lia|]. apply lookup_insert_eq.
Qed.

End FetchFacts.

(** X9. [FetchPage(p)] in a state of the invariant. When [p] is resident
    in frame [f], [f] is returned with its pin count one more; its node
    is not evictable; the page table, the free list, the disk, the
    counter and the other frames and nodes are as before. When [p] is
    not resident, the front of the free list is taken if there is one,
    else the victim [Evict] gives, whose pin count is 0, whose page-table
    entry is erased and whose bytes are written back under its page id
    when dirty; the frame then holds [p] with [pin_count_ = 1],
    [is_dirty_ = false] and the bytes the disk has for [p], the page
    table maps [p] to it and its node is not evictable. With an empty
    free list and no evictable node [FetchPage] returns nothing and
    changes nothing. *)
Theorem FetchPage_contract (s : BufferPoolManager.t) (p : Z) :
  Inv.bpm_inv s ->
  (forall f, BufferPoolManager.page_table_ s !! p = Some f ->
     exists pg n' s',
       Inv.page_at s f = Some pg /\
       BufferPoolManager.FetchPage p s = Ok (Some f, s') /\
       Inv.page_at s' f = Some (Page.set_pin_count (Page.pin_count_ pg + 1) pg) /\
       Inv.node_at s' f = Some n' /\ LRUKNode.is_evictable_ n' = false /\
       (forall g, g <> f ->
          Inv.page_at s' g = Inv.page_at s g /\ Inv.node_at s' g = Inv.node_at s g) /\
       BufferPoolManager.page_table_ s' = BufferPoolManager.page_table_ s /\
       BufferPoolManager.free_list_ s' = BufferPoolManager.free_list_ s /\
       BufferPoolManager.disk_ s' = BufferPoolManager.disk_ s /\
       BufferPoolManager.next_page_id_ s' = BufferPoolManager.next_page_id_ s) /\
  (BufferPoolManager.page_table_ s !! p = None ->
   (forall f rest, BufferPoolManager.free_list_ s = f :: rest ->
      exists pg' n' s',
        BufferPoolManager.FetchPage p s = Ok (Some f, s') /\
        Inv.page_at s' f = Some pg' /\
        Page.page_id_ pg' = p /\ Page.pin_count_ pg' = 1 /\
        Page.is_dirty_ pg' = false /\
        Page.data_ pg' = Disk.read_block (BufferPoolManager.disk_ s) p /\
        Inv.node_at s' f = Some n' /\ LRUKNode.is_evictable_ n' = false /\
        BufferPoolManager.page_table_ s'
        = <[p := f]> (BufferPoolManager.page_table_ s) /\
        BufferPoolManager.free_list_ s' = rest /\
        Disk.blocks (BufferPoolManager.disk_ s')
        = Disk.blocks (BufferPoolManager.disk_ s)) /\
   (forall v r', BufferPoolManager.free_list_ s = [] ->
      LRUKReplacer.Evict (BufferPoolManager.replacer_ s) = Ok (Some v, r') ->
      exists pg pg' n' s',
        Inv.page_at s v = Some pg /\ Page.pin_count_ pg = 0 /\
        BufferPoolManager.FetchPage p s = Ok (Some v, s') /\
        Inv.page_at s' v = Some pg' /\
        Page.page_id_ pg' = p /\ Page.pin_count_ pg' = 1 /\
        Page.is_dirty_ pg' = false /\
        Page.data_ pg' = Disk.read_block (BufferPoolManager.disk_ s') p /\
        Inv.node_at s' v = Some n' /\ LRUKNode.is_evictable_ n' = false /\
        BufferPoolManager.page_table_ s'
        = <[p := v]> (delete (Page.page_id_ pg) (BufferPoolManager.page_table_ s)) /\
        BufferPoolManager.free_list_ s' = [] /\
        Disk.blocks (BufferPoolManager.disk_ s')
        = if Page.is_dirty_ pg
          then <[Page.page_id_ pg := Page.data_ pg]>
                 (Disk.blocks (BufferPoolManager.disk_ s))
          else Disk.blocks (BufferPoolManager.disk_ s)) /\
   (BufferPoolManager.free_list_ s = [] ->
    Spec.no_evictable (BufferPoolManager.replacer_ s) ->
    BufferPoolManager.FetchPage p s = Ok (None, s))) /\
  (forall res s', BufferPoolManager.FetchPage p s = Ok (res, s') ->
     Inv.bpm_inv s' /\
     match res with
     | Some f => exists pg', Inv.page_at s' f = Some pg' /\
                   Page.page_id_ pg' = p /\ 0 < Page.pin_count_ pg' /\
                   BufferPoolManager.page_table_ s' !! p = Some f
     | None => s' = s
     end).
Proof.
  intros Hi. split; [|split].
  - intros f Ht.
    destruct (Inv.inv_table s Hi p f Ht) as (pg & Hp & Hid).
    destruct (FetchFacts.hit_replacer s p f pg Hi Ht Hp)
      as (r1 & r2 & H1 & H2 & Hn & Hev & Ho & _).
    exists pg, (LRUKReplacer.accessed f r1), (Post.fetched_hit f pg r1 r2 s).
    split; [exact Hp|].
    split; [now apply OpFacts.FetchPage_hit|].
    rewrite FetchFacts.page_at_fetched_hit by exact Hp.
    split; [destruct (decide (f = f)); [reflexivity|congruence]|].
    split; [exact Hn|]. split; [exact Hev|].
    split; [|repeat split].
    intros g Hg. rewrite FetchFacts.page_at_fetched_hit by exact Hp.
    split; [now destruct (decide (g = f))|]. now apply Ho.
  - intros Ht. split; [|split].
    + intros f rest Hfl.
      destruct (OpFacts.popped_inv s f rest Hi Hfl) as [Hi1 Ha1].
      destruct (FetchFacts.FetchPage_installs s p f _ Ht
                  (OpFacts.obtain_frame_free s f rest Hfl) Hi1 Ha1)
        as (pg & r2 & n' & Hp & HF & _ & Hn & Hev).
      eexists _, n', _. split; [exact HF|].
      rewrite FetchFacts.page_at_fetched_miss by exact Hp.
      split; [destruct (decide (f = f)); [reflexivity|congruence]|].
      repeat split; assumption.
    + intros v r' Hfl He.
      destruct (FetchFacts.obtain_frame_cases s Hi)
        as [(f & rest & Hfl' & _)|[(_ & He' & _)|(v' & r'' & pg & _ & He' & Hp & Hpin & Ho & Hi1 & Ha1)]];
        [congruence|congruence|].
      assert (v' = v) by congruence. subst v'.
      assert (r'' = r') by congruence. subst r''.
      destruct (FetchFacts.FetchPage_installs s p v _ Ht Ho Hi1 Ha1)
        as (pg1 & r2 & n' & Hp1 & HF & _ & Hn & Hev).
      destruct (FetchFacts.victim_taken_fields v pg r' s)
        as (Htb & Hfl1 & _ & _ & _ & Hd).
      eexists pg, _, n', _. split; [exact Hp|]. split; [exact Hpin|].
      split; [exact HF|].
      rewrite FetchFacts.page_at_fetched_miss by exact Hp1.
      split; [destruct (decide (v = v)); [reflexivity|congruence]|].
      split; [reflexivity|]. split; [reflexivity|]. split; [reflexivity|].
      split; [reflexivity|]. split; [exact Hn|]. split; [exact Hev|].
      split; [unfold Post.fetched_miss; simpl; now rewrite Htb|].
      split; [unfold Post.fetched_miss; simpl; now rewrite Hfl1|].
      unfold Post.fetched_miss. simpl. rewrite Hd.
      now destruct (Page.is_dirty_ pg).
    + intros Hfl Hne.
      apply OpFacts.FetchPage_miss_none; [exact Ht|].
      apply OpFacts.obtain_frame_none; [exact Hfl|].
      now apply ReplacerRunFacts.Evict_in_order_no_evictable.
  - intros res s' HF.
    split; [eapply OpFacts.FetchPage_inv; eauto|].
    now apply FetchFacts.FetchPage_result.
Qed.

Lemma FetchPage_contract_witness :
  Inv.bpm_inv Demo.two_pages /\
  BufferPoolManager.page_table_ Demo.two_pages !! 0 = Some 0 /\
  exists pg n' s',
    Inv.page_at Demo.two_pages 0 = Some pg /\
    BufferPoolManager.FetchPage 0 Demo.two_pages = Ok (Some 0, s') /\
    Inv.page_at s' 0 = Some (Page.set_pin_count (Page.pin_count_ pg + 1) pg) /\
    Inv.node_at s' 0 = Some n' /\ LRUKNode.is_evictable_ n' = false.
Proof.
  split; [apply DemoFacts.two_pages_inv|].
  split; [vm_compute; reflexivity|].
  destruct (proj1 (FetchPage_contract Demo.two_pages 0 DemoFacts.two_pages_inv) 0)
    as (pg & n' & s' & H1 & H2 & H3 & H4 & H5 & _).
  - vm_compute. reflexivity.
  - exists pg, n', s'. repeat split; assumption.
Defined.

(** ** The methods return in every state of the invariant *)

Module TotalFacts.

Import BufferPoolManager Inv Post BpmFacts InvFacts OpFacts.

Lemma UnpinPage_total s p d :
  bpm_inv s -> exists b s', UnpinPage p d s = Ok (b, s').
Proof.
  intros Hi. destruct (page_table_ s !! p) as [f|] eqn:Ht.
  - destruct (inv_table s Hi p f Ht) as (pg & Hp & _).
    destruct (Z_lt_ge_dec 0 (Page.pin_count_ pg)) as [Hpin|Hpin].
    + destruct (ContractFacts.pinned_node s f pg Hi Hp Hpin) as (n & Hn & Hev).
      rewrite (ContractFacts.UnpinPage_pinned_run s p d f pg n Hi Ht Hp Hpin Hn Hev).
      eauto.
    + rewrite (UnpinPage_unpinned s p d f pg Ht Hp ltac:(lia)). eauto.
  - rewrite (UnpinPage_absent s p d Ht). eauto.
Qed.

Lemma FlushPage_total s p :
  bpm_inv s -> exists b s', FlushPage p s = Ok (b, s').
Proof.
  intros Hi. destruct (page_table_ s !! p) as [f|] eqn:Ht.
  - destruct (inv_table s Hi p f Ht) as (pg & Hp & _).
    rewrite (FlushPage_resident s p f pg Ht Hp). eauto.
  - rewrite (FlushPage_absent s p Ht). eauto.
Qed.

Lemma DeletePage_total s p :
  bpm_inv s -> exists b s', DeletePage p s = Ok (b, s').
Proof.
  intros Hi. destruct (page_table_ s !! p) as [f|] eqn:Ht.
  - destruct (inv_table s Hi p f Ht) as (pg & Hp & _).
    destruct (Z_lt_ge_dec 0 (Page.pin_count_ pg)) as [Hpin|Hpin].
    + rewrite (DeletePage_pinned s p f pg Ht Hp Hpin). eauto.
    + destruct (Remove_resident s p f pg Hi Ht Hp ltac:(lia)) as (r' & Hr & _).
      rewrite (DeletePage_unpinned s p f pg r' Ht Hp ltac:(lia) Hr). eauto.
  - rewrite (DeletePage_absent s p Ht). eauto.
Qed.

Lemma FetchPageBasic_total s p :
  bpm_inv s -> exists g s', Guarded.FetchPageBasic p s = Ok (g, s').
Proof.
  intros Hi. destruct (FetchPage_total s p Hi) as (res & s' & H & _).
  unfold Guarded.FetchPageBasic. rewrite (bind_run _ _ _ _ _ H).
  destruct res; eauto.
Qed.

Lemma NewPageGuarded_total s :
  bpm_inv s -> exists g s', Guarded.NewPageGuarded s = Ok (g, s').
Proof.
  intros Hi. destruct (NewPage_total s Hi) as (res & s' & H & _).
  unfold Guarded.NewPageGuarded. rewrite (bind_run _ _ _ _ _ H).
  destruct res as [[pid f]|]; eauto.
Qed.

End TotalFacts.

(** X10. In every state a pool reaches from its constructor by
    operations that returned, [NewPage], [FetchPage], [UnpinPage],
    [FlushPage], [DeletePage], [FetchPageBasic] and [NewPageGuarded]
    return: none of them raises one of the replacer's exceptions
    ("Invalid frame id", "Attempt to remove a non-evictable frame") or
    indexes [pages_] out of range. *)
Theorem methods_always_return (pool_size k : Z) (s : BufferPoolManager.t) :
  0 < pool_size < 2 ^ 31 -> 0 < k ->
  Inv.reachable pool_size k s ->
  returns (BufferPoolManager.NewPage s) /\
  returns (Guarded.NewPageGuarded s) /\
  forall p,
    returns (BufferPoolManager.FetchPage p s) /\
    (forall d, returns (BufferPoolManager.UnpinPage p d s)) /\
    returns (BufferPoolManager.FlushPage p s) /\
    returns (BufferPoolManager.DeletePage p s) /\
    returns (Guarded.FetchPageBasic p s).
Proof.
  intros Hn Hk Hr.
  pose proof (ReachFacts.reachable_inv pool_size k s Hn Hk Hr) as Hi.
  unfold returns. split; [|split].
  - destruct (OpFacts.NewPage_total s Hi) as (res & s' & H & _). eauto.
  - destruct (TotalFacts.NewPageGuarded_total s Hi) as (g & s' & H). eauto.
  - intros p. split; [|split; [|split; [|split]]].
    + destruct (OpFacts.FetchPage_total s p Hi) as (res & s' & H & _). eauto.
    + intros d. destruct (TotalFacts.UnpinPage_total s p d Hi) as (b & s' & H). eauto.
    + destruct (TotalFacts.FlushPage_total s p Hi) as (b & s' & H). eauto.
    + destruct (TotalFacts.DeletePage_total s p Hi) as (b & s' & H). eauto.
    + destruct (TotalFacts.FetchPageBasic_total s p Hi) as (g & s' & H). eauto.
Qed.

Lemma methods_always_return_witness :
  returns (BufferPoolManager.NewPage Demo.full) /\
  returns (Guarded.NewPageGuarded Demo.full) /\
  forall p,
    returns (BufferPoolManager.FetchPage p Demo.full) /\
    (forall d, returns (BufferPoolManager.UnpinPage p d Demo.full)) /\
    returns (BufferPoolManager.FlushPage p Demo.full) /\
    returns (BufferPoolManager.DeletePage p Demo.full) /\
    returns (Guarded.FetchPageBasic p Demo.full).
Proof.
  apply (methods_always_return 3 2 Demo.full); [lia|lia|].
  apply DemoFacts.full_reachable.
Defined.

(** ** The shape of the pool is fixed by the constructor *)

Module ShapeFacts.

Import BufferPoolManager Inv Shape BpmFacts.

Lemma keeps_ret {A : Type} (a : A) : keeps (ret a).
Proof. intros s a' s' H. now inversion H. Qed.

Lemma keeps_bind {A B : Type} (c : M A) (k : A -> M B) :
  keeps c -> (forall a, keeps (k a)) -> keeps (bind c k).
Proof.
  intros Hc Hk s b s' H. apply bind_Ok in H as (a & s1 & H1 & H2).
  rewrite (Hk a s1 b s' H2). now apply (Hc s a s1).
Qed.

Lemma keeps_modify (f : t -> t) :
  (forall s, shape (f s) = shape s) -> keeps (modify f).
Proof. intros Hf s a s' H. inversion H; subst. apply Hf. Qed.

Lemma keeps_get_page f : keeps (get_page f).
Proof. intros s pg s' H. now apply get_page_Ok in H as [-> _]. Qed.

Lemma shape_store_page f x s : shape (store_page f x s) = shape s.
Proof. unfold shape, store_page. simpl. now rewrite length_insert. Qed.

Lemma keeps_update_page f g : keeps (update_page f g).
Proof.
  unfold update_page. apply keeps_bind; [apply keeps_get_page|].
  intros pg. apply keeps_modify. intros s. apply shape_store_page.
Qed.

Lemma keeps_on_replacer op : keeps_params op -> keeps (on_replacer op).
Proof.
  intros Hop s a s' H. unfold on_replacer in H.
  apply obind_Ok in H as (r & Hr & H). inversion H; subst.
  destruct (Hop _ _ Hr) as [H1 H2]. unfold shape. simpl. now rewrite H1, H2.
Qed.

Lemma keeps_params_RecordAccess f : keeps_params (LRUKReplacer.RecordAccess f).
Proof.
  intros r r' H. unfold LRUKReplacer.RecordAccess in H.
  destruct (LRUKReplacer.frame_check r f); [discriminate|]. now inversion H; subst.
Qed.

Lemma keeps_params_SetEvictable f b : keeps_params (LRUKReplacer.SetEvictable f b).
Proof.
  intros r r' H. unfold LRUKReplacer.SetEvictable in H.
  destruct (LRUKReplacer.frame_check r f); [discriminate|].
  destruct (LRUKReplacer.node_store_ r !! f) as [n|]; [|now inversion H; subst].
  case_bool_decide; now inversion H; subst.
Qed.

Lemma keeps_params_Remove f : keeps_params (LRUKReplacer.Remove f).
Proof.
  intros r r' H. unfold LRUKReplacer.Remove in H.
  destruct (LRUKReplacer.frame_check r f); [discriminate|].
  destruct (LRUKReplacer.node_store_ r !! f) as [n|]; [|now inversion H; subst].
  destruct (negb (LRUKNode.is_evictable_ n)); [discriminate|]. now inversion H; subst.
Qed.

Lemma keeps_WriteFrame f p : keeps (WriteFrame f p).
Proof.
  unfold WriteFrame. apply keeps_bind; [apply keeps_get_page|].
  intros pg. now apply keeps_modify.
Qed.

Lemma keeps_ReadFrame f p : keeps (ReadFrame f p).
Proof.
  unfold ReadFrame. apply keeps_bind; [apply keeps_get_page|]. intros pg.
  apply keeps_bind; [intros s a s' H; now inversion H|]. intros d.
  apply keeps_bind; [now apply keeps_modify|]. intros _. apply keeps_update_page.
Qed.

Lemma keeps_obtain_frame : keeps obtain_frame.
Proof.
  intros s res s' H. unfold obtain_frame in H.
  destruct (free_list_ s) as [|f rest]; [|now inversion H; subst].
  apply obind_Ok in H as ([v r] & He & H).
  apply ReplacerRunFacts.Evict_in_order_Ok in He; [|reflexivity].
  assert (Hs : shape (set_replacer r s) = shape s).
  { destruct v as [f|]; [destruct He as [_ ->]|subst r]; reflexivity. }
  destruct v as [f|]; [|now inversion H; subst].
  rewrite <- Hs. revert H. generalize (set_replacer r s). intros s1 H.
  assert (Hk : keeps (let* p := get_page f in
             modify (fun s' => set_page_table
                       (delete (Page.page_id_ p) (page_table_ s')) s') ;;
             (if Page.is_dirty_ p
              then WriteFrame f (Page.page_id_ p)
              else ret tt) ;;
             ret (Some f))).
  { apply keeps_bind; [apply keeps_get_page|]. intros pg.
    apply keeps_bind; [now apply keeps_modify|]. intros _.
    apply keeps_bind; [|intros _; apply keeps_ret].
    destruct (Page.is_dirty_ pg); [apply keeps_WriteFrame|apply keeps_ret]. }
  exact (Hk s1 res s' H).
Qed.

Lemma keeps_NewPage : keeps NewPage.
Proof.
  unfold NewPage. apply keeps_bind; [apply keeps_obtain_frame|].
  intros [f|]; [|apply keeps_ret].
  apply keeps_bind; [intros s a s' H; now inversion H|]. intros pid.
  apply keeps_bind; [apply keeps_update_page|]. intros _.
  apply keeps_bind; [now apply keeps_modify|]. intros _.
  apply keeps_bind; [apply keeps_on_replacer, keeps_params_SetEvictable|]. intros _.
  apply keeps_bind; [apply keeps_on_replacer, keeps_params_RecordAccess|]. intros _.
  apply keeps_ret.
Qed.

Lemma keeps_FetchPage p : keeps (FetchPage p).
Proof.
  intros s res s' H. unfold FetchPage in H.
  destruct (page_table_ s !! p) as [f|].
  - revert H. apply keeps_bind; [apply keeps_get_page|]. intros pg.
    apply keeps_bind.
    { destruct (Page.pin_count_ pg =? 0);
        [apply keeps_on_replacer, keeps_params_SetEvictable|apply keeps_ret]. }
    intros _. apply keeps_bind; [apply keeps_update_page|]. intros _.
    apply keeps_bind; [apply keeps_on_replacer, keeps_params_RecordAccess|]. intros _.
    apply keeps_ret.
  - revert H. apply keeps_bind; [apply keeps_obtain_frame|].
    intros [f|]; [|apply keeps_ret].
    apply keeps_bind; [apply keeps_update_page|]. intros _.
    apply keeps_bind; [apply keeps_ReadFrame|]. intros _.
    apply keeps_bind; [now apply keeps_modify|]. intros _.
    apply keeps_bind; [apply keeps_update_page|]. intros _.
    apply keeps_bind; [apply keeps_on_replacer, keeps_params_RecordAccess|]. intros _.
    apply keeps_bind; [apply keeps_on_replacer, keeps_params_SetEvictable|]. intros _.
    apply keeps_ret.
Qed.

Lemma keeps_UnpinPage p d : keeps (UnpinPage p d).
Proof.
  intros s res s' H. unfold UnpinPage in H.
  destruct (page_table_ s !! p) as [f|]; [|now inversion H; subst].
  revert H. apply keeps_bind; [apply keeps_get_page|]. intros pg.
  destruct (Page.pin_count_ pg <=? 0); [apply keeps_ret|].
  apply keeps_bind; [apply keeps_update_page|]. intros _.
  apply keeps_bind; [|intros _; apply keeps_ret].
  destruct (Page.pin_count_ pg - 1 =? 0);
    [apply keeps_on_replacer, keeps_params_SetEvictable|apply keeps_ret].
Qed.

Lemma keeps_FlushPage p : keeps (FlushPage p).
Proof.
  intros s res s' H. unfold FlushPage in H.
  destruct (page_table_ s !! p) as [f|]; [|now inversion H; subst].
  revert H. apply keeps_bind; [apply keeps_WriteFrame|]. intros _.
  apply keeps_bind; [apply keeps_update_page|]. intros _. apply keeps_ret.
Qed.

Lemma keeps_FlushAllPages : keeps FlushAllPages.
Proof.
  intros s res s' H. unfold FlushAllPages in H.
  case_bool_decide; [now inversion H; subst|discriminate].
Qed.

Lemma keeps_DeletePage p : keeps (DeletePage p).
Proof.
  intros s res s' H. unfold DeletePage in H.
  destruct (page_table_ s !! p) as [f|]; [|now inversion H; subst].
  revert H. apply keeps_bind; [apply keeps_get_page|]. intros pg.
  destruct (0 <? Page.pin_count_ pg); [apply keeps_ret|].
  apply keeps_bind; [apply keeps_on_replacer, keeps_params_Remove|]. intros _.
  apply keeps_bind; [now apply keeps_modify|]. intros _.
  apply keeps_bind; [apply keeps_update_page|]. intros _.
  apply keeps_bind; [now apply keeps_modify|]. intros _. apply keeps_ret.
Qed.

Lemma keeps_on_latch f op : keeps (on_latch f op).
Proof.
  unfold on_latch. apply keeps_bind; [apply keeps_get_page|]. intros pg.
  apply keeps_bind.
  { intros s l s' H. apply obind_Ok in H as (l' & _ & H). now inversion H; subst. }
  intros l. apply keeps_update_page.
Qed.

Lemma keeps_forget {A : Type} (c : M A) : keeps c -> keeps (forget c).
Proof. intros Hc. unfold forget. apply keeps_bind; [exact Hc|]. intros a. apply keeps_ret. Qed.

Lemma keeps_exec o : keeps (exec o).
Proof.
  destruct o; simpl; try apply keeps_forget.
  - apply keeps_NewPage.
  - apply keeps_FetchPage.
  - apply keeps_UnpinPage.
  - apply keeps_FlushPage.
  - apply keeps_FlushAllPages.
  - apply keeps_DeletePage.
  - unfold Guarded.FetchPageBasic. apply keeps_bind; [apply keeps_FetchPage|].
    intros [f|]; apply keeps_ret.
  - unfold Guarded.FetchPageRead. apply keeps_bind; [apply keeps_FetchPage|].
    intros [f|]; [|apply keeps_ret].
    apply keeps_bind; [apply keeps_on_latch|]. intros _. apply keeps_ret.
  - unfold Guarded.FetchPageWrite. apply keeps_bind; [apply keeps_FetchPage|].
    intros [f|]; [|apply keeps_ret].
    apply keeps_bind; [apply keeps_on_latch|]. intros _. apply keeps_ret.
  - unfold Guarded.NewPageGuarded. apply keeps_bind; [apply keeps_NewPage|].
    intros [[pid f]|]; apply keeps_ret.
  - apply keeps_on_latch.
  - apply keeps_on_latch.
  - apply keeps_on_latch.
  - apply keeps_on_latch.
Qed.

Lemma reachable_shape pool_size k s :
  reachable pool_size k s ->
  shape s = (pool_size, Z.to_nat pool_size, pool_size, k).
Proof.
  induction 1 as [disk|s o s' _ IH H].
  - unfold shape, create. simpl. now rewrite length_replicate.
  - rewrite <- IH. now apply (keeps_exec o s tt s').
Qed.

(** The frames the page table points at and the frames of the free list
    are distinct frames of the pool. *)
Lemma frames_bound s :
  bpm_inv s ->
  Z.of_nat (size (page_table_ s)) + Z.of_nat (length (free_list_ s)) <= pool_size_ s.
Proof.
  intros Hi.
  set (used := (map_to_list (page_table_ s)).*2).
  assert (Hnd : NoDup (used ++ free_list_ s)).
  { apply NoDup_app. split; [|split].
    - unfold used. apply NoDup_fmap_2_strong; [|apply NoDup_map_to_list].
      intros [p f] [q g] Hp Hq Hfg. simpl in Hfg. subst g.
      apply elem_of_map_to_list in Hp, Hq.
      destruct (inv_table s Hi p f Hp) as (pg & Hpg & Hid).
      destruct (inv_table s Hi q f Hq) as (pg' & Hpg' & Hid').
      f_equal. congruence.
    - intros f Hu Hfr. unfold used in Hu.
      apply list_elem_of_fmap in Hu as ([p g] & -> & Hin). simpl in Hfr.
      apply elem_of_map_to_list in Hin.
      destruct (inv_free s Hi g Hfr) as (_ & _ & Hno). now apply (Hno p).
    - apply Hi. }
  assert (Hsub : used ++ free_list_ s ⊆+ seqZ 0 (pool_size_ s)).
  { apply NoDup_submseteq; [exact Hnd|].
    intros f Hf. apply elem_of_seqZ. apply elem_of_app in Hf as [Hu|Hfr].
    - unfold used in Hu. apply list_elem_of_fmap in Hu as ([p g] & -> & Hin).
      apply elem_of_map_to_list in Hin. simpl.
      destruct (inv_table s Hi p g Hin) as (pg & Hpg & _).
      pose proof (page_at_range s g pg (inv_pages s Hi) Hpg). lia.
    - destruct (inv_free s Hi f Hfr) as (Hr & _). lia. }
  apply submseteq_length in Hsub.
  rewrite length_app, length_seqZ in Hsub. unfold used in Hsub.
  rewrite length_fmap, length_map_to_list in Hsub.
  destruct (inv_pool s Hi). lia.
Qed.

End ShapeFacts.

(** X11. The structure of every state a pool of [pool_size] frames with
    an LRU-[k] replacer reaches. The pool size, the number of frames and
    the two parameters of the replacer are those of the constructor. The
    page table is injective: an entry [(p, f)] points at a frame of the
    pool that holds page [p] and is not on the free list. The free list
    has no duplicates and its frames are not tracked by the replacer.
    Resident pages and free frames together never exceed [pool_size].
    Pin counts are never negative, and a tracked frame is evictable
    exactly when its pin count is 0. *)
Theorem pool_structure (pool_size k : Z) (s : BufferPoolManager.t) :
  0 < pool_size < 2 ^ 31 -> 0 < k ->
  Inv.reachable pool_size k s ->
  (BufferPoolManager.pool_size_ s = pool_size /\
   Z.of_nat (length (BufferPoolManager.pages_ s)) = pool_size /\
   LRUKReplacer.replacer_size_ (BufferPoolManager.replacer_ s) = pool_size /\
   LRUKReplacer.k_ (BufferPoolManager.replacer_ s) = k) /\
  (forall p f, BufferPoolManager.page_table_ s !! p = Some f ->
     0 <= f < pool_size /\ (f ∉ BufferPoolManager.free_list_ s) /\
     exists pg, Inv.page_at s f = Some pg /\ Page.page_id_ pg = p) /\
  (forall p q f, BufferPoolManager.page_table_ s !! p = Some f ->
     BufferPoolManager.page_table_ s !! q = Some f -> p = q) /\
  (NoDup (BufferPoolManager.free_list_ s) /\
   forall f, f ∈ BufferPoolManager.free_list_ s ->
     0 <= f < pool_size /\ Inv.node_at s f = None) /\
  Z.of_nat (size (BufferPoolManager.page_table_ s))
  + Z.of_nat (length (BufferPoolManager.free_list_ s)) <= pool_size /\
  (forall f pg, Inv.page_at s f = Some pg -> 0 <= Page.pin_count_ pg) /\
  (forall f n, Inv.node_at s f = Some n ->
     exists pg, Inv.page_at s f = Some pg /\
       (LRUKNode.is_evictable_ n = true <-> Page.pin_count_ pg = 0)).
Proof.
  intros Hn Hk Hr.
  pose proof (ReachFacts.reachable_inv pool_size k s Hn Hk Hr) as Hi.
  pose proof (ShapeFacts.reachable_shape pool_size k s Hr) as Hs.
  unfold Shape.shape in Hs.
  assert (Hps : BufferPoolManager.pool_size_ s = pool_size)
    by exact (f_equal (fun x => x.1.1.1) Hs).
  assert (Hlen : length (BufferPoolManager.pages_ s) = Z.to_nat pool_size)
    by exact (f_equal (fun x => x.1.1.2) Hs).
  assert (Hrs : LRUKReplacer.replacer_size_ (BufferPoolManager.replacer_ s) = pool_size)
    by exact (f_equal (fun x => x.1.2) Hs).
  assert (Hkk : LRUKReplacer.k_ (BufferPoolManager.replacer_ s) = k)
    by exact (f_equal (fun x => x.2) Hs).
  clear Hs.
  split; [|split; [|split; [|split; [|split; [|split]]]]].
  - split; [exact Hps|]. split; [lia|]. split; assumption.
  - intros p f Ht. destruct (Inv.inv_table s Hi p f Ht) as (pg & Hpg & Hid).
    pose proof (BpmFacts.page_at_range s f pg (Inv.inv_pages s Hi) Hpg) as Hf.
    split; [lia|]. split; [|eauto].
    intros Hfr. destruct (Inv.inv_free s Hi f Hfr) as (_ & _ & Hno). now apply (Hno p).
  - intros p q f Hp Hq.
    destruct (Inv.inv_table s Hi p f Hp) as (pg & Hpg & Hid).
    destruct (Inv.inv_table s Hi q f Hq) as (pg' & Hpg' & Hid'). congruence.
  - split; [apply Hi|]. intros f Hf.
    destruct (Inv.inv_free s Hi f Hf) as (H1 & H2 & _). split; [lia|exact H2].
  - pose proof (ShapeFacts.frames_bound s Hi). lia.
  - intros f pg Hp. now destruct (Inv.inv_pin s Hi f pg Hp).
  - intros f n Hnd. now destruct (Inv.inv_node s Hi f n Hnd) as (_ & _ & H).
Qed.

Lemma pool_structure_witness :
  Z.of_nat (size (BufferPoolManager.page_table_ Demo.two_pages))
  + Z.of_nat (length (BufferPoolManager.free_list_ Demo.two_pages)) <= 3.
Proof.
  apply (pool_structure 3 2 Demo.two_pages); [lia|lia|].
  apply DemoFacts.two_pages_reachable.
Defined.

(** ** Sequences of calls on the manager *)

Module SeqFacts.

Import BufferPoolManager Inv Post BpmFacts InvFacts OpFacts.

Lemma all_pinned_reachable : reachable 3 2 Demo2.all_pinned.
Proof.
  apply (DemoFacts.after_reachable [OpNewPage; OpNewPage; OpNewPage]).
  vm_compute. reflexivity.
Qed.

Lemma all_pinned_inv : bpm_inv Demo2.all_pinned.
Proof.
  apply (ReachFacts.reachable_inv 3 2); [lia|lia|apply all_pinned_reachable].
Qed.

(** With every frame pinned no node is evictable. *)
Lemma all_pinned_no_evictable s :
  bpm_inv s ->
  (forall g pg, page_at s g = Some pg -> 0 < Page.pin_count_ pg) ->
  Spec.no_evictable (replacer_ s).
Proof.
  intros Hi Hall f n Hn.
  destruct (inv_node s Hi f n Hn) as (_ & _ & pg & Hp & Hev).
  specialize (Hall f pg Hp).
  destruct (LRUKNode.is_evictable_ n); [|reflexivity].
  assert (Page.pin_count_ pg = 0) by now apply Hev. lia.
Qed.

Lemma unpinned_fields d f pg n s :
  page_table_ (unpinned d f pg n s) = page_table_ s /\
  free_list_ (unpinned d f pg n s) = free_list_ s /\
  disk_ (unpinned d f pg n s) = disk_ s /\
  next_page_id_ (unpinned d f pg n s) = next_page_id_ s /\
  LRUKReplacer.current_timestamp_ (replacer_ (unpinned d f pg n s))
  = LRUKReplacer.current_timestamp_ (replacer_ s).
Proof.
  unfold unpinned, unpinned_replacer. simpl.
  destruct (Page.pin_count_ pg - 1 =? 0); repeat split.
Qed.

Lemma read_block_written p pg s :
  Disk.read_block (disk_ (written p pg s)) p = Page.data_ pg.
Proof.
  unfold written, Disk.read_block. simpl. now rewrite lookup_insert_eq.
Qed.

End SeqFacts.

(** X12. A pool whose frames are all pinned is exhausted, and one unpin
    makes room. With an empty free list and every frame pinned,
    [NewPage] returns nothing and [FetchPage] of a page that is not
    resident returns nothing, both without changing the manager. Once
    [UnpinPage(p, d)] has brought the pin count of the frame of [p] from
    1 to 0, [NewPage] returns that frame: the entry of [p] leaves the
    page table, and the bytes of the frame are written to disk under [p]
    exactly when [d] or the dirty flag of the frame was set. *)
Theorem exhausted_pool_then_reuse (s : BufferPoolManager.t) (p f : Z)
    (pg : Page.t) (d : bool) :
  Inv.bpm_inv s ->
  LRUKReplacer.current_timestamp_ (BufferPoolManager.replacer_ s) < SIZE_MAX ->
  BufferPoolManager.free_list_ s = [] ->
  (forall g pg', Inv.page_at s g = Some pg' -> 0 < Page.pin_count_ pg') ->
  BufferPoolManager.page_table_ s !! p = Some f ->
  Inv.page_at s f = Some pg -> Page.pin_count_ pg = 1 ->
  BufferPoolManager.NewPage s = Ok (None, s) /\
  (forall q, BufferPoolManager.page_table_ s !! q = None ->
     BufferPoolManager.FetchPage q s = Ok (None, s)) /\
  exists s1 s2,
    BufferPoolManager.UnpinPage p d s = Ok (true, s1) /\
    BufferPoolManager.NewPage s1
    = Ok (Some (BufferPoolManager.next_page_id_ s, f), s2) /\
    BufferPoolManager.page_table_ s2
    = <[BufferPoolManager.next_page_id_ s := f]>
        (delete p (BufferPoolManager.page_table_ s)) /\
    Disk.blocks (BufferPoolManager.disk_ s2)
    = if d || Page.is_dirty_ pg
      then <[p := Page.data_ pg]> (Disk.blocks (BufferPoolManager.disk_ s))
      else Disk.blocks (BufferPoolManager.disk_ s).
Proof.
  intros Hi Hclk Hfl Hall Ht Hp Hpin.
  pose proof (SeqFacts.all_pinned_no_evictable s Hi Hall) as Hne.
  assert (Ho : BufferPoolManager.obtain_frame s = Ok (None, s)).
  { apply OpFacts.obtain_frame_none; [exact Hfl|].
    now apply ReplacerRunFacts.Evict_in_order_no_evictable. }
  split; [now apply OpFacts.NewPage_none|].
  split; [intros q Hq; now apply OpFacts.FetchPage_miss_none|].
  destruct (Inv.inv_table s Hi p f Ht) as (pg0 & Hp0 & Hid).
  assert (pg0 = pg) by congruence. subst pg0.
  destruct (ContractFacts.pinned_node s f pg Hi Hp ltac:(lia)) as (n & Hn & Hev).
  pose proof (ContractFacts.UnpinPage_pinned_run s p d f pg n Hi Ht Hp ltac:(lia) Hn Hev)
    as HU.
  set (s1 := Post.unpinned d f pg n s) in *.
  assert (Hi1 : Inv.bpm_inv s1) by (eapply OpFacts.UnpinPage_inv; eauto).
  destruct (SeqFacts.unpinned_fields d f pg n s) as (Htb1 & Hfl1 & Hd1 & Hnx1 & Hts1).
  fold s1 in Htb1, Hfl1, Hd1, Hnx1, Hts1.
  assert (Hpa1 : forall g, Inv.page_at s1 g
            = if decide (g = f) then Some (Post.unpinned_page d pg) else Inv.page_at s g).
  { intros g. apply ContractFacts.page_at_unpinned. exact Hp. }
  assert (Hna1 : Inv.node_at s1 f = Some (LRUKNode.set_is_evictable true n)).
  { unfold s1. rewrite ContractFacts.node_at_unpinned by assumption.
    destruct (decide (f = f)); [|congruence]. now rewrite Hpin. }
  exists s1. 
  destruct (NewPageFacts.NewPage_cases s1 Hi1)
    as [(g & rest & pg' & r2 & Hfl' & _)|[(_ & He & _)|(v & r' & pgv & r2 & _ & He & Hpv & Hpinv & _ & _ & _ & _ & HN)]].
  - congruence.
  - exfalso. apply (NewPageFacts.Evict_None_iff s1 Hi1) in He; [|now rewrite Hts1].
    specialize (He f _ Hna1). discriminate.
  - assert (v = f).
    { destruct (decide (v = f)) as [|Hne']; [assumption|exfalso].
      rewrite Hpa1 in Hpv. destruct (decide (v = f)); [contradiction|].
      specialize (Hall v pgv Hpv). lia. }
    subst v. rewrite Hpa1 in Hpv. destruct (decide (f = f)); [|congruence].
    inversion Hpv; subst pgv. clear Hpv.
    eexists. split; [exact HU|]. rewrite Hnx1 in HN. split; [exact HN|].
    destruct (FetchFacts.victim_taken_fields f (Post.unpinned_page d pg) r' s1)
      as (Htb & _ & Hnx & _ & _ & Hd).
    split.
    + unfold Post.page_installed. simpl. rewrite Htb, Hnx, Hnx1, Htb1.
      simpl. now rewrite Hid.
    + unfold Post.page_installed. simpl. rewrite Hd, Hd1. simpl.
      rewrite Hid. now destruct (d || Page.is_dirty_ pg).
Qed.

Lemma exhausted_pool_then_reuse_witness :
  BufferPoolManager.NewPage Demo2.all_pinned = Ok (None, Demo2.all_pinned) /\
  (forall q, BufferPoolManager.page_table_ Demo2.all_pinned !! q = None ->
     BufferPoolManager.FetchPage q Demo2.all_pinned = Ok (None, Demo2.all_pinned)).
Proof.
  destruct (exhausted_pool_then_reuse Demo2.all_pinned 1 1
              {| Page.data_ := Page.zero_data; Page.page_id_ := 1;
                 Page.pin_count_ := 1; Page.is_dirty_ := false;
                 Page.rwlatch_ := Page.latch_free |} true)
    as (H1 & H2 & _).
  - apply SeqFacts.all_pinned_inv.
  - vm_compute. reflexivity.
  - vm_compute. reflexivity.
  - intros g pg' Hg.
    assert (Hr : 0 <= g < 3).
    { apply (BpmFacts.page_at_range Demo2.all_pinned g pg'); [reflexivity|exact Hg]. }
    assert (Hc : g = 0 \/ g = 1 \/ g = 2) by lia.
    destruct Hc as [-> | [-> | ->]]; vm_compute in Hg; inversion Hg; subst; simpl; lia.
  - vm_compute. reflexivity.
  - vm_compute. reflexivity.
  - reflexivity.
  - split; assumption.
Defined.

(** X13. What reaches the disk survives a delete, what does not is lost.
    For a resident page [p] with pin count 0: after [FlushPage(p)] and
    [DeletePage(p)], [FetchPage(p)] returns the frame at the front of
    the free list holding [p], pinned once and clean, with the bytes the
    frame of [p] had when it was flushed. After [DeletePage(p)] alone,
    [FetchPage(p)] returns the bytes the disk had for [p] before:
    [DeletePage] never writes a frame back, even a dirty one. *)
Theorem flush_delete_fetch_round_trip (s : BufferPoolManager.t) (p f : Z) (pg : Page.t) :
  Inv.bpm_inv s ->
  BufferPoolManager.page_table_ s !! p = Some f ->
  Inv.page_at s f = Some pg -> Page.pin_count_ pg = 0 ->
  (exists s1 s2 s3 pg',
     BufferPoolManager.FlushPage p s = Ok (true, s1) /\
     BufferPoolManager.DeletePage p s1 = Ok (true, s2) /\
     BufferPoolManager.FetchPage p s2
     = Ok (Some (hd f (BufferPoolManager.free_list_ s)), s3) /\
     Inv.page_at s3 (hd f (BufferPoolManager.free_list_ s)) = Some pg' /\
     Page.page_id_ pg' = p /\ Page.pin_count_ pg' = 1 /\
     Page.is_dirty_ pg' = false /\ Page.data_ pg' = Page.data_ pg) /\
  (exists t1 t2 pg',
     BufferPoolManager.DeletePage p s = Ok (true, t1) /\
     BufferPoolManager.FetchPage p t1
     = Ok (Some (hd f (BufferPoolManager.free_list_ s)), t2) /\
     Inv.page_at t2 (hd f (BufferPoolManager.free_list_ s)) = Some pg' /\
     Page.page_id_ pg' = p /\
     Page.data_ pg' = Disk.read_block (BufferPoolManager.disk_ s) p /\
     BufferPoolManager.disk_ t1 = BufferPoolManager.disk_ s).
Proof.
  intros Hi Ht Hp Hpin.
  assert (Hdel : forall s0 pg0, Inv.bpm_inv s0 ->
            BufferPoolManager.page_table_ s0 !! p = Some f ->
            BufferPoolManager.free_list_ s0 = BufferPoolManager.free_list_ s ->
            Inv.page_at s0 f = Some pg0 -> Page.pin_count_ pg0 = 0 ->
            exists t1 t2 pg',
              BufferPoolManager.DeletePage p s0 = Ok (true, t1) /\
              BufferPoolManager.FetchPage p t1
              = Ok (Some (hd f (BufferPoolManager.free_list_ s)), t2) /\
              Inv.page_at t2 (hd f (BufferPoolManager.free_list_ s)) = Some pg' /\
              Page.page_id_ pg' = p /\ Page.pin_count_ pg' = 1 /\
              Page.is_dirty_ pg' = false /\
              Page.data_ pg' = Disk.read_block (BufferPoolManager.disk_ s0) p /\
              BufferPoolManager.disk_ t1 = BufferPoolManager.disk_ s0).
  { intros s0 pg0 Hi0 Ht0 Hfl0 Hp0 Hpin0.
    destruct (OpFacts.Remove_resident s0 p f pg0 Hi0 Ht0 Hp0 ltac:(lia)) as (r' & Hr & _).
    pose proof (OpFacts.DeletePage_unpinned s0 p f pg0 r' Ht0 Hp0 ltac:(lia) Hr) as HD.
    pose proof (OpFacts.deleted_inv s0 p f pg0 r' Hi0 Ht0 Hp0 ltac:(lia) Hr) as Hi1.
    set (t1 := Post.deleted p f pg0 r' s0) in *.
    assert (Htb1 : BufferPoolManager.page_table_ t1 !! p = None).
    { unfold t1, Post.deleted. simpl. apply lookup_delete_eq. }
    assert (Hfl1 : exists rest, BufferPoolManager.free_list_ t1
                     = hd f (BufferPoolManager.free_list_ s) :: rest).
    { unfold t1, Post.deleted. simpl. rewrite Hfl0.
      destruct (BufferPoolManager.free_list_ s) as [|g rest]; simpl; eauto. }
    destruct Hfl1 as (rest & Hfl1).
    destruct (OpFacts.popped_inv t1 _ rest Hi1 Hfl1) as [Hi2 Ha2].
    destruct (FetchFacts.FetchPage_installs t1 p _ _ Htb1
                (OpFacts.obtain_frame_free t1 _ rest Hfl1) Hi2 Ha2)
      as (pg1 & r2 & n' & Hp1 & HF & _).
    eexists t1, _, _. split; [exact HD|]. split; [exact HF|].
    rewrite FetchFacts.page_at_fetched_miss by exact Hp1.
    destruct (decide (hd f (BufferPoolManager.free_list_ s)
                      = hd f (BufferPoolManager.free_list_ s))); [|congruence].
    split; [reflexivity|]. repeat split. }
  split.
  - pose proof (OpFacts.FlushPage_resident s p f pg Ht Hp) as HFl.
    pose proof (OpFacts.flushed_inv s p f pg Hi Hp) as Hi1.
    set (s1 := Post.flushed p f pg s) in *.
    assert (Hp1 : Inv.page_at s1 f = Some (Page.set_is_dirty false pg)).
    { unfold s1. rewrite ContractFacts.page_at_flushed by exact Hp.
      destruct (decide (f = f)); [reflexivity|congruence]. }
    destruct (Hdel s1 _ Hi1 Ht eq_refl Hp1 Hpin)
      as (t1 & t2 & pg' & HD & HF & Hp' & Hid & Hpn & Hdt & Hda & _).
    exists s1, t1, t2, pg'. split; [exact HFl|]. split; [exact HD|].
    split; [exact HF|]. split; [exact Hp'|]. split; [exact Hid|].
    split; [exact Hpn|]. split; [exact Hdt|]. rewrite Hda.
    unfold s1, Post.flushed. simpl. apply SeqFacts.read_block_written.
  - destruct (Hdel s pg Hi Ht eq_refl Hp Hpin)
      as (t1 & t2 & pg' & HD & HF & Hp' & Hid & _ & _ & Hda & Hdk).
    exists t1, t2, pg'. repeat split; assumption.
Qed.

Lemma flush_delete_fetch_round_trip_witness :
  exists s1 s2 s3 pg',
    BufferPoolManager.FlushPage 0 Demo.two_pages = Ok (true, s1) /\
    BufferPoolManager.DeletePage 0 s1 = Ok (true, s2) /\
    BufferPoolManager.FetchPage 0 s2 = Ok (Some 2, s3) /\
    Inv.page_at s3 2 = Some pg' /\
    Page.page_id_ pg' = 0 /\ Page.pin_count_ pg' = 1 /\
    Page.is_dirty_ pg' = false /\ Page.data_ pg' = Page.zero_data.
Proof.
  apply (flush_delete_fetch_round_trip Demo.two_pages 0 0
           {| Page.data_ := Page.zero_data; Page.page_id_ := 0;
              Page.pin_count_ := 0; Page.is_dirty_ := true;
              Page.rwlatch_ := Page.latch_free |}).
  - apply DemoFacts.two_pages_inv.
  - vm_compute. reflexivity.
  - vm_compute. reflexivity.
  - reflexivity.
Defined.

(** X14. [FlushPage] is idempotent on what it stores: a second
    [FlushPage(p)] right after the first returns the same value and
    leaves every frame, the blocks of the disk, the page table, the free
    list, the replacer and the counter as the first left them (only one
    more write request is logged). *)
Theorem FlushPage_twice (s s1 : BufferPoolManager.t) (p : Z) (b : bool) :
  Inv.bpm_inv s ->
  BufferPoolManager.FlushPage p s = Ok (b, s1) ->
  exists s2,
    BufferPoolManager.FlushPage p s1 = Ok (b, s2) /\
    BufferPoolManager.pages_ s2 = BufferPoolManager.pages_ s1 /\
    Disk.blocks (BufferPoolManager.disk_ s2) = Disk.blocks (BufferPoolManager.disk_ s1) /\
    BufferPoolManager.page_table_ s2 = BufferPoolManager.page_table_ s1 /\
    BufferPoolManager.free_list_ s2 = BufferPoolManager.free_list_ s1 /\
    BufferPoolManager.replacer_ s2 = BufferPoolManager.replacer_ s1 /\
    BufferPoolManager.next_page_id_ s2 = BufferPoolManager.next_page_id_ s1.
Proof.
  intros Hi HF.
  destruct (BufferPoolManager.page_table_ s !! p) as [f|] eqn:Ht.
  - destruct (Inv.inv_table s Hi p f Ht) as (pg & Hp & _).
    rewrite (OpFacts.FlushPage_resident s p f pg Ht Hp) in HF.
    inversion HF; subst b s1. clear HF.
    assert (Hp1 : Inv.page_at (Post.flushed p f pg s) f
                  = Some (Page.set_is_dirty false pg)).
    { rewrite ContractFacts.page_at_flushed by exact Hp.
      destruct (decide (f = f)); [reflexivity|congruence]. }
    eexists. split; [apply (OpFacts.FlushPage_resident (Post.flushed p f pg s) p f _ Ht Hp1)|].
    split; [|split; [|repeat split]].
    + unfold Post.flushed, Post.written, BufferPoolManager.store_page. simpl.
      apply list_insert_id. apply list_lookup_insert_eq.
      apply BpmFacts.page_at_Some in Hp. lia.
    + unfold Post.flushed, Post.written. simpl. apply insert_insert_eq.
  - rewrite (OpFacts.FlushPage_absent s p Ht) in HF. inversion HF; subst b s1.
    exists s. split; [now apply OpFacts.FlushPage_absent|]. repeat split.
Qed.

Lemma FlushPage_twice_witness :
  exists s2,
    BufferPoolManager.FlushPage 0 Demo2.flushed_once = Ok (true, s2) /\
    BufferPoolManager.pages_ s2 = BufferPoolManager.pages_ Demo2.flushed_once /\
    Disk.blocks (BufferPoolManager.disk_ s2)
    = Disk.blocks (BufferPoolManager.disk_ Demo2.flushed_once).
Proof.
  destruct (FlushPage_twice Demo.two_pages Demo2.flushed_once 0 true
              DemoFacts.two_pages_inv)
    as (s2 & H1 & H2 & H3 & _).
  - vm_compute. reflexivity.
  - exists s2. split; [exact H1|]. split; assumption.
Defined.

(** X16. A fetch and an unpin cancel out. For a resident page [p],
    [FetchPage(p)] followed by [UnpinPage(p, false)] both succeed and
    leave every frame (pin count and dirty flag included), the page
    table, the free list, the disk and the counter as they were; the
    nodes of the other frames are untouched and the node of the frame of
    [p] is evictable or not as before: only its history and the clock
    record the access. *)
Theorem fetch_unpin_round_trip (s : BufferPoolManager.t) (p f : Z) :
  Inv.bpm_inv s ->
  BufferPoolManager.page_table_ s !! p = Some f ->
  exists s1 s2,
    BufferPoolManager.FetchPage p s = Ok (Some f, s1) /\
    BufferPoolManager.UnpinPage p false s1 = Ok (true, s2) /\
    (forall g, Inv.page_at s2 g = Inv.page_at s g) /\
    BufferPoolManager.page_table_ s2 = BufferPoolManager.page_table_ s /\
    BufferPoolManager.free_list_ s2 = BufferPoolManager.free_list_ s /\
    BufferPoolManager.disk_ s2 = BufferPoolManager.disk_ s /\
    BufferPoolManager.next_page_id_ s2 = BufferPoolManager.next_page_id_ s /\
    (forall g, g <> f -> Inv.node_at s2 g = Inv.node_at s g) /\
    (exists n2, Inv.node_at s2 f = Some n2 /\
       forall n, Inv.node_at s f = Some n ->
         LRUKNode.is_evictable_ n2 = LRUKNode.is_evictable_ n).
Proof.
  intros Hi Ht.
  destruct (Inv.inv_table s Hi p f Ht) as (pg & Hp & Hid).
  destruct (Inv.inv_pin s Hi f pg Hp) as [Hpin0 _].
  destruct (FetchFacts.hit_replacer s p f pg Hi Ht Hp)
    as (r1 & r2 & H1 & H2 & Hn & Hev & Ho & _).
  pose proof (OpFacts.FetchPage_hit s p f pg r1 r2 Ht Hp H1 H2) as HF.
  pose proof (OpFacts.fetched_hit_inv s p f pg r1 r2 Hi Ht Hp H1 H2) as Hi1.
  set (s1 := Post.fetched_hit f pg r1 r2 s) in *.
  set (pg1 := Page.set_pin_count (Page.pin_count_ pg + 1) pg).
  assert (Hpa1 : forall g, Inv.page_at s1 g
             = if decide (g = f) then Some pg1 else Inv.page_at s g).
  { intros g. apply FetchFacts.page_at_fetched_hit. exact Hp. }
  assert (Hp1 : Inv.page_at s1 f = Some pg1).
  { rewrite Hpa1. destruct (decide (f = f)); [reflexivity|congruence]. }
  assert (Hn1 : Inv.node_at s1 f = Some (LRUKReplacer.accessed f r1)) by exact Hn.
  assert (Hpin1 : 0 < Page.pin_count_ pg1) by (simpl; lia).
  pose proof (ContractFacts.UnpinPage_pinned_run s1 p false f pg1 _ Hi1 Ht Hp1 Hpin1 Hn1 Hev)
    as HU.
  exists s1. eexists. split; [exact HF|]. split; [exact HU|].
  destruct (SeqFacts.unpinned_fields false f pg1 (LRUKReplacer.accessed f r1) s1)
    as (Htb2 & Hfl2 & Hd2 & Hnx2 & _).
  split; [|split; [|split; [|split; [|split; [|split]]]]].
  - intros g. rewrite ContractFacts.page_at_unpinned by exact Hp1.
    rewrite Hpa1. destruct (decide (g = f)) as [->|]; [|reflexivity].
    rewrite Hp. f_equal. unfold Post.unpinned_page, pg1. destruct pg. simpl.
    unfold Page.set_pin_count, Page.set_is_dirty. simpl. f_equal. lia.
  - now rewrite Htb2.
  - now rewrite Hfl2.
  - now rewrite Hd2.
  - now rewrite Hnx2.
  - intros g Hg. rewrite ContractFacts.node_at_unpinned by assumption.
    destruct (decide (g = f)); [contradiction|]. now apply Ho.
  - rewrite ContractFacts.node_at_unpinned by assumption.
    destruct (decide (f = f)); [|congruence].
    eexists. split; [reflexivity|]. intros n Hnd. simpl.
    destruct (Inv.inv_node s Hi f n Hnd) as (_ & _ & pg0 & Hp0 & Hiff).
    assert (pg0 = pg) by congruence. subst pg0.
    replace (Page.pin_count_ pg + 1 - 1) with (Page.pin_count_ pg) by lia.
    destruct (Page.pin_count_ pg =? 0) eqn:E.
    + apply Z.eqb_eq in E. symmetry. now apply Hiff.
    + apply Z.eqb_neq in E. destruct (LRUKNode.is_evictable_ n); [|reflexivity].
      exfalso. apply E. now apply Hiff.
Qed.

Lemma fetch_unpin_round_trip_witness :
  exists s1 s2,
    BufferPoolManager.FetchPage 1 Demo.two_pages = Ok (Some 1, s1) /\
    BufferPoolManager.UnpinPage 1 false s1 = Ok (true, s2) /\
    (forall g, Inv.page_at s2 g = Inv.page_at Demo.two_pages g).
Proof.
  destruct (fetch_unpin_round_trip Demo.two_pages 1 1 DemoFacts.two_pages_inv)
    as (s1 & s2 & H1 & H2 & H3 & _).
  - vm_compute. reflexivity.
  - exists s1, s2. repeat split; assumption.
Defined.

(** ** [AllocateFrame] and the guards *)

Module GuardFacts.

Import BufferPoolManager Inv Post BpmFacts InvFacts OpFacts.

Lemma AllocateFrame_obtain_frame s :
  FrameAllocation.AllocateFrame s
  = obind (obtain_frame s) (fun '(res, s') =>
      Ok (FrameAllocation.frame_or_invalid res, s')).
Proof.
  unfold FrameAllocation.AllocateFrame, obtain_frame.
  destruct (free_list_ s) as [|f rest]; [|reflexivity].
  destruct (LRUKReplacer.Evict (replacer_ s)) as [[v r]| | |]; try reflexivity.
  simpl. destruct v as [f|]; [|reflexivity].
  generalize (set_replacer r s). intros s1.
  unfold bind, WriteFrame, bind, get_page, modify, ret.
  destruct (f <? 0) eqn:Hneg; [reflexivity|].
  destruct (pages_ s1 !! Z.to_nat f) as [pg|] eqn:Hpg; [|reflexivity].
  simpl. destruct (Page.is_dirty_ pg); simpl; rewrite ?Hneg, ?Hpg; simpl;
    rewrite ?Hneg, ?Hpg; reflexivity.
Qed.

(** [Drop] of a live guard unpins the page its frame holds. *)
Lemma Drop_live g b f s pg :
  BasicPageGuard.bpm_ g = Some b -> BasicPageGuard.page_ g = Some f ->
  page_at s f = Some pg ->
  BasicPageGuard.Drop g s
  = obind (UnpinPage (Page.page_id_ pg) (BasicPageGuard.is_dirty_ g) s)
      (fun '(_, s') => Ok (BasicPageGuard.clear g, s')).
Proof.
  intros Hb Hf Hp. unfold BasicPageGuard.Drop. rewrite Hb, Hf.
  run_get Hp. reflexivity.
Qed.

Lemma Drop_empty g s :
  BasicPageGuard.is_empty g = true -> BasicPageGuard.Drop g s = Ok (g, s).
Proof.
  unfold BasicPageGuard.is_empty, BasicPageGuard.Drop.
  destruct (BasicPageGuard.bpm_ g), (BasicPageGuard.page_ g);
    intros H; try discriminate; reflexivity.
Qed.

Lemma unpinned_page_clean pg :
  unpinned_page false pg = Page.set_pin_count (Page.pin_count_ pg - 1) pg.
Proof. now destruct pg. Qed.

(** What [NewPage] returns. *)
Lemma NewPage_result s res s1 :
  bpm_inv s -> NewPage s = Ok (res, s1) ->
  match res with
  | None => s1 = s
  | Some (pid, f) =>
      pid = next_page_id_ s /\ bpm_inv s1 /\
      page_table_ s1 !! pid = Some f /\
      (exists pg, page_at s1 f = Some (new_page pid pg)) /\
      exists n, node_at s1 f = Some n /\ LRUKNode.is_evictable_ n = false
  end.
Proof.
  intros Hi HN.
  destruct (NewPageFacts.NewPage_cases s Hi)
    as [(f & rest & pg & r2 & _ & Hp & Hi1 & Ha1 & H2 & HN')
       |[(_ & _ & HN')
        |(v & r' & pg & r2 & _ & _ & Hp & _ & _ & Hi1 & Ha1 & H2 & HN')]];
    rewrite HN' in HN; inversion HN; subst res s1; clear HN.
  - destruct (NewPageFacts.page_installed_facts (set_free_list rest s) f pg r2
                Hi1 Ha1 Hp H2) as (_ & Htb & _ & _ & Hpa & Hna & _).
    split; [reflexivity|].
    split; [now apply page_installed_inv|].
    split; [rewrite Htb; apply lookup_insert_eq|].
    split; [eexists; exact Hpa|]. eexists. split; [exact Hna|reflexivity].
  - reflexivity.
  - assert (Hp1 : page_at (victim_taken v pg r' s) v = Some pg).
    { unfold victim_taken. now destruct (Page.is_dirty_ pg). }
    assert (Hr1 : replacer_ (victim_taken v pg r' s) = r').
    { unfold victim_taken. now destruct (Page.is_dirty_ pg). }
    assert (Hn1 : next_page_id_ (victim_taken v pg r' s) = next_page_id_ s).
    { unfold victim_taken. now destruct (Page.is_dirty_ pg). }
    rewrite <- Hr1 in H2.
    destruct (NewPageFacts.page_installed_facts _ v pg r2 Hi1 Ha1 Hp1 H2)
      as (_ & Htb & _ & _ & Hpa & Hna & _).
    rewrite Hn1 in Htb, Hpa.
    split; [reflexivity|].
    split; [now apply page_installed_inv|].
    split; [rewrite Htb; apply lookup_insert_eq|].
    split; [eexists; exact Hpa|]. eexists. split; [exact Hna|reflexivity].
Qed.

End GuardFacts.

(** X15. [AllocateFrame] does what the opening of [NewPage] and of the
    miss path of [FetchPage] does, with [INVALID_PAGE_ID] for "no frame":
    writing the victim back before or after erasing its page-table entry
    makes no difference. In a state of the invariant it returns, keeps
    the invariant, and gives either [INVALID_PAGE_ID] with the manager
    unchanged or a frame of the pool that is off the free list, untracked
    by the replacer and absent from the page table. *)
Theorem AllocateFrame_spec (s : BufferPoolManager.t) :
  Inv.bpm_inv s ->
  FrameAllocation.AllocateFrame s
  = obind (BufferPoolManager.obtain_frame s) (fun '(res, s') =>
      Ok (FrameAllocation.frame_or_invalid res, s')) /\
  exists f s',
    FrameAllocation.AllocateFrame s = Ok (f, s') /\ Inv.bpm_inv s' /\
    ((f = Page.INVALID_PAGE_ID /\ s' = s /\ BufferPoolManager.free_list_ s = []) \/
     Post.available s' f).
Proof.
  intros Hi. split; [apply GuardFacts.AllocateFrame_obtain_frame|].
  rewrite GuardFacts.AllocateFrame_obtain_frame.
  destruct (FetchFacts.obtain_frame_cases s Hi)
    as [(f & rest & _ & Ho & Hi1 & Ha1)
       |[(Hfl & _ & Ho)|(v & r' & pg & _ & _ & _ & _ & Ho & Hi1 & Ha1)]];
    rewrite Ho; simpl; eexists _, _; (split; [reflexivity|]).
  - split; [exact Hi1|]. now right.
  - split; [exact Hi|]. left. repeat split. exact Hfl.
  - split; [exact Hi1|]. now right.
Qed.

Lemma AllocateFrame_spec_witness :
  exists f s',
    FrameAllocation.AllocateFrame Demo.full = Ok (f, s') /\ Inv.bpm_inv s' /\
    ((f = Page.INVALID_PAGE_ID /\ s' = Demo.full
      /\ BufferPoolManager.free_list_ Demo.full = []) \/
     Post.available s' f).
Proof. apply (AllocateFrame_spec Demo.full). apply DemoFacts.full_inv. Defined.

(** X17. The guard [FetchPageBasic(p)] returns holds exactly the pin
    that [FetchPage(p)] took. When [FetchPage] finds no frame the guard
    is empty and dropping it does nothing. Otherwise the guard is live
    on the frame returned, [Drop] does what [UnpinPage(p, false)] does,
    lowering the pin count of the frame by one, and leaves the guard
    empty, so that a second [Drop] does nothing. *)
Theorem FetchPageBasic_then_Drop (s : BufferPoolManager.t) (p : Z) :
  Inv.bpm_inv s ->
  exists g s1,
    Guarded.FetchPageBasic p s = Ok (g, s1) /\
    BufferPoolManager.FetchPage p s = Ok (BasicPageGuard.page_ g, s1) /\
    match BasicPageGuard.page_ g with
    | None =>
        g = BasicPageGuard.empty /\ s1 = s /\ BasicPageGuard.Drop g s1 = Ok (g, s1)
    | Some f =>
        g = BasicPageGuard.make BasicPageGuard.this_bpm f /\
        exists pg1 s2,
          Inv.page_at s1 f = Some pg1 /\ Page.page_id_ pg1 = p /\
          BasicPageGuard.Drop g s1 = Ok (BasicPageGuard.clear g, s2) /\
          BufferPoolManager.UnpinPage p false s1 = Ok (true, s2) /\
          Inv.page_at s2 f
          = Some (Page.set_pin_count (Page.pin_count_ pg1 - 1) pg1) /\
          BasicPageGuard.is_empty (BasicPageGuard.clear g) = true /\
          BasicPageGuard.Drop (BasicPageGuard.clear g) s2
          = Ok (BasicPageGuard.clear g, s2) /\
          Inv.bpm_inv s2
    end.
Proof.
  intros Hi.
  destruct (OpFacts.FetchPage_total s p Hi) as (res & s1 & HF & Hi1 & _).
  pose proof (FetchFacts.FetchPage_result s p res s1 Hi HF) as Hres.
  destruct res as [f|].
  - destruct Hres as (pg1 & Hp1 & Hid & Hpin & Ht1).
    exists (BasicPageGuard.make BasicPageGuard.this_bpm f), s1.
    split; [unfold Guarded.FetchPageBasic;
            now rewrite (BpmFacts.bind_run _ _ _ _ _ HF)|].
    split; [exact HF|]. simpl. split; [reflexivity|].
    destruct (ContractFacts.pinned_node s1 f pg1 Hi1 Hp1 Hpin) as (n & Hn & Hev).
    pose proof (ContractFacts.UnpinPage_pinned_run s1 p false f pg1 n
                  Hi1 Ht1 Hp1 Hpin Hn Hev) as HU.
    exists pg1, (Post.unpinned false f pg1 n s1).
    split; [exact Hp1|]. split; [exact Hid|].
    split.
    { rewrite (GuardFacts.Drop_live (BasicPageGuard.make BasicPageGuard.this_bpm f)
                 BasicPageGuard.this_bpm f s1 pg1 eq_refl eq_refl Hp1).
      rewrite Hid. simpl. now rewrite HU. }
    split; [exact HU|].
    split.
    { rewrite ContractFacts.page_at_unpinned by exact Hp1.
      destruct (decide (f = f)); [|congruence].
      now rewrite GuardFacts.unpinned_page_clean. }
    split; [reflexivity|]. split; [reflexivity|].
    eapply OpFacts.UnpinPage_inv; eauto.
  - subst s1. exists BasicPageGuard.empty, s.
    split; [unfold Guarded.FetchPageBasic;
            now rewrite (BpmFacts.bind_run _ _ _ _ _ HF)|].
    split; [exact HF|]. simpl. repeat split.
Qed.

Lemma FetchPageBasic_then_Drop_witness :
  exists g s1,
    Guarded.FetchPageBasic 1 Demo.two_pages = Ok (g, s1) /\
    BufferPoolManager.FetchPage 1 Demo.two_pages = Ok (BasicPageGuard.page_ g, s1).
Proof.
  destruct (FetchPageBasic_then_Drop Demo.two_pages 1 DemoFacts.two_pages_inv)
    as (g & s1 & H1 & H2 & _).
  exists g, s1. split; assumption.
Defined.

(** X18. A page made by [NewPageGuarded] and released by [Drop] of its
    guard stays in the pool, unpinned: when [NewPageGuarded] returns the
    page id [pid] the guard is live on the frame of [pid]; after [Drop]
    the page table still maps [pid] to that frame, which holds [pid]
    with [pin_count_ = 0], [is_dirty_ = false] and zeroed bytes, and the
    node of the frame is evictable. When [NewPage] finds no frame the
    guard is empty and the manager unchanged. *)
Theorem NewPageGuarded_then_Drop (s : BufferPoolManager.t) :
  Inv.bpm_inv s ->
  exists res g s1,
    Guarded.NewPageGuarded s = Ok ((res, g), s1) /\
    match res with
    | None => g = BasicPageGuard.empty /\ s1 = s
    | Some pid =>
        pid = BufferPoolManager.next_page_id_ s /\
        exists f s2 pg2 n2,
          g = BasicPageGuard.make BasicPageGuard.this_bpm f /\
          BasicPageGuard.Drop g s1 = Ok (BasicPageGuard.clear g, s2) /\
          BufferPoolManager.page_table_ s2 !! pid = Some f /\
          Inv.page_at s2 f = Some pg2 /\
          Page.page_id_ pg2 = pid /\ Page.pin_count_ pg2 = 0 /\
          Page.is_dirty_ pg2 = false /\ Page.data_ pg2 = Page.zero_data /\
          Inv.node_at s2 f = Some n2 /\ LRUKNode.is_evictable_ n2 = true /\
          Inv.bpm_inv s2
    end.
Proof.
  intros Hi.
  destruct (OpFacts.NewPage_total s Hi) as (res & s1 & HN & Hi1).
  pose proof (GuardFacts.NewPage_result s res s1 Hi HN) as Hres.
  destruct res as [[pid f]|].
  - destruct Hres as (Hpid & _ & Ht1 & (pg & Hp1) & n & Hn & Hev).
    exists (Some pid), (BasicPageGuard.make BasicPageGuard.this_bpm f), s1.
    split; [unfold Guarded.NewPageGuarded;
            now rewrite (BpmFacts.bind_run _ _ _ _ _ HN)|].
    split; [exact Hpid|].
    set (pg1 := Post.new_page pid pg) in *.
    assert (Hpin : 0 < Page.pin_count_ pg1) by (simpl; lia).
    pose proof (ContractFacts.UnpinPage_pinned_run s1 pid false f pg1 n
                  Hi1 Ht1 Hp1 Hpin Hn Hev) as HU.
    exists f, (Post.unpinned false f pg1 n s1).
    eexists _, _. split; [reflexivity|].
    split.
    { rewrite (GuardFacts.Drop_live (BasicPageGuard.make BasicPageGuard.this_bpm f)
                 BasicPageGuard.this_bpm f s1 pg1 eq_refl eq_refl Hp1).
      change (Page.page_id_ pg1) with pid. simpl. now rewrite HU. }
    split; [exact Ht1|].
    split.
    { rewrite ContractFacts.page_at_unpinned by exact Hp1.
      destruct (decide (f = f)); [reflexivity|congruence]. }
    split; [reflexivity|]. split; [reflexivity|]. split; [reflexivity|].
    split; [reflexivity|].
    split.
    { rewrite ContractFacts.node_at_unpinned by assumption.
      destruct (decide (f = f)); [reflexivity|congruence]. }
    split; [reflexivity|].
    eapply OpFacts.UnpinPage_inv; eauto.
  - subst s1. exists None, BasicPageGuard.empty, s.
    split; [unfold Guarded.NewPageGuarded;
            now rewrite (BpmFacts.bind_run _ _ _ _ _ HN)|].
    split; reflexivity.
Qed.

Lemma NewPageGuarded_then_Drop_witness :
  exists res g s1, Guarded.NewPageGuarded Demo.two_pages = Ok ((res, g), s1).
Proof.
  destruct (NewPageGuarded_then_Drop Demo.two_pages DemoFacts.two_pages_inv)
    as (res & g & s1 & H1 & _).
  exists res, g, s1. exact H1.
Defined.

(** X19. Move assignment of [BasicPageGuard] hands the pin over. For two
    distinct guards, [this = std::move(that)] first drops what [this]
    held: nothing when [this] is empty, and otherwise, when [this] is
    live on a pinned frame the page table points at, exactly what
    [UnpinPage] of that frame's page with the dirty flag of [this] does.
    Afterwards [this] has the manager, the frame and the dirty flag of
    [that], and [that] is empty, so dropping it does nothing. *)
Theorem move_assign_transfers (s : BufferPoolManager.t)
    (this that : BasicPageGuard.t) :
  Inv.bpm_inv s ->
  (BasicPageGuard.is_empty this = true ->
   BasicPageGuard.move_assign this that s
   = Ok ((that, BasicPageGuard.clear that), s)) /\
  (forall b f pg,
     BasicPageGuard.bpm_ this = Some b -> BasicPageGuard.page_ this = Some f ->
     Inv.page_at s f = Some pg -> 0 < Page.pin_count_ pg ->
     BufferPoolManager.page_table_ s !! Page.page_id_ pg = Some f ->
     exists s',
       BufferPoolManager.UnpinPage (Page.page_id_ pg)
         (BasicPageGuard.is_dirty_ this) s = Ok (true, s') /\
       BasicPageGuard.move_assign this that s
       = Ok ((that, BasicPageGuard.clear that), s') /\
       Inv.page_at s' f
       = Some (Post.unpinned_page (BasicPageGuard.is_dirty_ this) pg)) /\
  BasicPageGuard.is_empty (BasicPageGuard.clear that) = true /\
  (forall s', BasicPageGuard.Drop (BasicPageGuard.clear that) s'
              = Ok (BasicPageGuard.clear that, s')).
Proof.
  intros Hi.
  assert (Hthat : {| BasicPageGuard.bpm_ := BasicPageGuard.bpm_ that;
                     BasicPageGuard.page_ := BasicPageGuard.page_ that;
                     BasicPageGuard.is_dirty_ := BasicPageGuard.is_dirty_ that |}
                  = that) by now destruct that.
  split; [|split; [|split]].
  - intros He. unfold BasicPageGuard.move_assign.
    rewrite (BpmFacts.bind_run _ _ _ _ _ (GuardFacts.Drop_empty this s He)).
    unfold BufferPoolManager.ret. now rewrite Hthat.
  - intros b f pg Hb Hf Hp Hpin Ht.
    destruct (ContractFacts.pinned_node s f pg Hi Hp Hpin) as (n & Hn & Hev).
    pose proof (ContractFacts.UnpinPage_pinned_run s (Page.page_id_ pg)
                  (BasicPageGuard.is_dirty_ this) f pg n Hi Ht Hp Hpin Hn Hev) as HU.
    eexists. split; [exact HU|]. split.
    + unfold BasicPageGuard.move_assign.
      erewrite BpmFacts.bind_run.
      2:{ rewrite (GuardFacts.Drop_live this b f s pg Hb Hf Hp), HU. reflexivity. }
      unfold BufferPoolManager.ret. now rewrite Hthat.
    + rewrite ContractFacts.page_at_unpinned by exact Hp.
      destruct (decide (f = f)); [reflexivity|congruence].
  - reflexivity.
  - intros s'. reflexivity.
Qed.

Lemma move_assign_transfers_witness :
  BasicPageGuard.move_assign BasicPageGuard.empty
    (BasicPageGuard.make BasicPageGuard.this_bpm 1) Demo.two_pages
  = Ok ((BasicPageGuard.make BasicPageGuard.this_bpm 1,
         BasicPageGuard.clear (BasicPageGuard.make BasicPageGuard.this_bpm 1)),
        Demo.two_pages).
Proof.
  apply (proj1 (move_assign_transfers Demo.two_pages BasicPageGuard.empty
                  (BasicPageGuard.make BasicPageGuard.this_bpm 1)
                  DemoFacts.two_pages_inv)).
  reflexivity.
Defined.

(** ** What reaches the disk *)

Module DiskFacts.

Import BufferPoolManager Inv Post BpmFacts InvFacts OpFacts Writes.

Lemma from_frames_same s s' :
  Disk.blocks (disk_ s') = Disk.blocks (disk_ s) -> from_frames s s'.
Proof. intros H q. left. now rewrite H. Qed.

Lemma from_frames_written s s' f pg :
  page_at s f = Some pg ->
  Disk.blocks (disk_ s')
  = <[Page.page_id_ pg := Page.data_ pg]> (Disk.blocks (disk_ s)) ->
  from_frames s s'.
Proof.
  intros Hp H q. rewrite H. destruct (decide (q = Page.page_id_ pg)) as [->|Hne].
  - right. exists f, pg. split; [exact Hp|]. split; [reflexivity|].
    apply lookup_insert_eq.
  - left. now apply lookup_insert_ne.
Qed.

Lemma from_frames_victim s s' v pg r' :
  page_at s v = Some pg ->
  Disk.blocks (disk_ s') = Disk.blocks (disk_ (victim_taken v pg r' s)) ->
  from_frames s s'.
Proof.
  intros Hp H.
  destruct (FetchFacts.victim_taken_fields v pg r' s) as (_ & _ & _ & _ & _ & Hd).
  rewrite Hd in H. destruct (Page.is_dirty_ pg).
  - now apply (from_frames_written s s' v pg).
  - now apply from_frames_same.
Qed.

Lemma NewPage_disk s res s' :
  bpm_inv s -> NewPage s = Ok (res, s') -> from_frames s s'.
Proof.
  intros Hi HN.
  destruct (NewPageFacts.NewPage_cases s Hi)
    as [(f & rest & pg & r2 & _ & _ & _ & _ & _ & HN')
       |[(_ & _ & HN')
        |(v & r' & pg & r2 & _ & _ & Hp & _ & _ & _ & _ & _ & HN')]];
    rewrite HN' in HN; inversion HN; subst res s'; clear HN.
  - now apply from_frames_same.
  - now apply from_frames_same.
  - now apply (from_frames_victim s _ v pg r').
Qed.

Lemma FetchPage_disk s p res s' :
  bpm_inv s -> FetchPage p s = Ok (res, s') -> from_frames s s'.
Proof.
  intros Hi HF.
  destruct (page_table_ s !! p) as [f|] eqn:Ht.
  - destruct (inv_table s Hi p f Ht) as (pg & Hp & Hid).
    destruct (FetchFacts.hit_replacer s p f pg Hi Ht Hp) as (r1 & r2 & H1 & H2 & _).
    rewrite (FetchPage_hit s p f pg r1 r2 Ht Hp H1 H2) in HF.
    inversion HF; subst res s'. now apply from_frames_same.
  - destruct (FetchFacts.obtain_frame_cases s Hi)
      as [(f & rest & Hfl & Ho & Hi1 & Ha1)
         |[(_ & _ & Ho)|(v & r' & pg & _ & _ & Hpv & _ & Ho & Hi1 & Ha1)]].
    + destruct (FetchFacts.FetchPage_installs s p f _ Ht Ho Hi1 Ha1)
        as (pg & r2 & n' & Hp & HF' & _).
      rewrite HF' in HF. inversion HF; subst res s'. now apply from_frames_same.
    + rewrite (FetchPage_miss_none s p s Ht Ho) in HF.
      inversion HF; subst res s'. now apply from_frames_same.
    + destruct (FetchFacts.FetchPage_installs s p v _ Ht Ho Hi1 Ha1)
        as (pg1 & r2 & n' & Hp & HF' & _).
      rewrite HF' in HF. inversion HF; subst res s'.
      now apply (from_frames_victim s _ v pg r').
Qed.

Lemma UnpinPage_disk s p d b s' :
  bpm_inv s -> UnpinPage p d s = Ok (b, s') -> disk_ s' = disk_ s.
Proof.
  intros Hi HU. destruct (page_table_ s !! p) as [f|] eqn:Ht.
  - destruct (inv_table s Hi p f Ht) as (pg & Hp & _).
    destruct (Z_lt_ge_dec 0 (Page.pin_count_ pg)) as [Hpin|Hpin].
    + destruct (ContractFacts.pinned_node s f pg Hi Hp Hpin) as (n & Hn & Hev).
      rewrite (ContractFacts.UnpinPage_pinned_run s p d f pg n Hi Ht Hp Hpin Hn Hev) in HU.
      inversion HU; subst b s'.
      now destruct (SeqFacts.unpinned_fields d f pg n s) as (_ & _ & Hd & _).
    + rewrite (UnpinPage_unpinned s p d f pg Ht Hp ltac:(lia)) in HU.
      now inversion HU; subst.
  - rewrite (UnpinPage_absent s p d Ht) in HU. now inversion HU; subst.
Qed.

Lemma FlushPage_disk s p b s' :
  bpm_inv s -> FlushPage p s = Ok (b, s') -> from_frames s s'.
Proof.
  intros Hi HF. destruct (page_table_ s !! p) as [f|] eqn:Ht.
  - destruct (inv_table s Hi p f Ht) as (pg & Hp & Hid).
    rewrite (FlushPage_resident s p f pg Ht Hp) in HF. inversion HF; subst b s'.
    apply (from_frames_written s _ f pg Hp). now rewrite Hid.
  - rewrite (FlushPage_absent s p Ht) in HF. inversion HF; subst.
    now apply from_frames_same.
Qed.

Lemma DeletePage_disk s p b s' :
  bpm_inv s -> DeletePage p s = Ok (b, s') -> disk_ s' = disk_ s.
Proof.
  intros Hi HD. destruct (page_table_ s !! p) as [f|] eqn:Ht.
  - destruct (inv_table s Hi p f Ht) as (pg & Hp & _).
    destruct (Z_lt_ge_dec 0 (Page.pin_count_ pg)) as [Hpin|Hpin].
    + rewrite (DeletePage_pinned s p f pg Ht Hp Hpin) in HD. now inversion HD; subst.
    + destruct (Remove_resident s p f pg Hi Ht Hp ltac:(lia)) as (r' & Hr & _).
      rewrite (DeletePage_unpinned s p f pg r' Ht Hp ltac:(lia) Hr) in HD.
      now inversion HD; subst.
  - rewrite (DeletePage_absent s p Ht) in HD. now inversion HD; subst.
Qed.

Lemma on_latch_disk s f op s' :
  on_latch f op s = Ok (tt, s') -> disk_ s' = disk_ s.
Proof. intros H. now apply on_latch_Ok in H as (pg & l & _ & ->). Qed.

Lemma from_frames_then_same s s1 s' :
  from_frames s s1 -> disk_ s' = disk_ s1 -> from_frames s s'.
Proof. intros H E q. rewrite E. apply H. Qed.

Lemma exec_disk o s s' :
  bpm_inv s -> exec o s = Ok (tt, s') -> from_frames s s'.
Proof.
  intros Hi H. destruct o; simpl in H.
  - apply ReachFacts.forget_Ok in H as [a H]. eapply NewPage_disk; eauto.
  - apply ReachFacts.forget_Ok in H as [a H]. eapply FetchPage_disk; eauto.
  - apply ReachFacts.forget_Ok in H as [a H]. apply from_frames_same.
    f_equal. eapply UnpinPage_disk; eauto.
  - apply ReachFacts.forget_Ok in H as [a H]. eapply FlushPage_disk; eauto.
  - unfold FlushAllPages in H. case_bool_decide; [|discriminate].
    inversion H; subst. now apply from_frames_same.
  - apply ReachFacts.forget_Ok in H as [a H]. apply from_frames_same.
    f_equal. eapply DeletePage_disk; eauto.
  - apply ReachFacts.forget_Ok in H as [a H]. unfold Guarded.FetchPageBasic in H.
    apply bind_Ok in H as (res & s1 & HF & H).
    assert (s' = s1) by (destruct res; now inversion H). subst s1.
    eapply FetchPage_disk; eauto.
  - apply ReachFacts.forget_Ok in H as [a H]. unfold Guarded.FetchPageRead in H.
    apply bind_Ok in H as (res & s1 & HF & H).
    pose proof (FetchPage_disk s page_id res s1 Hi HF) as HD.
    destruct res as [f|]; [|inversion H; now subst].
    apply bind_Ok in H as ([] & s2 & HL & H). inversion H; subst.
    eapply from_frames_then_same; [exact HD|]. eapply on_latch_disk; eauto.
  - apply ReachFacts.forget_Ok in H as [a H]. unfold Guarded.FetchPageWrite in H.
    apply bind_Ok in H as (res & s1 & HF & H).
    pose proof (FetchPage_disk s page_id res s1 Hi HF) as HD.
    destruct res as [f|]; [|inversion H; now subst].
    apply bind_Ok in H as ([] & s2 & HL & H). inversion H; subst.
    eapply from_frames_then_same; [exact HD|]. eapply on_latch_disk; eauto.
  - apply ReachFacts.forget_Ok in H as [a H]. unfold Guarded.NewPageGuarded in H.
    apply bind_Ok in H as (res & s1 & HN & H).
    assert (s' = s1) by (destruct res as [[? ?]|]; now inversion H). subst s1.
    eapply NewPage_disk; eauto.
  - apply from_frames_same. f_equal. eapply on_latch_disk; eauto.
  - apply from_frames_same. f_equal. eapply on_latch_disk; eauto.
  - apply from_frames_same. f_equal. eapply on_latch_disk; eauto.
  - apply from_frames_same. f_equal. eapply on_latch_disk; eauto.
Qed.

End DiskFacts.

(** X20. Nothing but a frame's own page reaches the disk. Whatever
    operation of the manager returns from a state of the invariant,
    every block of the disk afterwards is either the block the disk had
    before, or the bytes of a frame that held the page of that block
    when the operation started: frames are written back under their own
    page id only, and reads, unpins and deletes leave the blocks alone. *)
Theorem disk_blocks_from_frames (s s' : BufferPoolManager.t) (o : Inv.op) :
  Inv.bpm_inv s -> Inv.exec o s = Ok (tt, s') ->
  Writes.from_frames s s' /\
  (forall p d, o = Inv.OpUnpinPage p d ->
     BufferPoolManager.disk_ s' = BufferPoolManager.disk_ s) /\
  (forall p, o = Inv.OpDeletePage p ->
     BufferPoolManager.disk_ s' = BufferPoolManager.disk_ s).
Proof.
  intros Hi H. split; [now apply (DiskFacts.exec_disk o)|]. split.
  - intros p d ->. simpl in H. apply ReachFacts.forget_Ok in H as [a H].
    eapply DiskFacts.UnpinPage_disk; eauto.
  - intros p ->. simpl in H. apply ReachFacts.forget_Ok in H as [a H].
    eapply DiskFacts.DeletePage_disk; eauto.
Qed.

Lemma disk_blocks_from_frames_witness :
  Writes.from_frames Demo.two_pages Demo2.flushed_once.
Proof.
  apply (disk_blocks_from_frames Demo.two_pages Demo2.flushed_once (Inv.OpFlushPage 0)).
  - apply DemoFacts.two_pages_inv.
  - vm_compute. reflexivity.
Defined.

(** X21. [UpgradeRead] and [UpgradeWrite] give the pin away to nobody.
    On a live guard whose frame's latch can be taken, each takes the
    latch, returns the empty guard (the constructors
    [ReadPageGuard(bpm, page)] and [WritePageGuard(bpm, page)] keep
    nothing) and clears the basic guard; the frame keeps its pin count,
    and dropping either guard afterwards changes nothing, so neither the
    latch nor the pin is released by them. *)
Theorem Upgrade_returns_empty_guard (s : BufferPoolManager.t)
    (g : BasicPageGuard.t) (b : BasicPageGuard.bpm_ref) (f : Z) (pg : Page.t) :
  BasicPageGuard.bpm_ g = Some b -> BasicPageGuard.page_ g = Some f ->
  Inv.page_at s f = Some pg ->
  (Page.writer_ (Page.rwlatch_ pg) = false ->
   exists s',
     Guarded.UpgradeRead g s
     = Ok ((ReadPageGuard.empty, BasicPageGuard.clear g), s') /\
     Inv.page_at s' f
     = Some (Page.set_rwlatch
               {| Page.readers_ := S (Page.readers_ (Page.rwlatch_ pg));
                  Page.writer_ := false |} pg) /\
     ReadPageGuard.Drop ReadPageGuard.empty s' = Ok (ReadPageGuard.empty, s') /\
     BasicPageGuard.Drop (BasicPageGuard.clear g) s'
     = Ok (BasicPageGuard.clear g, s')) /\
  (Page.rwlatch_ pg = Page.latch_free ->
   exists s',
     Guarded.UpgradeWrite g s
     = Ok ((WritePageGuard.empty, BasicPageGuard.clear g), s') /\
     Inv.page_at s' f
     = Some (Page.set_rwlatch
               {| Page.readers_ := 0; Page.writer_ := true |} pg) /\
     WritePageGuard.Drop WritePageGuard.empty s' = Ok (WritePageGuard.empty, s') /\
     BasicPageGuard.Drop (BasicPageGuard.clear g) s'
     = Ok (BasicPageGuard.clear g, s')).
Proof.
  intros Hb Hf Hp. split.
  - intros Hw.
    assert (HL : Page.latch_RLock (Page.rwlatch_ pg)
                 = Ok {| Page.readers_ := S (Page.readers_ (Page.rwlatch_ pg));
                         Page.writer_ := false |}).
    { unfold Page.latch_RLock. now rewrite Hw. }
    eexists. split.
    + unfold Guarded.UpgradeRead. rewrite Hb, Hf.
      erewrite BpmFacts.bind_run; [|apply (BpmFacts.on_latch_run s f _ pg _ Hp HL)].
      reflexivity.
    + split; [|split; reflexivity].
      rewrite BpmFacts.page_at_store_page by eauto.
      destruct (decide (f = f)); [reflexivity|congruence].
  - intros Hfree.
    assert (HL : Page.latch_WLock (Page.rwlatch_ pg)
                 = Ok {| Page.readers_ := 0; Page.writer_ := true |}).
    { rewrite Hfree. reflexivity. }
    eexists. split.
    + unfold Guarded.UpgradeWrite. rewrite Hb, Hf.
      erewrite BpmFacts.bind_run; [|apply (BpmFacts.on_latch_run s f _ pg _ Hp HL)].
      reflexivity.
    + split; [|split; reflexivity].
      rewrite BpmFacts.page_at_store_page by eauto.
      destruct (decide (f = f)); [reflexivity|congruence].
Qed.

Lemma Upgrade_returns_empty_guard_witness :
  exists s',
    Guarded.UpgradeRead (BasicPageGuard.make BasicPageGuard.this_bpm 1) Demo.two_pages
    = Ok ((ReadPageGuard.empty,
           BasicPageGuard.clear (BasicPageGuard.make BasicPageGuard.this_bpm 1)), s').
Proof.
  destruct (proj1 (Upgrade_returns_empty_guard Demo.two_pages
              (BasicPageGuard.make BasicPageGuard.this_bpm 1)
              BasicPageGuard.this_bpm 1
              {| Page.data_ := Page.zero_data; Page.page_id_ := 1;
                 Page.pin_count_ := 1; Page.is_dirty_ := false;
                 Page.rwlatch_ := Page.latch_free |}
              eq_refl eq_refl ltac:(vm_compute; reflexivity)) eq_refl)
    as (s' & H & _).
  exists s'. exact H.
Defined.

(** ** Timestamps are handed out once *)

Module StampFacts.

Import LRUKNode LRUKReplacer ReplacerRun Stamps.

Lemma elem_of_tail_list (l : list Z) x : x ∈ tail l -> x ∈ l.
Proof. destruct l; simpl; [easy|]. intros H. now right. Qed.

(** A timestamp of the node [RecordAccess] leaves is the new one or was
    in the node before. *)
Lemma accessed_stamps f r ts :
  ts ∈ history_ (accessed f r) ->
  ts = size_t_wrap (current_timestamp_ r + 1) \/
  exists n, node_store_ r !! f = Some n /\ ts ∈ history_ n.
Proof.
  unfold accessed. simpl. intros H.
  assert (H' : ts ∈ history_ (default init (node_store_ r !! f))
                     ++ [size_t_wrap (current_timestamp_ r + 1)]).
  { destruct (k_ r <? _); [now apply elem_of_tail_list|exact H]. }
  apply elem_of_app in H' as [H'|H'].
  - right. destruct (node_store_ r !! f) as [n|]; simpl in H'; [eauto|].
    now apply elem_of_nil in H'.
  - left. now apply list_elem_of_singleton in H'.
Qed.

Lemma stamps_unique_create num_frames k : stamps_unique (create num_frames k).
Proof. intros f g n m ts Hn. simpl in Hn. now rewrite lookup_empty in Hn. Qed.

Lemma stamps_unique_RecordAccess f r r' :
  timestamps_ok r -> stamps_unique r -> current_timestamp_ r < SIZE_MAX ->
  RecordAccess f r = Ok r' -> stamps_unique r'.
Proof.
  intros [Hc Hh] Hu Hlt H. unfold RecordAccess in H.
  destruct (frame_check r f); [discriminate|]. inversion H; subst r'. clear H.
  assert (Hts : size_t_wrap (current_timestamp_ r + 1) = current_timestamp_ r + 1)
    by (apply size_t_wrap_small; lia).
  assert (Hold : forall g m ts, node_store_ r !! g = Some m -> ts ∈ history_ m ->
            ts <= current_timestamp_ r).
  { intros g m ts Hm Hin. destruct (Hh g m Hm) as [_ Hall].
    rewrite Forall_forall in Hall. specialize (Hall ts Hin). lia. }
  assert (Hmix : forall g m ts, g <> f -> node_store_ r !! g = Some m ->
            ts ∈ history_ m -> ts ∈ history_ (accessed f r) -> False).
  { intros g m ts Hne Hm Hin Hacc.
    apply accessed_stamps in Hacc as [->|(n0 & Hn0 & Hin0)].
    - specialize (Hold g m _ Hm Hin). lia.
    - apply Hne. exact (Hu g f m n0 ts Hm Hn0 Hin Hin0). }
  intros f1 g1 n m ts Hn Hm Hin1 Hin2. simpl in Hn, Hm.
  apply lookup_insert_Some in Hn as [[<- <-]|[Hne1 Hn]];
    apply lookup_insert_Some in Hm as [[<- <-]|[Hne2 Hm]].
  - reflexivity.
  - exfalso. eapply (Hmix g1 m ts); eauto.
  - exfalso. eapply (Hmix f1 n ts); eauto.
  - exact (Hu f1 g1 n m ts Hn Hm Hin1 Hin2).
Qed.

Lemma stamps_unique_SetEvictable f b r r' :
  stamps_unique r -> SetEvictable f b r = Ok r' -> stamps_unique r'.
Proof.
  intros Hu H. unfold SetEvictable in H.
  destruct (frame_check r f); [discriminate|].
  destruct (node_store_ r !! f) as [n0|] eqn:E; [|now inversion H; subst].
  case_bool_decide; [now inversion H; subst|].
  inversion H; subst r'. clear H.
  assert (Hback : forall g m, <[f := set_is_evictable b n0]> (node_store_ r) !! g = Some m ->
            exists m0, node_store_ r !! g = Some m0 /\ history_ m0 = history_ m).
  { intros g m Hm. apply lookup_insert_Some in Hm as [[<- <-]|[_ Hm]]; eauto. }
  intros f1 g1 n m ts Hn Hm Hin1 Hin2. simpl in Hn, Hm.
  apply Hback in Hn as (n1 & Hn & En). apply Hback in Hm as (m1 & Hm & Em).
  rewrite <- En in Hin1. rewrite <- Em in Hin2.
  exact (Hu f1 g1 n1 m1 ts Hn Hm Hin1 Hin2).
Qed.

Lemma stamps_unique_erase f r c :
  stamps_unique r ->
  stamps_unique {| node_store_ := delete f (node_store_ r);
                   current_timestamp_ := current_timestamp_ r;
                   curr_size_ := c;
                   replacer_size_ := replacer_size_ r;
                   k_ := k_ r |}.
Proof.
  intros Hu f1 g1 n m ts Hn Hm. simpl in Hn, Hm.
  apply lookup_delete_Some in Hn as [_ Hn]. apply lookup_delete_Some in Hm as [_ Hm].
  exact (Hu f1 g1 n m ts Hn Hm).
Qed.

Lemma stamps_unique_Remove f r r' :
  stamps_unique r -> Remove f r = Ok r' -> stamps_unique r'.
Proof.
  intros Hu H. unfold Remove in H.
  destruct (frame_check r f); [discriminate|].
  destruct (node_store_ r !! f) as [n|] eqn:E; [|now inversion H; subst].
  destruct (negb (is_evictable_ n)); [discriminate|].
  inversion H; subst r'. now apply stamps_unique_erase.
Qed.

Lemma stamps_unique_Evict entries r v r' :
  stamps_unique r -> entries ≡ₚ map_to_list (node_store_ r) ->
  Evict_in_order entries r = Ok (v, r') -> stamps_unique r'.
Proof.
  intros Hu Hp H. apply ReplacerRunFacts.Evict_in_order_Ok in H; [|exact Hp].
  destruct v as [f|]; [|now subst].
  destruct H as [_ ->]. now apply stamps_unique_erase.
Qed.

Lemma stamped_create num_frames k :
  0 <= num_frames < 2 ^ 63 -> 0 < k -> stamped (create num_frames k).
Proof.
  intros Hn Hk. split; [now apply ReplacerRunFacts.inv_create|].
  split; [apply ReplacerMoreFacts.timestamps_ok_create|].
  split; [apply stamps_unique_create|]. simpl. unfold SIZE_MAX. lia.
Qed.

Lemma stamped_RecordAccess f r r' :
  stamped r -> frame_id_range f -> current_timestamp_ r + 1 < SIZE_MAX ->
  RecordAccess f r = Ok r' ->
  stamped r' /\ current_timestamp_ r' = current_timestamp_ r + 1.
Proof.
  intros (Hi & Ht & Hu & Hc) Hf Hlt H.
  assert (Hclk : current_timestamp_ r' = current_timestamp_ r + 1).
  { unfold RecordAccess in H. destruct (frame_check r f); [discriminate|].
    inversion H; subst r'. simpl. apply size_t_wrap_small.
    destruct Ht as [[? ?] _]. lia. }
  split; [|exact Hclk].
  split; [eapply ReplacerRunFacts.inv_RecordAccess; eauto|].
  split; [eapply ReplacerMoreFacts.timestamps_ok_RecordAccess; eauto|].
  split; [eapply stamps_unique_RecordAccess; eauto|]. lia.
Qed.

Lemma stamped_SetEvictable f b r r' :
  stamped r -> SetEvictable f b r = Ok r' ->
  stamped r' /\ current_timestamp_ r' = current_timestamp_ r.
Proof.
  intros (Hi & Ht & Hu & Hc) H.
  assert (Hclk : current_timestamp_ r' = current_timestamp_ r).
  { unfold SetEvictable in H. destruct (frame_check r f); [discriminate|].
    destruct (node_store_ r !! f) as [n0|]; [|now inversion H; subst].
    case_bool_decide; now inversion H; subst. }
  split; [|exact Hclk].
  split; [eapply ReplacerRunFacts.inv_SetEvictable; eauto|].
  split; [eapply ReplacerMoreFacts.timestamps_ok_SetEvictable; eauto|].
  split; [eapply stamps_unique_SetEvictable; eauto|]. lia.
Qed.

Lemma stamped_Remove f r r' : stamped r -> Remove f r = Ok r' -> stamped r'.
Proof.
  intros (Hi & Ht & Hu & Hc) H.
  assert (Hclk : current_timestamp_ r' = current_timestamp_ r).
  { unfold Remove in H. destruct (frame_check r f); [discriminate|].
    destruct (node_store_ r !! f) as [n0|]; [|now inversion H; subst].
    destruct (negb (is_evictable_ n0)); [discriminate|]. now inversion H; subst. }
  split; [eapply ReplacerRunFacts.inv_Remove; eauto|].
  split; [eapply ReplacerMoreFacts.timestamps_ok_Remove; eauto|].
  split; [eapply stamps_unique_Remove; eauto|]. lia.
Qed.

Lemma stamped_Evict entries r v r' :
  stamped r -> entries ≡ₚ map_to_list (node_store_ r) ->
  Evict_in_order entries r = Ok (v, r') -> stamped r'.
Proof.
  intros (Hi & Ht & Hu & Hc) Hp H.
  assert (Hclk : current_timestamp_ r' = current_timestamp_ r).
  { pose proof (ReplacerRunFacts.Evict_in_order_Ok r entries v r' Hp H) as H'.
    destruct v as [f|]; [destruct H' as [_ ->]|subst]; reflexivity. }
  split; [eapply ReplacerRunFacts.inv_Evict; eauto|].
  split; [eapply ReplacerMoreFacts.timestamps_ok_Evict; eauto|].
  split; [eapply stamps_unique_Evict; eauto|]. lia.
Qed.

(** A stamped replacer meets the conditions of the selection rule, and
    its evictable nodes have distinct first timestamps. *)
Lemma stamped_ok r : stamped r -> Spec.replacer_ok r /\ Spec.distinct_fronts r.
Proof.
  intros (Hi & [Hc Hh] & Hu & Hlt). split.
  - split.
    + lia.
    + intros f n Hn. destruct (inv_hist r Hi f n Hn) as [Hne _].
      split; [exact Hne|]. destruct (Hh f n Hn) as [_ Hall].
      eapply Forall_impl; [exact Hall|]. simpl. intros; lia.
    + apply Hi.
    + rewrite (inv_size r Hi).
      pose proof (ReplacerRunFacts.inv_count_bound r Hi).
      destruct (inv_rsize r Hi). unfold in_size_t, SIZE_MAX. lia.
  - intros f g n m [Hn _] [Hm _] Hfront.
    destruct (inv_hist r Hi f n Hn) as [Hne1 _].
    destruct (inv_hist r Hi g m Hm) as [Hne2 _].
    unfold Spec.front in Hfront.
    apply (Hu f g n m (hd 0 (history_ n)) Hn Hm).
    + destruct (history_ n); [congruence|left].
    + rewrite Hfront. destruct (history_ m); [congruence|left].
Qed.

(** A run of [RecordAccess] and [SetEvictable] that is too short to wrap
    the clock keeps the replacer stamped. *)
Lemma stamped_run ops : forall r0 r,
  stamped r0 ->
  Forall (fun op => exists f, frame_id_range f /\
            (op = RecordAccess f \/ exists b, op = SetEvictable f b)) ops ->
  current_timestamp_ r0 + Z.of_nat (length ops) < SIZE_MAX ->
  ScenarioS1.run ops r0 = Ok r ->
  stamped r /\ current_timestamp_ r <= current_timestamp_ r0 + Z.of_nat (length ops).
Proof.
  induction ops as [|op ops IH] using rev_ind; intros r0 r Hs Hops Hlen H.
  - unfold ScenarioS1.run in H. simpl in H. inversion H; subst. split; [exact Hs|]. simpl. lia.
  - apply Forall_app in Hops as [Hops Hop]. apply Forall_inv in Hop. simpl in Hop.
    rewrite length_app in Hlen |- *. simpl in Hlen |- *.
    unfold ScenarioS1.run in H. rewrite foldl_app in H. simpl in H.
    apply obind_Ok in H as (r1 & H1 & H2).
    destruct (IH r0 r1 Hs Hops ltac:(lia) H1) as [Hs1 Hc1].
    destruct Hop as (f & Hf & [->|[b ->]]).
    + destruct (stamped_RecordAccess f r1 r Hs1 Hf ltac:(lia) H2) as [Hs2 Hc2].
      split; [exact Hs2|lia].
    + destruct (stamped_SetEvictable f b r1 r Hs1 H2) as [Hs2 Hc2].
      split; [exact Hs2|lia].
Qed.

Lemma sample_under_k_stamped : stamped sample_under_k.
Proof.
  eapply (stamped_run
            [RecordAccess 1; RecordAccess 2; RecordAccess 1; RecordAccess 3;
             SetEvictable 1 true; SetEvictable 2 true; SetEvictable 3 true]
            (create 7 2)).
  - apply stamped_create; lia.
  - repeat constructor; eexists; (split; [|eauto]); unfold frame_id_range; lia.
  - simpl. unfold SIZE_MAX. lia.
  - vm_compute. reflexivity.
Qed.

End StampFacts.

(** X3. Timestamps are handed out once and in order. Call a replacer
    stamped when its keys and counter are as the constructor and the
    methods leave them, every history is strictly increasing with
    entries between 1 and the clock, no timestamp is in the histories
    of two frames, and the clock is below [SIZE_MAX]. The replacer the
    constructor makes is stamped, and a stamped replacer stays stamped
    through [RecordAccess] (as long as the clock stays below
    [SIZE_MAX]), [SetEvictable], [Remove] and [Evict]. *)
Theorem stamped_preserved (r : LRUKReplacer.t) :
  Stamps.stamped r ->
  (forall f r', ReplacerRun.frame_id_range f ->
     LRUKReplacer.current_timestamp_ r + 1 < SIZE_MAX ->
     LRUKReplacer.RecordAccess f r = Ok r' ->
     Stamps.stamped r' /\
     LRUKReplacer.current_timestamp_ r' = LRUKReplacer.current_timestamp_ r + 1) /\
  (forall f b r', LRUKReplacer.SetEvictable f b r = Ok r' -> Stamps.stamped r') /\
  (forall f r', LRUKReplacer.Remove f r = Ok r' -> Stamps.stamped r') /\
  (forall entries v r',
     entries ≡ₚ map_to_list (LRUKReplacer.node_store_ r) ->
     LRUKReplacer.Evict_in_order entries r = Ok (v, r') -> Stamps.stamped r').
Proof.
  intros Hs. split; [|split; [|split]].
  - intros f r' Hf Hlt H. now apply (StampFacts.stamped_RecordAccess f r r').
  - intros f b r' H. now apply (StampFacts.stamped_SetEvictable f b r r').
  - intros f r' H. now apply (StampFacts.stamped_Remove f r r').
  - intros entries v r' Hp H. now apply (StampFacts.stamped_Evict entries r v r').
Qed.

Lemma stamped_preserved_witness :
  Stamps.stamped (LRUKReplacer.create 7 2) /\
  (forall f b r',
     LRUKReplacer.SetEvictable f b (LRUKReplacer.create 7 2) = Ok r' ->
     Stamps.stamped r').
Proof.
  split; [apply StampFacts.stamped_create; lia|].
  apply (stamped_preserved (LRUKReplacer.create 7 2)).
  apply StampFacts.stamped_create; lia.
Defined.

(** X22. The order in which [Evict] walks [node_store_] (an
    [unordered_map], whose order of iteration is unspecified) does not
    matter: in a stamped replacer any two enumerations of the nodes give
    the same victim and the same replacer afterwards. *)
Theorem Evict_order_independent (r : LRUKReplacer.t)
    (entries1 entries2 : list (Z * LRUKNode.t)) :
  Stamps.stamped r ->
  entries1 ≡ₚ map_to_list (LRUKReplacer.node_store_ r) ->
  entries2 ≡ₚ map_to_list (LRUKReplacer.node_store_ r) ->
  LRUKReplacer.Evict_in_order entries1 r = LRUKReplacer.Evict_in_order entries2 r.
Proof.
  intros Hs H1 H2. destruct (StampFacts.stamped_ok r Hs) as [Hok Hd].
  rewrite (OrderFacts.Evict_in_order_canonical r entries1 Hok Hd H1).
  now rewrite (OrderFacts.Evict_in_order_canonical r entries2 Hok Hd H2).
Qed.

Lemma Evict_order_independent_witness :
  LRUKReplacer.Evict_in_order
    (reverse (map_to_list (LRUKReplacer.node_store_ ReplacerRun.sample_under_k)))
    ReplacerRun.sample_under_k
  = LRUKReplacer.Evict_in_order
      (map_to_list (LRUKReplacer.node_store_ ReplacerRun.sample_under_k))
      ReplacerRun.sample_under_k.
Proof.
  apply (Evict_order_independent ReplacerRun.sample_under_k).
  - apply StampFacts.sample_under_k_stamped.
  - apply reverse_Permutation.
  - reflexivity.
Defined.

(** ** Latched guards, and page ids handed out twice *)

Module LatchFacts.

Import BufferPoolManager Inv Post BpmFacts InvFacts OpFacts.

Lemma fetched_unallocated_inv : bpm_inv Demo2.fetched_unallocated.
Proof. apply (DemoFacts.after_inv [OpFetchPage 0]). vm_compute. reflexivity. Qed.

Lemma read_latched_inv : bpm_inv Demo2.read_latched.
Proof. apply (DemoFacts.after_inv [OpFetchPageRead 0]). vm_compute. reflexivity. Qed.

(** Releasing the latch of a pinned resident frame and then dropping a
    basic guard on it. *)
Lemma unlatch_then_Drop s g b f pg op l :
  bpm_inv s ->
  BasicPageGuard.bpm_ g = Some b -> BasicPageGuard.page_ g = Some f ->
  page_at s f = Some pg -> 0 < Page.pin_count_ pg ->
  page_table_ s !! Page.page_id_ pg = Some f ->
  op (Page.rwlatch_ pg) = Ok l ->
  exists s1 s2,
    on_latch f op s = Ok (tt, s1) /\
    page_at s1 f = Some (Page.set_rwlatch l pg) /\
    UnpinPage (Page.page_id_ pg) (BasicPageGuard.is_dirty_ g) s1 = Ok (true, s2) /\
    BasicPageGuard.Drop g s1 = Ok (BasicPageGuard.clear g, s2) /\
    page_at s2 f
    = Some (unpinned_page (BasicPageGuard.is_dirty_ g) (Page.set_rwlatch l pg)).
Proof.
  intros Hi Hb Hf Hp Hpin Ht HL.
  pose proof (on_latch_run s f op pg l Hp HL) as Hon.
  set (pg1 := Page.set_rwlatch l pg) in *.
  set (s1 := store_page f pg1 s) in *.
  assert (Hi1 : bpm_inv s1) by (eapply ReachFacts.on_latch_inv; eauto).
  assert (Hp1 : page_at s1 f = Some pg1).
  { unfold s1. rewrite page_at_store_page by eauto.
    destruct (decide (f = f)); [reflexivity|congruence]. }
  assert (Ht1 : page_table_ s1 !! Page.page_id_ pg1 = Some f) by exact Ht.
  assert (Hpin1 : 0 < Page.pin_count_ pg1) by exact Hpin.
  destruct (ContractFacts.pinned_node s1 f pg1 Hi1 Hp1 Hpin1) as (n & Hn & Hev).
  pose proof (ContractFacts.UnpinPage_pinned_run s1 (Page.page_id_ pg1)
                (BasicPageGuard.is_dirty_ g) f pg1 n Hi1 Ht1 Hp1 Hpin1 Hn Hev) as HU.
  exists s1. eexists. split; [exact Hon|]. split; [exact Hp1|].
  split; [exact HU|]. split.
  - rewrite (GuardFacts.Drop_live g b f s1 pg1 Hb Hf Hp1), HU. reflexivity.
  - rewrite ContractFacts.page_at_unpinned by exact Hp1.
    destruct (decide (f = f)); [reflexivity|congruence].
Qed.

Lemma guard_eta (g : BasicPageGuard.t) :
  {| BasicPageGuard.bpm_ := BasicPageGuard.bpm_ g;
     BasicPageGuard.page_ := BasicPageGuard.page_ g;
     BasicPageGuard.is_dirty_ := BasicPageGuard.is_dirty_ g |} = g.
Proof. now destruct g. Qed.

Lemma move_assign_empty this that s :
  BasicPageGuard.is_empty this = true ->
  BasicPageGuard.move_assign this that s
  = Ok ((that, BasicPageGuard.clear that), s).
Proof.
  intros He. unfold BasicPageGuard.move_assign.
  rewrite (bind_run _ _ _ _ _ (GuardFacts.Drop_empty this s He)).
  unfold ret. now rewrite guard_eta.
Qed.

End LatchFacts.

(** X23. [ReadPageGuard] and [WritePageGuard] release what they hold
    exactly once. For a guard that is live on a pinned resident frame
    whose latch it holds, [Drop] releases the latch, unpins the page
    with the guard's dirty flag and leaves the guard empty, so that a
    second [Drop] does nothing; and move assignment from another guard,
    which calls [Drop] and then the move assignment of the basic guard
    (which calls [Drop] again), still releases the latch once and unpins
    once, and leaves the source empty. *)
Theorem latched_guards_release_once (s : BufferPoolManager.t)
    (g that : BasicPageGuard.t) (b : BasicPageGuard.bpm_ref) (f : Z) (pg : Page.t) :
  Inv.bpm_inv s ->
  BasicPageGuard.bpm_ g = Some b -> BasicPageGuard.page_ g = Some f ->
  Inv.page_at s f = Some pg -> 0 < Page.pin_count_ pg ->
  BufferPoolManager.page_table_ s !! Page.page_id_ pg = Some f ->
  (forall n, Page.readers_ (Page.rwlatch_ pg) = S n ->
   exists s1 s2,
     BufferPoolManager.on_latch f Page.latch_RUnlock s = Ok (tt, s1) /\
     BufferPoolManager.UnpinPage (Page.page_id_ pg) (BasicPageGuard.is_dirty_ g) s1
     = Ok (true, s2) /\
     ReadPageGuard.Drop {| ReadPageGuard.guard_ := g |} s
     = Ok ({| ReadPageGuard.guard_ := BasicPageGuard.clear g |}, s2) /\
     ReadPageGuard.Drop {| ReadPageGuard.guard_ := BasicPageGuard.clear g |} s2
     = Ok ({| ReadPageGuard.guard_ := BasicPageGuard.clear g |}, s2) /\
     ReadPageGuard.move_assign {| ReadPageGuard.guard_ := g |}
       {| ReadPageGuard.guard_ := that |} s
     = Ok (({| ReadPageGuard.guard_ := that |},
            {| ReadPageGuard.guard_ := BasicPageGuard.clear that |}), s2) /\
     Inv.page_at s2 f
     = Some (Post.unpinned_page (BasicPageGuard.is_dirty_ g)
               (Page.set_rwlatch
                  {| Page.readers_ := n;
                     Page.writer_ := Page.writer_ (Page.rwlatch_ pg) |} pg))) /\
  (Page.writer_ (Page.rwlatch_ pg) = true ->
   exists s1 s2,
     BufferPoolManager.on_latch f Page.latch_WUnlock s = Ok (tt, s1) /\
     BufferPoolManager.UnpinPage (Page.page_id_ pg) (BasicPageGuard.is_dirty_ g) s1
     = Ok (true, s2) /\
     WritePageGuard.Drop {| WritePageGuard.guard_ := g |} s
     = Ok ({| WritePageGuard.guard_ := BasicPageGuard.clear g |}, s2) /\
     WritePageGuard.Drop {| WritePageGuard.guard_ := BasicPageGuard.clear g |} s2
     = Ok ({| WritePageGuard.guard_ := BasicPageGuard.clear g |}, s2) /\
     WritePageGuard.move_assign {| WritePageGuard.guard_ := g |}
       {| WritePageGuard.guard_ := that |} s
     = Ok (({| WritePageGuard.guard_ := that |},
            {| WritePageGuard.guard_ := BasicPageGuard.clear that |}), s2) /\
     Inv.page_at s2 f
     = Some (Post.unpinned_page (BasicPageGuard.is_dirty_ g)
               (Page.set_rwlatch
                  {| Page.readers_ := Page.readers_ (Page.rwlatch_ pg);
                     Page.writer_ := false |} pg))).
Proof.
  intros Hi Hb Hf Hp Hpin Ht. split.
  - intros n Hrd.
    assert (HL : Page.latch_RUnlock (Page.rwlatch_ pg)
                 = Ok {| Page.readers_ := n;
                         Page.writer_ := Page.writer_ (Page.rwlatch_ pg) |}).
    { unfold Page.latch_RUnlock. now rewrite Hrd. }
    destruct (LatchFacts.unlatch_then_Drop s g b f pg _ _ Hi Hb Hf Hp Hpin Ht HL)
      as (s1 & s2 & Hon & Hp1 & HU & HD & Hp2).
    assert (HDr : ReadPageGuard.Drop {| ReadPageGuard.guard_ := g |} s
                  = Ok ({| ReadPageGuard.guard_ := BasicPageGuard.clear g |}, s2)).
    { unfold ReadPageGuard.Drop. simpl. rewrite Hb, Hf.
      rewrite (BpmFacts.bind_run _ _ _ _ _ Hon).
      rewrite (BpmFacts.bind_run _ _ _ _ _ HD). reflexivity. }
    exists s1, s2. split; [exact Hon|]. split; [exact HU|]. split; [exact HDr|].
    split; [reflexivity|]. split; [|exact Hp2].
    unfold ReadPageGuard.move_assign.
    rewrite (BpmFacts.bind_run _ _ _ _ _ HDr). simpl.
    erewrite BpmFacts.bind_run; [|apply LatchFacts.move_assign_empty; reflexivity].
    reflexivity.
  - intros Hw.
    assert (HL : Page.latch_WUnlock (Page.rwlatch_ pg)
                 = Ok {| Page.readers_ := Page.readers_ (Page.rwlatch_ pg);
                         Page.writer_ := false |}).
    { unfold Page.latch_WUnlock. now rewrite Hw. }
    destruct (LatchFacts.unlatch_then_Drop s g b f pg _ _ Hi Hb Hf Hp Hpin Ht HL)
      as (s1 & s2 & Hon & Hp1 & HU & HD & Hp2).
    assert (HDr : WritePageGuard.Drop {| WritePageGuard.guard_ := g |} s
                  = Ok ({| WritePageGuard.guard_ := BasicPageGuard.clear g |}, s2)).
    { unfold WritePageGuard.Drop. simpl. rewrite Hb, Hf.
      rewrite (BpmFacts.bind_run _ _ _ _ _ Hon).
      rewrite (BpmFacts.bind_run _ _ _ _ _ HD). reflexivity. }
    exists s1, s2. split; [exact Hon|]. split; [exact HU|]. split; [exact HDr|].
    split; [reflexivity|]. split; [|exact Hp2].
    unfold WritePageGuard.move_assign.
    rewrite (BpmFacts.bind_run _ _ _ _ _ HDr). simpl.
    erewrite BpmFacts.bind_run; [|apply LatchFacts.move_assign_empty; reflexivity].
    reflexivity.
Qed.

Lemma latched_guards_release_once_witness :
  exists s1 s2,
    BufferPoolManager.on_latch 0 Page.latch_RUnlock Demo2.read_latched = Ok (tt, s1) /\
    BufferPoolManager.UnpinPage 0 false s1 = Ok (true, s2) /\
    ReadPageGuard.Drop
      {| ReadPageGuard.guard_ := BasicPageGuard.make BasicPageGuard.this_bpm 0 |}
      Demo2.read_latched
    = Ok ({| ReadPageGuard.guard_ :=
               BasicPageGuard.clear (BasicPageGuard.make BasicPageGuard.this_bpm 0) |},
          s2).
Proof.
  destruct (proj1 (latched_guards_release_once Demo2.read_latched
              (BasicPageGuard.make BasicPageGuard.this_bpm 0) BasicPageGuard.empty
              BasicPageGuard.this_bpm 0
              {| Page.data_ := Page.zero_data; Page.page_id_ := 0;
                 Page.pin_count_ := 1; Page.is_dirty_ := false;
                 Page.rwlatch_ := {| Page.readers_ := 1; Page.writer_ := false |} |}
              LatchFacts.read_latched_inv eq_refl eq_refl
              ltac:(vm_compute; reflexivity) ltac:(simpl; lia)
              ltac:(vm_compute; reflexivity)) 0%nat eq_refl)
    as (s1 & s2 & H1 & H2 & H3 & _).
  exists s1, s2. split; [exact H1|]. split; [exact H2|exact H3].
Defined.

(** X24. [NewPage] does not look whether the id it hands out is
    resident. If the page whose id is the value of the counter has been
    fetched into frame [f], and the free list is not empty, [NewPage]
    returns that id in the frame [g] at the front of the free list,
    [g <> f], and points the page table at [g]: frame [f] keeps the page
    id and its pin count, but no entry of the page table reaches it any
    more, and [UnpinPage] of the id now unpins frame [g] and leaves
    frame [f] as it is. *)
Theorem NewPage_reuses_resident_id (s : BufferPoolManager.t) (f g : Z)
    (rest : list Z) (pg : Page.t) :
  Inv.bpm_inv s ->
  BufferPoolManager.page_table_ s !! BufferPoolManager.next_page_id_ s = Some f ->
  Inv.page_at s f = Some pg ->
  BufferPoolManager.free_list_ s = g :: rest ->
  exists s',
    BufferPoolManager.NewPage s
    = Ok (Some (BufferPoolManager.next_page_id_ s, g), s') /\
    g <> f /\
    BufferPoolManager.page_table_ s' !! BufferPoolManager.next_page_id_ s = Some g /\
    Inv.page_at s' f = Some pg /\
    Page.page_id_ pg = BufferPoolManager.next_page_id_ s /\
    (forall q, BufferPoolManager.page_table_ s' !! q <> Some f) /\
    forall d, exists s'',
      BufferPoolManager.UnpinPage (BufferPoolManager.next_page_id_ s) d s'
      = Ok (true, s'') /\
      Inv.page_at s'' f = Some pg.
Proof.
  intros Hi Ht Hp Hfl.
  destruct (Inv.inv_table s Hi _ f Ht) as (pg0 & Hp0 & Hid).
  assert (pg0 = pg) by congruence. subst pg0.
  assert (Hgf : g <> f).
  { intros ->. destruct (Inv.inv_free s Hi f) as (_ & _ & Hno).
    - rewrite Hfl. left.
    - now apply (Hno (BufferPoolManager.next_page_id_ s)). }
  destruct (NewPageFacts.NewPage_cases s Hi)
    as [(g' & rest' & pgg & r2 & Hfl' & Hpg & Hi1 & Ha1 & H2 & HN)
       |[(Hfl' & _)|(v & r' & pgv & r2 & Hfl' & _)]]; [|congruence|congruence].
  assert (g' = g) by congruence. subst g'.
  assert (rest' = rest) by congruence. subst rest'.
  set (s1 := BufferPoolManager.set_free_list rest s) in *.
  destruct (NewPageFacts.page_installed_facts s1 g pgg r2 Hi1 Ha1 Hpg H2)
    as (_ & Htb & _ & _ & Hpa & Hna & _).
  pose proof (OpFacts.page_installed_inv s1 g pgg r2 Hi1 Ha1 Hpg H2) as Hi'.
  set (s' := Post.page_installed g pgg r2 s1) in *.
  assert (Hother : forall h, h <> g -> Inv.page_at s' h = Inv.page_at s h).
  { intros h Hh. unfold s', Post.page_installed.
    rewrite OpFacts.page_at_set_replacer, OpFacts.page_at_set_page_table.
    rewrite BpmFacts.page_at_store_page by (rewrite OpFacts.page_at_set_next_page_id; eauto).
    now destruct (decide (h = g)). }
  exists s'. split; [exact HN|]. split; [exact Hgf|].
  split; [rewrite Htb; apply lookup_insert_eq|].
  split; [rewrite Hother by congruence; exact Hp|].
  split; [exact Hid|]. split.
  - intros q Hq. rewrite Htb in Hq.
    apply lookup_insert_Some in Hq as [[_ Hq]|[Hne Hq]]; [congruence|].
    destruct (Inv.inv_table s Hi q f Hq) as (pg1 & Hp1 & Hid1).
    apply Hne. change (BufferPoolManager.next_page_id_ s = q). congruence.
  - intros d.
    assert (Ht' : BufferPoolManager.page_table_ s' !! BufferPoolManager.next_page_id_ s
                  = Some g) by (rewrite Htb; apply lookup_insert_eq).
    assert (Hpin : 0 < Page.pin_count_
                         (Post.new_page (BufferPoolManager.next_page_id_ s1) pgg))
      by (simpl; lia).
    destruct (ContractFacts.pinned_node s' g _ Hi' Hpa Hpin) as (n & Hn & Hev).
    pose proof (ContractFacts.UnpinPage_pinned_run s'
                  (BufferPoolManager.next_page_id_ s) d g _ n Hi' Ht' Hpa Hpin Hn Hev)
      as HU.
    eexists. split; [exact HU|].
    rewrite ContractFacts.page_at_unpinned by exact Hpa.
    destruct (decide (f = g)); [congruence|].
    rewrite Hother by congruence. exact Hp.
Qed.

Lemma NewPage_reuses_resident_id_witness :
  exists s',
    BufferPoolManager.NewPage Demo2.fetched_unallocated = Ok (Some (0, 1), s') /\
    1 <> 0 /\
    BufferPoolManager.page_table_ s' !! 0 = Some 1.
Proof.
  destruct (NewPage_reuses_resident_id Demo2.fetched_unallocated 0 1 [2]
              {| Page.data_ := Page.zero_data; Page.page_id_ := 0;
                 Page.pin_count_ := 1; Page.is_dirty_ := false;
                 Page.rwlatch_ := Page.latch_free |}
              LatchFacts.fetched_unallocated_inv)
    as (s' & H1 & H2 & H3 & _).
  - vm_compute. reflexivity.
  - vm_compute. reflexivity.
  - vm_compute. reflexivity.
  - exists s'. split; [exact H1|]. split; [exact H2|exact H3].
Defined.

(** ** The page-id counter wraps around *)

Module WrapFacts.

Import BufferPoolManager Inv Post BpmFacts InvFacts OpFacts.





End WrapFacts.


(** ** [K = 1]: least recently used *)

Module LruFacts.

Import LRUKNode LRUKReplacer Traced.

Lemma lookup_kept_Remove f r r' g n :
  Remove f r = Ok r' -> node_store_ r' !! g = Some n -> node_store_ r !! g = Some n.
Proof.
  intros H. unfold Remove in H.
  destruct (frame_check r f); [discriminate|].
  destruct (node_store_ r !! f) as [n0|] eqn:E; [|now inversion H; subst].
  destruct (negb (is_evictable_ n0)); [discriminate|].
  inversion H; subst r'. simpl. intros Hg.
  now apply lookup_delete_Some in Hg as [_ Hg].
Qed.

Lemma lookup_kept_Evict entries r v r' g n :
  entries ≡ₚ map_to_list (node_store_ r) ->
  Evict_in_order entries r = Ok (v, r') ->
  node_store_ r' !! g = Some n -> node_store_ r !! g = Some n.
Proof.
  intros Hp H. apply ReplacerRunFacts.Evict_in_order_Ok in H; [|exact Hp].
  destruct v as [f|]; [|now subst].
  destruct H as [_ ->]. simpl. intros Hg.
  now apply lookup_delete_Some in Hg as [_ Hg].
Qed.

Lemma history_kept_SetEvictable f b r r' g n :
  SetEvictable f b r = Ok r' -> node_store_ r' !! g = Some n ->
  exists n0, node_store_ r !! g = Some n0 /\ history_ n0 = history_ n.
Proof.
  intros H. unfold SetEvictable in H.
  destruct (frame_check r f); [discriminate|].
  destruct (node_store_ r !! f) as [n0|] eqn:E; [|inversion H; subst; eauto].
  case_bool_decide; [inversion H; subst; eauto|].
  inversion H; subst r'. simpl. intros Hg.
  apply lookup_insert_Some in Hg as [[<- <-]|[_ Hg]]; eauto.
Qed.

(** With [K = 1], the history of every tracked frame is the one value
    [last] gives for it, and the clock is the number of accesses. *)
Lemma traced_lru num_frames r now last :
  0 <= num_frames < 2 ^ 63 ->
  traced num_frames 1 r now last ->
  Stamps.stamped r /\ current_timestamp_ r = now /\ k_ r = 1 /\ 0 <= now /\
  forall f n, node_store_ r !! f = Some n ->
    exists t, last !! f = Some t /\ history_ n = [t] /\ 0 < t <= now.
Proof.
  intros Hn Ht.
  induction Ht as [|r now last f r' _ IH Hf Hlt H|r now last f b r' _ IH H
                   |r now last f r' _ IH H|r now last entries v r' _ IH Hp H].
  - split; [apply StampFacts.stamped_create; lia|].
    split; [reflexivity|]. split; [reflexivity|]. split; [lia|].
    intros f n Hl. simpl in Hl. now rewrite lookup_empty in Hl.
  - destruct IH as (Hs & Hc & Hk & H0 & Hall).
    destruct (StampFacts.stamped_RecordAccess f r r' Hs Hf ltac:(lia) H) as [Hs' Hc'].
    split; [exact Hs'|]. split; [lia|].
    unfold RecordAccess in H. destruct (frame_check r f); [discriminate|].
    inversion H; subst r'. clear H. simpl.
    split; [exact Hk|]. split; [lia|].
    intros g n Hl. apply lookup_insert_Some in Hl as [[<- <-]|[Hne Hl]].
    + exists (now + 1). split; [apply lookup_insert_eq|]. split; [|lia].
      unfold accessed. simpl. rewrite Hk, Hc.
      rewrite size_t_wrap_small by (unfold SIZE_MAX in *; lia).
      destruct (node_store_ r !! f) as [n0|] eqn:E; simpl.
      * destruct (Hall f n0 E) as (t0 & _ & Hh & _). now rewrite Hh.
      * reflexivity.
    + destruct (Hall g n Hl) as (t & Hlast & Hh & Hb).
      exists t. split; [now rewrite lookup_insert_ne|]. split; [exact Hh|lia].
  - destruct IH as (Hs & Hc & Hk & H0 & Hall).
    destruct (StampFacts.stamped_SetEvictable f b r r' Hs H) as [Hs' Hc'].
    split; [exact Hs'|]. split; [lia|].
    split; [destruct (ShapeFacts.keeps_params_SetEvictable f b r r' H); lia|].
    split; [exact H0|].
    intros g n Hl. destruct (history_kept_SetEvictable f b r r' g n H Hl) as (n0 & Hl0 & <-).
    now apply (Hall g n0).
  - destruct IH as (Hs & Hc & Hk & H0 & Hall).
    pose proof (StampFacts.stamped_Remove f r r' Hs H) as Hs'.
    destruct (ShapeFacts.keeps_params_Remove f r r' H) as [_ Hk'].
    assert (Hc' : current_timestamp_ r' = current_timestamp_ r).
    { unfold Remove in H. destruct (frame_check r f); [discriminate|].
      destruct (node_store_ r !! f) as [n0|]; [|now inversion H; subst].
      destruct (negb (is_evictable_ n0)); [discriminate|]. now inversion H; subst. }
    split; [exact Hs'|]. split; [lia|]. split; [lia|]. split; [exact H0|].
    intros g n Hl. apply (Hall g n). eapply lookup_kept_Remove; eauto.
  - destruct IH as (Hs & Hc & Hk & H0 & Hall).
    pose proof (StampFacts.stamped_Evict entries r v r' Hs Hp H) as Hs'.
    assert (Hc' : current_timestamp_ r' = current_timestamp_ r /\ k_ r' = k_ r).
    { pose proof (ReplacerRunFacts.Evict_in_order_Ok r entries v r' Hp H) as H'.
      destruct v as [f|]; [destruct H' as [_ ->]|subst]; split; reflexivity. }
    split; [exact Hs'|]. split; [lia|]. split; [lia|]. split; [exact H0|].
    intros g n Hl. apply (Hall g n). eapply lookup_kept_Evict; eauto.
Qed.

Lemma replay_traced num_frames k cs : forall r now last r' now' last',
  traced num_frames k r now last ->
  Forall call_ok cs ->
  now + Z.of_nat (length cs) < SIZE_MAX ->
  replay cs r now last = Ok (r', now', last') ->
  traced num_frames k r' now' last'.
Proof.
  induction cs as [|c cs IH]; intros r now last r' now' last' Ht Hok Hlen H.
  - simpl in H. now inversion H; subst.
  - apply Forall_cons in Hok as [Hc Hok]. simpl length in Hlen.
    destruct c as [f|f b]; simpl in H;
      apply obind_Ok in H as (r1 & H1 & H2).
    + apply (IH r1 (now + 1) (<[f := now + 1]> last)); [|exact Hok|lia|exact H2].
      eapply traced_RecordAccess; eauto. lia.
    + apply (IH r1 now last); [|exact Hok|lia|exact H2].
      eapply traced_SetEvictable; eauto.
Qed.

Lemma sample_lru_traced : traced 7 1 ReplacerRun.sample_lru 4 sample_lru_last.
Proof.
  apply (replay_traced 7 1 sample_lru_calls (create 7 1) 0 ∅).
  - apply traced_new.
  - repeat constructor; unfold ReplacerRun.frame_id_range; lia.
  - unfold SIZE_MAX. simpl. lia.
  - vm_compute. reflexivity.
Qed.

End LruFacts.

(** X5. With [K = 1] the replacer is plain LRU. Along any run from
    [LRUKReplacer(num_frames, 1)], count the calls of [RecordAccess]
    and remember for each frame the count at its latest access. Then
    the history of every tracked frame, evictable or not, holds exactly
    that one value; when some frame is evictable [Evict] returns a
    frame; and the frame [Evict] returns is evictable and its latest
    access is strictly older than the latest access of every other
    evictable frame. *)
Theorem Evict_K1_is_LRU (num_frames : Z) (r : LRUKReplacer.t) (now : Z)
    (last : gmap Z Z) (entries : list (Z * LRUKNode.t)) :
  0 <= num_frames < 2 ^ 63 ->
  Traced.traced num_frames 1 r now last ->
  entries ≡ₚ map_to_list (LRUKReplacer.node_store_ r) ->
  (forall f n, LRUKReplacer.node_store_ r !! f = Some n ->
     exists t, last !! f = Some t /\ LRUKNode.history_ n = [t] /\ 0 < t <= now) /\
  ((exists f n, Spec.evictable_in r f n) ->
   exists v r', LRUKReplacer.Evict_in_order entries r = Ok (Some v, r')) /\
  (forall v r', LRUKReplacer.Evict_in_order entries r = Ok (Some v, r') ->
     exists nv tv,
       Spec.evictable_in r v nv /\ last !! v = Some tv /\
       forall f n, Spec.evictable_in r f n -> f <> v ->
         exists t, last !! f = Some t /\ tv < t).
Proof.
  intros Hn Ht Hp.
  destruct (LruFacts.traced_lru num_frames r now last Hn Ht)
    as (Hs & Hc & Hk & H0 & Hall).
  destruct (StampFacts.stamped_ok r Hs) as [Hok Hd].
  split; [exact Hall|]. split.
  - intros (f & n & Hev).
    destruct (EvictFacts.Evict_in_order_spec r entries Hok Hp)
      as [[Hnone _]|(v & _ & Hsome & _)]; [|eauto].
    destruct Hev as [Hl He]. rewrite (Hnone f n Hl) in He. discriminate.
  - intros v r' He.
    destruct (EvictFacts.Evict_in_order_spec r entries Hok Hp)
      as [[_ Hnone]|(v0 & (nv & Hev & Hmin) & Hsome & _)]; [congruence|].
    assert (v0 = v) by congruence. subst v0.
    destruct (Hall v nv (proj1 Hev)) as (tv & Hlv & Hhv & _).
    exists nv, tv. split; [exact Hev|]. split; [exact Hlv|].
    intros f n Hen Hne.
    destruct (Hall f n (proj1 Hen)) as (t & Hlf & Hhf & _).
    exists t. split; [exact Hlf|].
    destruct (Hmin f n Hen) as [Hle _].
    assert (Hle' : tv <= t).
    { revert Hle. unfold Spec.k_distance, Spec.front. rewrite Hk, Hhv, Hhf. simpl.
      intros; lia. }
    destruct (Z.eq_dec tv t) as [->|]; [|lia].
    exfalso. apply Hne. apply (Hd f v n nv Hen Hev).
    unfold Spec.front. now rewrite Hhv, Hhf.
Qed.

Lemma Evict_K1_is_LRU_witness :
  exists nv tv,
    Spec.evictable_in ReplacerRun.sample_lru 2 nv /\
    Traced.sample_lru_last !! 2 = Some tv /\
    forall f n, Spec.evictable_in ReplacerRun.sample_lru f n -> f <> 2 ->
      exists t, Traced.sample_lru_last !! f = Some t /\ tv < t.
Proof.
  apply (proj2 (proj2 (Evict_K1_is_LRU 7 ReplacerRun.sample_lru 4
           Traced.sample_lru_last
           (map_to_list (LRUKReplacer.node_store_ ReplacerRun.sample_lru))
           ltac:(lia) LruFacts.sample_lru_traced ltac:(reflexivity)))
         2 (Spec.evicted 2 ReplacerRun.sample_lru)).
  vm_compute. reflexivity.
Defined.
